(** * seg2map: verification of the utility functions of [src/seg2map/common.py]

    The development embeds the functions of [common.py] that carry logic of
    their own: the UTM resolver, the nearest-neighbour resize and the linear
    rescale, the config assembler, the ROI filter, the config writer and the
    clean-up of empty directories.

    Conventions of the embedding:
    - Python [int] is [Z]; Python [float] and numpy's float64 are the
      binary64 floats, as the primitive floats of Rocq with the
      specification of [FloatAxioms]; only in [scale], where the quotient
      of two [int]s goes to [int()] at once, the quotient is kept as an
      exact rational ([Q]): this truncates to the same integer as the
      float as long as the dividend is below 2^53;
    - the cells of a numpy array of an integer dtype are integers within
      the range of the dtype, whose operations wrap around;
    - a raised exception is the [Raise] branch of [result];
    - sequences are lists, a [dict] is an association list in insertion order;
    - the file system is a tree of directories and files addressed by lists
      of path components. *)

From Stdlib Require Import String Ascii DecimalString.
From Stdlib Require Import ZArith QArith Qround Lia Lqa Bool Arith List.
From Stdlib Require Import Floats.
Import ListNotations.

Set Warnings "-register-all,-inexact-float".

(** ** Exceptions and results *)

Inductive exn : Type :=
| IndexError
| KeyError
| ValueError
| TypeError
| AttributeError
| ZeroDivisionError
| OverflowError
| OSError
| Id_Not_Found.

Inductive result (A : Type) : Type :=
| Ok (a : A)
| Raise (e : exn).

Arguments Ok {A} a.
Arguments Raise {A} e.

Definition bind {A B : Type} (m : result A) (k : A -> result B) : result B :=
  match m with
  | Ok a => k a
  | Raise e => Raise e
  end.

Notation "x <- m ;; k" := (bind m (fun x => k))
  (at level 61, m at next level, right associativity).

(** ** Python builtins on integers and strings *)

Module Py.

Local Open Scope string_scope.

(** [str(n)] for an [int]: decimal digits, a leading [-] when negative. *)
Definition str (n : Z) : string := NilZero.string_of_int (Z.to_int n).

(** [int(s)] for a string of decimal digits with an optional [-]; any
    other string raises [ValueError]. *)
Definition int (s : string) : result Z :=
  match NilZero.int_of_string s with
  | Some d => Ok (Z.of_int d)
  | None => Raise ValueError
  end.

(** [len(s)] *)
Definition len (s : string) : Z := Z.of_nat (String.length s).

(** The values that meet in the comparison of [convert_wgs_to_utm]. *)
Inductive value : Type :=
| VInt (n : Z)
| VStr (s : string).

(** [a == b]: values of different types are never equal. *)
Definition eq (a b : value) : bool :=
  match a, b with
  | VInt m, VInt n => Z.eqb m n
  | VStr s, VStr t => String.eqb s t
  | _, _ => false
  end.

(** The character of one decimal digit. *)
Definition digit (z : Z) : ascii := ascii_of_nat (48 + Z.to_nat z).

(** [math.floor(x)] for a float: a NaN raises [ValueError], an infinity
    [OverflowError]; a finite float, of value (-1)^s * m * 2^e, gives the
    integer floor of that value. *)
Definition floor (x : float) : result Z :=
  if is_nan x then Raise ValueError
  else if is_infinity x then Raise OverflowError
  else
    Ok (match Prim2SF x with
        | S754_finite s m e =>
            let sm := if s then Z.neg m else Z.pos m in
            if (0 <=? e)%Z then (sm * 2 ^ e)%Z else (sm / 2 ^ (- e))%Z
        | _ => 0%Z
        end).

(** [int(x)] for the quotient of two [int]s, kept exact: truncation
    toward zero. *)
Definition trunc (x : Q) : Z :=
  if Qle_bool 0 x then Qfloor x else Qceiling x.

End Py.

(** ** Geometry-to-UTM resolver *)

Module Utm.

Local Open Scope string_scope.

Definition point : Type := (float * float)%type.

(** [get_center_rectangle]: midpoint of the first and third vertices. *)
Definition get_center_rectangle (coords : list point) : result point :=
  match nth_error coords 0, nth_error coords 2 with
  | Some (x1, y1), Some (x2, y2) =>
      Ok (((x1 + x2) / 2)%float, ((y1 + y2) / 2)%float)
  | _, _ => Raise IndexError
  end.

(** The zone number computed on the first line of [convert_wgs_to_utm]. *)
Definition utm_zone (lon : float) : result Z :=
  z <- Py.floor ((lon + 180) / 6)%float ;;
  Ok (z mod 60 + 1)%Z.

(** The test [len(utm_band) == "1"] guarding the padding. *)
Definition pad_test (utm_band : string) : bool :=
  Py.eq (Py.VInt (Py.len utm_band)) (Py.VStr "1").

Definition convert_wgs_to_utm (lon lat : float) : result string :=
  zone <- utm_zone lon ;;
  let utm_band := Py.str zone in
  let utm_band := if pad_test utm_band then "0" ++ utm_band else utm_band in
  if (0 <=? lat)%float then Ok ("326" ++ utm_band)
  else Ok ("327" ++ utm_band).

(** A shapely polygon, as far as the resolver reads it. *)
Record polygon : Type := { exterior_coords : list point }.

Definition get_epsg_from_geometry (geometry : polygon) : result Z :=
  let rect_coords := exterior_coords geometry in
  c <- get_center_rectangle rect_coords ;;
  utm_code <- convert_wgs_to_utm (fst c) (snd c) ;;
  Py.int utm_code.

(** The codes the specification expects. *)
Definition valid_utm_epsg (n : Z) : Prop :=
  (32601 <= n <= 32660 \/ 32701 <= n <= 32760)%Z.

(** A rectangle around longitude -177 (zone 1), latitude 11. *)
Definition zone1_rectangle : polygon :=
  {| exterior_coords :=
       [ (-178, 10); (-176, 10); (-176, 12); (-178, 12); (-178, 10) ]%float |}.

(** Rectangles centred on San Francisco (-122.4, 37.8) and on Paris
    (2.35, 48.85), the two examples of the specification. *)
Definition san_francisco : polygon :=
  {| exterior_coords :=
       [ (-122.5, 37.7); (-122.3, 37.7); (-122.3, 37.9); (-122.5, 37.9);
         (-122.5, 37.7) ]%float |}.

Definition paris : polygon :=
  {| exterior_coords :=
       [ (2.25, 48.75); (2.45, 48.75); (2.45, 48.95); (2.25, 48.95);
         (2.25, 48.75) ]%float |}.

(** A ring whose first and third longitudes add up beyond the greatest
    float, and one with a longitude that is not a number. *)
Definition far_ring : polygon :=
  {| exterior_coords :=
       [ (1e308, 0); (1e308, 1); (1e308, 1); (1e308, 0) ]%float |}.

Definition nan_ring : polygon :=
  {| exterior_coords := [ (nan, 0); (0, 1); (1, 1); (1, 0) ]%float |}.

End Utm.

(** ** Matrix rescaler *)

Module Resize.

(** [seq[i]], with Python's negative indices. *)
Definition getitem {B : Type} (l : list B) (i : Z) : result B :=
  let n := Z.of_nat (length l) in
  let j := if (i <? 0)%Z then (i + n)%Z else i in
  if ((0 <=? j) && (j <? n))%Z then
    match nth_error l (Z.to_nat j) with
    | Some x => Ok x
    | None => Raise IndexError
    end
  else Raise IndexError.

(** [a / b] on two [int]s: true division, the quotient kept exact. *)
Definition truediv (a b : Z) : result Q :=
  if (b =? 0)%Z then Raise ZeroDivisionError
  else Ok (inject_Z a / inject_Z b)%Q.

(** [[f(x) for x in l]] with a body that may raise. *)
Fixpoint comprehension {B C : Type} (f : B -> result C) (l : list B)
  : result (list C) :=
  match l with
  | [] => Ok []
  | x :: t => y <- f x ;; ys <- comprehension f t ;; Ok (y :: ys)
  end.

(** [range(n)] *)
Definition range (n : nat) : list nat := seq 0 n.

(** [np.array(tmp).reshape((rows, cols))] on the cells of [tmp] in
    row-major order: the sizes must agree. *)
Definition reshape {B : Type} (rows cols : nat) (flat : list B)
  : result (list (list B)) :=
  if (length flat =? rows * cols)%nat then
    Ok (map (fun r => firstn cols (skipn (r * cols) flat)) (range rows))
  else Raise ValueError.

Section Scale.

Variable A : Type.

(** A matrix is the sequence of its rows. *)
Definition matrix : Type := list (list A).

Definition scale (m : matrix) (rows cols : nat) : result matrix :=
  let src_rows := Z.of_nat (length m) in
  row0 <- getitem m 0 ;;
  let src_cols := Z.of_nat (length row0) in
  tmp <- comprehension
           (fun r =>
              comprehension
                (fun c =>
                   i <- truediv (src_rows * Z.of_nat r) (Z.of_nat rows) ;;
                   row <- getitem m (Py.trunc i) ;;
                   j <- truediv (src_cols * Z.of_nat c) (Z.of_nat cols) ;;
                   getitem row (Py.trunc j))
                (range cols))
           (range rows) ;;
  reshape rows cols (concat tmp).

(** The cell of a matrix at row [r] and column [c]. *)
Definition cell (m : matrix) (r c : nat) : option A :=
  match nth_error m r with
  | Some row => nth_error row c
  | None => None
  end.

(** [R] rows of [C] cells each. *)
Definition rectangular (m : matrix) (R C : nat) : Prop :=
  length m = R /\ Forall (fun row => length row = C) m.

End Scale.

Arguments scale {A} m rows cols.
Arguments cell {A} m r c.
Arguments rectangular {A} m R C.

End Resize.

Module Rescale.

(** An array: its shape and its cells in row-major order. *)
Record ndarray (T : Type) : Type := { shape : list nat; data : list T }.

Arguments shape {T} n.
Arguments data {T} n.

(** The dtype of an integer array: signed or not, and its width in bits
    (8, 16, 32 or 64). *)
Record int_dtype : Type := { signed : bool; bits : Z }.

Definition uint8 : int_dtype := {| signed := false; bits := 8 |}.
Definition int64 : int_dtype := {| signed := true; bits := 64 |}.

(** The least and the greatest value of a dtype. *)
Definition lowest (t : int_dtype) : Z :=
  if signed t then (- 2 ^ (bits t - 1))%Z else 0%Z.

Definition highest (t : int_dtype) : Z :=
  if signed t then (2 ^ (bits t - 1) - 1)%Z else (2 ^ bits t - 1)%Z.

Definition fits (t : int_dtype) (z : Z) : bool :=
  ((lowest t <=? z) && (z <=? highest t))%Z.

(** What an operation of the dtype stores when its exact result is [z]:
    the value of the dtype that is congruent to [z] modulo 2^bits. *)
Definition wrap (t : int_dtype) (z : Z) : Z :=
  ((z - lowest t) mod 2 ^ bits t + lowest t)%Z.

(** The arrays of the model: of an integer dtype, or of dtype float64
    (arrays of another dtype, such as float32 or bool, are left out). *)
Inductive array : Type :=
| IntArray (t : int_dtype) (a : ndarray Z)
| FloatArray (a : ndarray float).

(** The Python numbers given as [mn] and [mx]. *)
Inductive number : Type :=
| PyInt (z : Z)
| PyFloat (f : float).

(** The conversion of an integer to float64: the nearest float, the even
    one of two that are equally near. *)
Definition to_float (z : Z) : float :=
  SF2Prim (binary_normalize prec emax z 0 false).

Definition as_float (n : number) : float :=
  match n with
  | PyInt z => to_float z
  | PyFloat f => f
  end.

(** [a - b] on two Python numbers. *)
Definition py_sub (a b : number) : number :=
  match a, b with
  | PyInt x, PyInt y => PyInt (x - y)
  | _, _ => PyFloat (as_float a - as_float b)
  end.

Section Extremes.

Variable T : Type.
Variable lt : T -> T -> bool.

(** The builtins [min] and [max] over a sequence: the current item is
    replaced by one that is less (greater) than it, so the first extremal
    item is kept; an empty sequence raises. *)
Fixpoint min_from (cur : T) (l : list T) : T :=
  match l with
  | [] => cur
  | x :: t => min_from (if lt x cur then x else cur) t
  end.

Definition min (l : list T) : result T :=
  match l with
  | [] => Raise ValueError
  | x :: t => Ok (min_from x t)
  end.

Fixpoint max_from (cur : T) (l : list T) : T :=
  match l with
  | [] => cur
  | x :: t => max_from (if lt cur x then x else cur) t
  end.

Definition max (l : list T) : result T :=
  match l with
  | [] => Raise ValueError
  | x :: t => Ok (max_from x t)
  end.

End Extremes.

Arguments min {T} lt l.
Arguments max {T} lt l.
Arguments min_from {T} lt cur l.
Arguments max_from {T} lt cur l.

(** [dat.flatten()] *)
Definition flatten {T : Type} (dat : ndarray T) : list T := data dat.

(** [rescale_array].  [m] and [M] are scalars of the dtype of [dat].  On
    an integer array [dat - m] and [M - m] are taken in that dtype, and so
    is the product with [mx - mn] when this is an [int]; with a [float]
    the product is taken in float64.  The division gives float64 on every
    dtype, converting what is still an integer. *)
Definition rescale_array (dat : array) (mn mx : number)
  : result (ndarray float) :=
  match dat with
  | IntArray t a =>
      m <- min Z.ltb (flatten a) ;;
      M <- max Z.ltb (flatten a) ;;
      let shifted := map (fun v => wrap t (v - m)) (data a) in
      let scaled :=
        match py_sub mx mn with
        | PyInt d => map (fun v => to_float (wrap t (d * v))) shifted
        | PyFloat d => map (fun v => (d * to_float v)%float) shifted
        end in
      let range := to_float (wrap t (M - m)) in
      Ok {| shape := shape a;
            data := map (fun x => (x / range + as_float mn)%float) scaled |}
  | FloatArray a =>
      m <- min PrimFloat.ltb (flatten a) ;;
      M <- max PrimFloat.ltb (flatten a) ;;
      let d := as_float (py_sub mx mn) in
      Ok {| shape := shape a;
            data := map (fun v => (d * (v - m) / (M - m) + as_float mn)%float)
                        (data a) |}
  end.

(** The inputs on which the definition above follows numpy: an [int]
    among [mn], [mx] and [mx - mn] is below 2^63 in absolute value; the
    cells of an integer array are values of its dtype, whose width is 8,
    16, 32 or 64; and an [int] that multiplies an integer array is itself
    a value of the dtype of the array (for another one numpy widens the
    dtype of the product or refuses it, depending on its version). *)
Definition small (n : number) : bool :=
  match n with
  | PyInt z => (Z.abs z <? 2 ^ 63)%Z
  | PyFloat _ => true
  end.

Definition supported (dat : array) (mn mx : number) : bool :=
  small mn && small mx && small (py_sub mx mn) &&
  match dat with
  | IntArray t a =>
      ((bits t =? 8) || (bits t =? 16) || (bits t =? 32) || (bits t =? 64))%Z
      && forallb (fits t) (data a)
      && match py_sub mx mn with
         | PyInt d => fits t d
         | PyFloat _ => true
         end
  | FloatArray _ => true
  end.

(** A float that is a zero, or not a number. *)
Definition zero_or_nan (x : float) : Prop :=
  Prim2SF x = S754_nan \/ exists s, Prim2SF x = S754_zero s.

(** The cells of an array are all equal, as [==] has it. *)
Definition all_equal (dat : array) : Prop :=
  match dat with
  | IntArray _ a => forall x y, In x (data a) -> In y (data a) -> x = y
  | FloatArray a =>
      forall x y, In x (data a) -> In y (data a) -> (x =? y)%float = true
  end.

Definition cells (dat : array) : nat :=
  match dat with
  | IntArray _ a => length (data a)
  | FloatArray a => length (data a)
  end.

Definition shape_of (dat : array) : list nat :=
  match dat with
  | IntArray _ a => shape a
  | FloatArray a => shape a
  end.

(** The array of the specification's example, as [np.array([1, 2, 3])]
    makes it, and an image row of dtype uint8. *)
Definition one_two_three : array :=
  IntArray int64 {| shape := [3%nat]; data := [1; 2; 3]%Z |}.

Definition uint8_row : array :=
  IntArray uint8 {| shape := [3%nat]; data := [0; 128; 255]%Z |}.

End Rescale.

(** ** ROI filter *)

Module Roi.

(** A cell of a table: an integer, a string, or a geometry (kept as the
    text that [astype(str)] gives for it). *)
Inductive cell : Type :=
| CInt (n : Z)
| CStr (s : string)
| CGeom (wkt : string).

(** [str(c)] *)
Definition cell_str (c : cell) : string :=
  match c with
  | CInt n => Py.str n
  | CStr s => s
  | CGeom wkt => wkt
  end.

(** A geometry collection: named columns and rows of cells. *)
Record GeoDataFrame : Type :=
  { columns : list string; rows : list (list cell) }.

(** [gdf.empty]: one of the two axes has length 0. *)
Definition empty (gdf : GeoDataFrame) : bool :=
  ((length (columns gdf) =? 0) || (length (rows gdf) =? 0))%nat.

Fixpoint index_of (name : string) (cols : list string) : option nat :=
  match cols with
  | [] => None
  | c :: t => if String.eqb c name then Some 0%nat
              else option_map S (index_of name t)
  end.

(** [gdf[name]]: the cells of one column, [KeyError] without the column. *)
Definition column (gdf : GeoDataFrame) (name : string) : result (list cell) :=
  match index_of name (columns gdf) with
  | None => Raise KeyError
  | Some i =>
      Resize.comprehension
        (fun row => match nth_error row i with
                    | Some c => Ok c
                    | None => Raise IndexError
                    end)
        (rows gdf)
  end.

(** [gdf[mask]]: the rows whose entry of the mask is true. *)
Fixpoint select_rows (rs : list (list cell)) (mask : list bool)
  : list (list cell) :=
  match rs, mask with
  | r :: rs', b :: mask' =>
      if b then r :: select_rows rs' mask' else select_rows rs' mask'
  | _, _ => []
  end.

Definition select (gdf : GeoDataFrame) (mask : list bool) : GeoDataFrame :=
  {| columns := columns gdf; rows := select_rows (rows gdf) mask |}.

(** [extract_roi_by_id]; [roi_id] is [None] or an id.  The two calls of
    the logger leave no trace in the result. *)
Definition extract_roi_by_id (gdf : GeoDataFrame) (roi_id : option cell)
  : result GeoDataFrame :=
  single_roi <-
    match roi_id with
    | None => Ok gdf
    | Some id =>
        ids <- column gdf "id" ;;
        Ok (select gdf
              (map (fun c => String.eqb (cell_str c) (cell_str id)) ids))
    end ;;
  if empty single_roi then Raise Id_Not_Found else Ok single_roi.

(** The three-row collection of the specification and a collection with
    no row. *)
Definition three_rois : GeoDataFrame :=
  {| columns := ["id"; "geometry"]%string;
     rows := [ [CStr "1"; CGeom "POLYGON ((0 0, 0 1, 1 1, 1 0, 0 0))"];
               [CStr "2"; CGeom "POLYGON ((1 0, 1 1, 2 1, 2 0, 1 0))"];
               [CStr "3"; CGeom "POLYGON ((2 0, 2 1, 3 1, 3 0, 2 0))"] ]%string |}.

Definition no_rois : GeoDataFrame :=
  {| columns := ["id"; "geometry"]%string; rows := [] |}.

End Roi.

(** ** ROI/config assembler and config persistence *)

Module Config.

Local Open Scope string_scope.

Definition addr : Type := nat.

(** Python values of a JSON-style configuration.  Dicts and tables are
    objects of the store, a value refers to them by address. *)
Inductive value : Type :=
| VNone
| VBool (b : bool)
| VInt (n : Z)
| VFloat (f : float)
| VStr (s : string)
| VList (items : list value)
| VRef (a : addr).

(** A [dict]: its items in insertion order. *)
Definition dict : Type := list (string * value).

Inductive object : Type :=
| ODict (d : dict)
| OGeoDataFrame (g : Roi.GeoDataFrame).

Definition store : Type := list object.

(** [d.keys()] *)
Definition keys (d : dict) : list string := map fst d.

(** [d.get(k)] *)
Fixpoint dict_get (k : string) (d : dict) : option value :=
  match d with
  | [] => None
  | (k', v) :: t => if String.eqb k' k then Some v else dict_get k t
  end.

(** [d[k] = v]: a key already present keeps its place, a new key goes to
    the end. *)
Fixpoint dict_set (k : string) (v : value) (d : dict) : dict :=
  match d with
  | [] => [(k, v)]
  | (k', v') :: t =>
      if String.eqb k' k then (k', v) :: t else (k', v') :: dict_set k v t
  end.

(** [{**d}]: a new dict filled with the items of [d] in order. *)
Definition unpack (d : dict) : dict :=
  fold_left (fun acc kv => dict_set (fst kv) (snd kv) acc) d [].

(** A new object at the first free address. *)
Definition alloc (st : store) (o : object) : store * addr :=
  ((st ++ [o])%list, length st).

Fixpoint replace_at (a : addr) (o : object) (st : store) : store :=
  match st, a with
  | [], _ => []
  | _ :: t, O => o :: t
  | x :: t, S a' => x :: replace_at a' o t
  end.

(** [obj.keys()] on a value: only a dict has the method. *)
Definition load_dict (st : store) (v : value) : result dict :=
  match v with
  | VRef a => match nth_error st a with
              | Some (ODict d) => Ok d
              | _ => Raise AttributeError
              end
  | _ => Raise AttributeError
  end.

(** [obj[k] = v] on the dict at address [a], in place. *)
Definition setitem (st : store) (a : addr) (k : string) (v : value)
  : result store :=
  match nth_error st a with
  | Some (ODict d) => Ok (replace_at a (ODict (dict_set k v d)) st)
  | _ => Raise TypeError
  end.

Definition create_json_config (st : store) (inputs settings : value)
  : result (store * value) :=
  d <- load_dict st inputs ;;
  let roi_ids := VList (map VStr (keys d)) in
  let (st1, config) := alloc st (ODict (unpack d)) in
  st2 <- setitem st1 config "roi_ids" roi_ids ;;
  st3 <- setitem st2 config "settings" settings ;;
  Ok (st3, VRef config).

(** Every item of [d] is an item of [cfg]. *)
Definition contains_items (d cfg : dict) : Prop :=
  forall k v, dict_get k d = Some v -> dict_get k cfg = Some v.

(** [isinstance(v, dict)] and [isinstance(v, gpd.GeoDataFrame)] *)
Definition isinstance_dict (st : store) (v : value) : bool :=
  match v with
  | VRef a => match nth_error st a with
              | Some (ODict _) => true
              | _ => false
              end
  | _ => false
  end.

Definition isinstance_gdf (st : store) (v : value) : bool :=
  match v with
  | VRef a => match nth_error st a with
              | Some (OGeoDataFrame _) => true
              | _ => false
              end
  | _ => false
  end.

(** What [config_to_file] may touch: the objects, the files by path and
    the messages given to the logger. *)
Record world : Type :=
  { objects : store;
    files : list (string * string);
    logged : list string }.

Definition write_file (w : world) (path text : string) : world :=
  {| objects := objects w;
     files := (path, text) :: files w;
     logged := logged w |}.

Definition log_info (w : world) (msg : string) : world :=
  {| objects := objects w; files := files w; logged := (logged w ++ [msg])%list |}.

Section Persistence.

(** The collaborators of the writer: whether [open(path, "w")] succeeds
    on the files as they are (it raises an [OSError] when the directory is
    missing or closed to writing), the text that [json.dump] writes,
    [str] of a GeoDataFrame, what
    [GeoDataFrame.to_file(path, driver="GeoJSON")] does to the files, and
    [os.path.abspath(os.path.join(_, _))]. *)
Variable can_open : list (string * string) -> string -> bool.
Variable json_dumps : store -> dict -> result string.
Variable gdf_str : Roi.GeoDataFrame -> string.
Variable to_file : Roi.GeoDataFrame -> string -> list (string * string)
                   -> result (list (string * string)).
Variable abspath_join : string -> string -> string.

(** The end of line in the two messages. *)
Definition nl : string := String "010"%char EmptyString.

Definition write_to_json (w : world) (filepath : string) (settings : dict)
  : result world :=
  if can_open (files w) filepath then
    text <- json_dumps (objects w) settings ;;
    Ok (write_file w filepath text)
  else Raise OSError.

Definition config_to_file (w : world) (config : value) (file_path : string)
  : result world :=
  if isinstance_dict (objects w) config then
    d <- load_dict (objects w) config ;;
    let filename := "config.json" in
    let save_path := abspath_join file_path filename in
    w1 <- write_to_json w save_path d ;;
    Ok (log_info w1 ("Saved config json: " ++ filename ++ " " ++ nl
                       ++ "Saved to " ++ save_path))
  else if isinstance_gdf (objects w) config then
    match config with
    | VRef a =>
        match nth_error (objects w) a with
        | Some (OGeoDataFrame g) =>
            let filename := "config_gdf.geojson" in
            let save_path := abspath_join file_path filename in
            let w1 := log_info w ("Saving config gdf:" ++ gdf_str g ++ " " ++ nl
                                    ++ "Saved to " ++ save_path) in
            files' <- to_file g save_path (files w1) ;;
            Ok {| objects := objects w1; files := files';
                  logged := logged w1 |}
        | _ => Raise TypeError
        end
    | _ => Raise TypeError
    end
  else Ok w.

End Persistence.

(** The inputs of the docstring, with the per-ROI records left empty. *)
Definition sample_store : store :=
  [ ODict [("17", VRef 2%nat); ("20", VRef 3%nat)];
    ODict [("cloud_thresh", VFloat 0.5)];
    ODict [];
    ODict [] ].

(** Inputs with an item under the key "settings". *)
Definition clash_store : store :=
  [ ODict [("settings", VInt 1)]; ODict [("cloud_thresh", VFloat 0.5)] ].

End Config.

(** ** Directory clean-up

    [get_subdirs] and [delete_empty_dirs] are calls of [os.walk],
    [os.listdir] and [os.removedirs].  These are modelled after the Python
    documentation on a tree of plain files and directories (no links, no
    permissions), with paths as lists of components counted from the top
    of the tree; the top stands for the directory at which a path starts
    and is never removed. *)

Module Fs.

(** A path is the list of its components, from the top of the tree. *)
Definition path : Type := list string.

(** A file, or a directory with its named entries in the order in which
    the system lists them. *)
Inductive node : Type :=
| File
| Dir (entries : list (string * node)).

Inductive kind : Type :=
| KFile
| KDir.

Definition kind_of_node (n : node) : kind :=
  match n with
  | File => KFile
  | Dir _ => KDir
  end.

Fixpoint find_entry (x : string) (es : list (string * node)) : option node :=
  match es with
  | [] => None
  | (y, n) :: t => if String.eqb y x then Some n else find_entry x t
  end.

(** The node at a path, if there is one. *)
Fixpoint lookup (n : node) (p : path) : option node :=
  match p with
  | [] => Some n
  | x :: p' =>
      match n with
      | File => None
      | Dir es => match find_entry x es with
                  | Some c => lookup c p'
                  | None => None
                  end
      end
  end.

(** What a path names: nothing, a file or a directory. *)
Definition kind_at (n : node) (p : path) : option kind :=
  option_map kind_of_node (lookup n p).

(** Names are unique within each directory. *)
Inductive wf : node -> Prop :=
| wf_File : wf File
| wf_Dir (es : list (string * node)) :
    NoDup (map fst es) -> Forall (fun e => wf (snd e)) es -> wf (Dir es).

(** [os.listdir(p)] *)
Definition listdir (fs : node) (p : path) : result (list string) :=
  match lookup fs p with
  | Some (Dir es) => Ok (map fst es)
  | _ => Raise OSError
  end.

Definition is_dir_entry (e : string * node) : bool :=
  match snd e with
  | Dir _ => true
  | File => false
  end.

Definition dirnames (es : list (string * node)) : list string :=
  map fst (filter is_dir_entry es).

Definition filenames (es : list (string * node)) : list string :=
  map fst (filter (fun e => negb (is_dir_entry e)) es).

(** [os.path.join(root, d)] *)
Definition join (root : path) (d : string) : path := root ++ [d].

(** [os.walk(top)], top-down: the triple of a directory comes before the
    triples of its subdirectories, taken in the order of [dirs]. *)
Fixpoint walk_node (top : path) (n : node)
  : list (path * list string * list string) :=
  match n with
  | File => []
  | Dir es =>
      (top, dirnames es, filenames es)
        :: flat_map (fun e => walk_node (join top (fst e)) (snd e)) es
  end.

Definition walk (fs : node) (top : path)
  : list (path * list string * list string) :=
  match lookup fs top with
  | Some n => walk_node top n
  | None => []
  end.

(** The two loops of [get_subdirs] over the triples of a walk. *)
Definition join_dirs (triples : list (path * list string * list string))
  : list path :=
  flat_map (fun t => match t with
                     | (root, dirs, _) => map (fun d => join root d) dirs
                     end)
           triples.

Definition get_subdirs (fs : node) (parent_dir : path) : list path :=
  join_dirs (walk fs parent_dir).

(** The entries of a directory without those named [x]. *)
Definition remove_entry (x : string) (es : list (string * node))
  : list (string * node) :=
  filter (fun e => negb (String.eqb (fst e) x)) es.

Definition map_entry (x : string) (f : node -> node)
           (es : list (string * node)) : list (string * node) :=
  map (fun e => if String.eqb (fst e) x then (fst e, f (snd e)) else e) es.

(** The tree without what is at [p]. *)
Fixpoint remove_at (n : node) (p : path) : node :=
  match p, n with
  | [], _ => n
  | _, File => n
  | [x], Dir es => Dir (remove_entry x es)
  | x :: p', Dir es => Dir (map_entry x (fun c => remove_at c p') es)
  end.

(** The file system and the directories removed so far, oldest first. *)
Record state : Type := { tree : node; removed : list path }.

(** [os.rmdir(p)]: [p] must name an empty directory below the top. *)
Definition rmdir (st : state) (p : path) : result state :=
  match p, lookup (tree st) p with
  | _ :: _, Some (Dir []) =>
      Ok {| tree := remove_at (tree st) p; removed := removed st ++ [p] |}
  | _, _ => Raise OSError
  end.

(** The heads that [os.removedirs(name)] goes through after the leaf:
    [name] without its last component, then without its last two, ... *)
Definition parents (name : path) : list path :=
  map (fun k => firstn k name) (rev (seq 1 (length name - 1))).

(** The loop of [os.removedirs]: remove each head, stop at the first one
    that cannot be removed. *)
Fixpoint prune (st : state) (heads : list path) : state :=
  match heads with
  | [] => st
  | head :: rest =>
      match rmdir st head with
      | Ok st' => prune st' rest
      | Raise _ => st
      end
  end.

(** [os.removedirs(name)] *)
Definition removedirs (st : state) (name : path) : result state :=
  st' <- rmdir st name ;;
  Ok (prune st' (parents name)).

(** [[subdir for subdir in subdirs if len(os.listdir(subdir)) == 0]] *)
Fixpoint empty_among (fs : node) (subdirs : list path) : result (list path) :=
  match subdirs with
  | [] => Ok []
  | subdir :: rest =>
      names <- listdir fs subdir ;;
      keep <- empty_among fs rest ;;
      Ok (if (length names =? 0)%nat then subdir :: keep else keep)
  end.

Fixpoint remove_all (st : state) (remove_dirs : list path) : result state :=
  match remove_dirs with
  | [] => Ok st
  | remove_dir :: rest =>
      st' <- removedirs st remove_dir ;;
      remove_all st' rest
  end.

Definition delete_empty_dirs (st : state) (dir_path : path) : result state :=
  let subdirs := get_subdirs (tree st) dir_path in
  remove_dirs <- empty_among (tree st) subdirs ;;
  remove_all st remove_dirs.

(** [p] names a directory without entries. *)
Definition is_empty_dir (fs : node) (p : path) : bool :=
  match lookup fs p with
  | Some (Dir []) => true
  | _ => false
  end.

(** [p] is [q] or an ancestor of [q]. *)
Fixpoint is_prefix (p q : path) : bool :=
  match p, q with
  | [], _ => true
  | x :: p', y :: q' => String.eqb x y && is_prefix p' q'
  | _ :: _, [] => false
  end.

(** [p] lies strictly below [root]. *)
Definition below (root p : path) : Prop :=
  exists q, q <> [] /\ p = root ++ q.

(** A directory that holds no file at any depth. *)
Definition transitively_empty (fs : node) (p : path) : Prop :=
  kind_at fs p = Some KDir /\ forall q, kind_at fs (p ++ q) <> Some KFile.

(** [p] is a directory below the top that holds no file at any depth and
    whose empty directories are all in [S]. *)
Definition cleared (fs : node) (S : path -> Prop) (p : path) : Prop :=
  p <> [] /\ transitively_empty fs p /\
  forall q, is_empty_dir fs (p ++ q) = true -> S (p ++ q).

(** Files stay and nothing appears. *)
Definition frame (t0 t : node) : Prop :=
  (forall p, kind_at t0 p = Some KFile -> kind_at t p = Some KFile) /\
  (forall p, kind_at t0 p = None -> kind_at t p = None).

(** A directory of [t0] is still in [t] unless it is cleared. *)
Definition settled (t0 : node) (S : path -> Prop) (t : node) (p : path)
  : Prop :=
  (kind_at t p = Some KDir /\ ~ cleared t0 S p) \/
  (kind_at t p = None /\ cleared t0 S p).

(** The tree [t] once [removedirs] has been run on the empty directories
    of [t0] that are in [S]. *)
Definition pruned (t0 : node) (S : path -> Prop) (t : node) : Prop :=
  frame t0 t /\
  forall p, kind_at t0 p = Some KDir -> settled t0 S t p.

(** The tree [t] within a run of [removedirs], when [c] has just been
    removed and its ancestors are still to be tried. *)
Definition climbing (t0 : node) (S : path -> Prop) (c : path) (t : node)
  : Prop :=
  frame t0 t /\
  (forall p, kind_at t0 p = Some KDir -> below p c \/ settled t0 S t p) /\
  (forall p, below p c -> kind_at t p = Some KDir) /\
  kind_at t c = None /\ cleared t0 S c.

(** The log of removals agrees with the tree. *)
Definition logged (t0 : node) (st : state) : Prop :=
  (forall p, kind_at (tree st) p <> None ->
             kind_at (tree st) p = kind_at t0 p) /\
  (forall p, In p (removed st) <->
             kind_at t0 p = Some KDir /\ kind_at (tree st) p = None) /\
  NoDup (removed st).

(** Nothing in [l] comes before something strictly beneath it. *)
Definition bottom_up (l : list path) : Prop :=
  forall l1 p l2, l = l1 ++ p :: l2 -> forall e, In e l1 -> ~ below e p.

Definition start (fs : node) : state := {| tree := fs; removed := [] |}.

(** From [a] down along [r], each directory has one entry only, the next
    component of [r]. *)
Fixpoint single_chain (fs : node) (a r : path) : Prop :=
  match r with
  | [] => True
  | x :: r' =>
      (exists c, lookup fs a = Some (Dir [(x, c)])) /\
      single_chain fs (a ++ [x]) r'
  end.



(** work/root with the two empty directories x and y, and nothing else
    in work. *)
Definition root_of_empty_dirs : node :=
  Dir [("work", Dir [("root", Dir [("x", Dir []); ("y", Dir [])])]);
       ("keep.txt", File)]%string.

(** root/x empty and root/y/z empty. *)
Definition two_branches : node :=
  Dir [("root", Dir [("x", Dir []); ("y", Dir [("z", Dir [])]);
                     ("data.csv", File)])]%string.

End Fs.

(** ** Further helpers of [common.py] *)

Module Arrays.

(** [is_list_empty]: the flag starts true and is cleared by every array
    of non-zero length; an array is the sequence of its items. *)
Definition is_list_empty {A : Type} (main_list : list (list A)) : bool :=
  fold_left (fun all_empty np_array =>
               if negb (length np_array =? 0)%nat then false else all_empty)
            main_list true.

End Arrays.

Module Gdf.

Import Roi.

(** A row with the cell at position [i] replaced. *)
Fixpoint set_nth (i : nat) (v : cell) (row : list cell) : list cell :=
  match row, i with
  | [], _ => []
  | _ :: t, O => v :: t
  | c :: t, S i' => c :: set_nth i' v t
  end.

(** [gdf[name] = v] with a scalar [v]: the column is overwritten where it
    is, or added as the last column, with [v] in every row. *)
Definition set_column (name : string) (v : cell) (gdf : GeoDataFrame)
  : GeoDataFrame :=
  match index_of name (columns gdf) with
  | Some i => {| columns := columns gdf;
                 rows := map (set_nth i v) (rows gdf) |}
  | None => {| columns := columns gdf ++ [name];
               rows := map (fun row => row ++ [v]) (rows gdf) |}
  end.

(** [create_config_gdf]: the assignment changes the argument in place;
    the first component is the argument after the call, the second the
    new frame that is returned. *)
Definition create_config_gdf (rois : GeoDataFrame)
  : GeoDataFrame * GeoDataFrame :=
  let rois := set_column "type" (CStr "roi") rois in
  let new_gdf := {| columns := columns rois; rows := rows rois |} in
  (rois, new_gdf).

(** The test of [extract_roi_by_id] on a row whose id is the cell at
    position [i]: [str(cell) == str(roi_id)]. *)
Definition id_matches (i : nat) (id : cell) (row : list cell) : bool :=
  String.eqb (cell_str (nth i row (CStr ""))) (cell_str id).

(** Every row has one cell per column. *)
Definition well_shaped (gdf : GeoDataFrame) : Prop :=
  Forall (fun row => length row = length (columns gdf)) (rows gdf).

End Gdf.

(** ** Per-ROI settings *)

Module Settings.

Import Config.

(** The objects that [create_roi_settings] reads and builds are dicts;
    the heap holds nothing else. *)
Definition heap : Type := list dict.

(** The heap as a store of [Config]. *)
Definition to_store (h : heap) : store := map ODict h.

(** [v[k]] with a string key: [KeyError] on a dict without the key,
    [TypeError] on a value that is not a dict. *)
Definition subscript (h : heap) (v : value) (k : string) : result value :=
  match v with
  | VRef a =>
      match nth_error h a with
      | Some d => match dict_get k d with
                  | Some x => Ok x
                  | None => Raise KeyError
                  end
      | None => Raise TypeError
      end
  | _ => Raise TypeError
  end.

(** The items that [for x in v] goes through: those of a list, the
    characters of a string, the keys of a dict. *)
Definition iterate (h : heap) (v : value) : result (list value) :=
  match v with
  | VList items => Ok items
  | VStr s => Ok (map (fun c => VStr (String c EmptyString))
                      (list_ascii_of_string s))
  | VRef a => match nth_error h a with
              | Some d => Ok (map VStr (keys d))
              | None => Raise TypeError
              end
  | _ => Raise TypeError
  end.

(** [d[k] = v] on the dict at [a]. *)
Definition store_item (h : heap) (a : addr) (k : string) (v : value)
  : result heap :=
  match nth_error h a with
  | Some d =>
      Ok (firstn a h ++ dict_set k v d :: skipn (S a) h)
  | None => Raise TypeError
  end.

(** The dict literal [roi_info] of [create_roi_settings]. *)
Definition roi_record (dates sitename filepath : value) (roi_id : string)
  : dict :=
  [("dates", dates); ("roi_id", VStr roi_id);
   ("sitename", sitename); ("filepath", filepath)]%string.

Section Str.

(** [str] of a float, a list or a dict is left to the builtin. *)
Variable repr : heap -> value -> string.

(** [str(v)] *)
Definition py_str (h : heap) (v : value) : string :=
  match v with
  | VNone => "None"%string
  | VBool true => "True"%string
  | VBool false => "False"%string
  | VInt n => Py.str n
  | VStr s => s
  | other => repr h other
  end.

(** The body of the loop of [create_roi_settings], for each feature. *)
Fixpoint each_roi (h : heap) (roi_settings : addr)
         (dates sitename filepath : value) (features : list value)
  : result heap :=
  match features with
  | [] => Ok h
  | roi :: rest =>
      properties <- subscript h roi "properties" ;;
      id <- subscript h properties "id" ;;
      let roi_id := py_str h id in
      let roi_info := length h in
      let h1 := h ++ [roi_record dates sitename filepath roi_id] in
      h2 <- store_item h1 roi_settings roi_id (VRef roi_info) ;;
      each_roi h2 roi_settings dates sitename filepath rest
  end.

Definition create_roi_settings (h : heap)
           (settings selected_rois filepath : value)
  : result (heap * value) :=
  let roi_settings := length h in
  let h0 := h ++ [ [] ] in
  sitename <- subscript h0 settings "sitename" ;;
  dates <- subscript h0 settings "dates" ;;
  features <- subscript h0 selected_rois "features" ;;
  items <- iterate h0 features ;;
  h' <- each_roi h0 roi_settings dates sitename filepath items ;;
  Ok (h', VRef roi_settings).

End Str.

(** An id whose [str] the model computes: [None], a bool, an int or a
    string. *)
Definition plain (v : value) : Prop :=
  match v with
  | VNone | VBool _ | VInt _ | VStr _ => True
  | _ => False
  end.

(** [roi] is a feature of the heap whose properties hold the id [id]. *)
Definition feature_id (h : heap) (roi id : value) : Prop :=
  exists properties, subscript h roi "properties" = Ok properties /\
                     subscript h properties "id" = Ok id.

(** What the loop of [create_roi_settings] has built once the ids [P]
    are done: the dict [cfg] of the result, with one key per id, and the
    records [recs] behind it in the heap. *)
Definition built (h : heap) (dates sitename filepath : value)
           (cfg : dict) (recs : heap) (P : list string) : Prop :=
  (forall k, In k (keys cfg) <-> In k P) /\
  NoDup (keys cfg) /\
  (NoDup P -> keys cfg = P) /\
  (forall k, In k P ->
     exists j, dict_get k cfg = Some (VRef (length h + 1 + j)%nat) /\
               nth_error recs j
               = Some (roi_record dates sitename filepath k)).

(** Settings, two features with the ids 2 and 3, and the collection. *)
Definition sample_heap : heap :=
  [ [("sitename", VStr "site1"); ("dates", VList [VStr "2018-12-01";
                                                  VStr "2019-03-01"])];
    [("id", VInt 2)];
    [("properties", VRef 1%nat)];
    [("id", VInt 3)];
    [("properties", VRef 3%nat)];
    [("features", VList [VRef 2%nat; VRef 4%nat])] ]%string.

End Settings.

(** ** Creating directories and finding the config file *)

Module Dirs.

Import Fs.

(** [os.path.exists(p)] *)
Definition path_exists (fs : node) (p : path) : bool :=
  match lookup fs p with
  | Some _ => true
  | None => false
  end.

(** [os.path.split(name)]: the head and the last component. *)
Definition split (name : path) : option (path * string) :=
  match rev name with
  | [] => None
  | tail :: rhead => Some (rev rhead, tail)
  end.

(** The tree with a new empty directory [x] as last entry of the
    directory at [p]. *)
Fixpoint add_dir (n : node) (p : path) (x : string) : node :=
  match p, n with
  | [], Dir es => Dir (es ++ [(x, Dir [])])
  | y :: p', Dir es => Dir (map_entry y (fun c => add_dir c p' x) es)
  | _, File => n
  end.

(** [os.mkdir(name)]: the head must be a directory without an entry of
    that name; every failure is an [OSError]. *)
Definition mkdir (fs : node) (name : path) : result node :=
  match split name with
  | None => Raise OSError
  | Some (head, tail) =>
      match lookup fs head with
      | Some (Dir es) =>
          match find_entry tail es with
          | None => Ok (add_dir fs head tail)
          | Some _ => Raise OSError
          end
      | _ => Raise OSError
      end
  end.

(** [os.makedirs(name)] on the reversed path: the head is made first when
    it is missing, then the leaf.  The head is only made when it does not
    exist, so the [FileExistsError] that [os.makedirs] would swallow there
    cannot arise. *)
Fixpoint makedirs_rev (fs : node) (rname : list string) : result node :=
  match rname with
  | [] => mkdir fs []
  | tail :: rhead =>
      fs' <- match rhead with
             | [] => Ok fs
             | _ :: _ =>
                 if path_exists fs (rev rhead) then Ok fs
                 else makedirs_rev fs rhead
             end ;;
      mkdir fs' (rev rname)
  end.

Definition makedirs (fs : node) (name : path) : result node :=
  makedirs_rev fs (rev name).

(** [range(start, stop)] *)
Definition range (start stop : Z) : list Z :=
  map (fun i => (start + Z.of_nat i)%Z) (seq 0 (Z.to_nat (stop - start))).

Fixpoint each_year (fs : node) (years : list Z) (base_path : path)
  : result node :=
  match years with
  | [] => Ok fs
  | year :: rest =>
      let year_path := join base_path (Py.str year) in
      fs' <- (if negb (path_exists fs year_path) then makedirs fs year_path
              else Ok fs) ;;
      each_year fs' rest base_path
  end.

Definition create_year_directories (fs : node) (start_year end_year : Z)
           (base_path : path) : result node :=
  each_year fs (range start_year (end_year + 1)) base_path.

(** A name that is one component of a path: not empty, neither "."
    nor "..", and without a separator or a NUL character. *)
Definition component (name : string) : bool :=
  negb (String.eqb name "") && negb (String.eqb name ".")
  && negb (String.eqb name "..")
  && forallb (fun c => negb (Ascii.eqb c "/") && negb (Ascii.eqb c "\")
                       && negb (Ascii.eqb c "000"))
             (list_ascii_of_string name).

(** [create_subdirectory], for a [name] that is one [component]; [cwd] is
    what [os.getcwd()] returns.  For another [name] (empty, ".", "..",
    with a separator) [os.path.join] and [os.mkdir] address some other
    path than the entry [name] of the parent, which the join of this model
    does not follow: every statement about the function carries
    [component name = true]. *)
Definition create_subdirectory (cwd : path) (fs : node) (name : string)
           (parent_dir : option path) : result (node * path) :=
  let parent_dir := match parent_dir with
                    | None => cwd
                    | Some p => p
                    end in
  let new_dir := join parent_dir name in
  fs' <- (if negb (path_exists fs new_dir) then mkdir fs new_dir else Ok fs) ;;
  Ok (fs', new_dir).

(** A Python [str]: the sequence of its code points. *)
Definition text : Type := list N.

(** The text of a literal whose characters are all below 256. *)
Definition codes (s : string) : text :=
  map N_of_ascii (list_ascii_of_string s).

(** The character to which [re.IGNORECASE] folds a code point when it
    meets an ASCII character of the pattern: an upper-case ASCII letter
    goes to its lower case; the dotted capital I (U+0130) and the dotless
    i (U+0131) go to "i", the long s (U+017F) to "s" and the Kelvin sign
    (U+212A) to "k"; every other code point is its own. *)
Definition fold_case (c : N) : N :=
  (if (65 <=? c) && (c <=? 90) then c + 32
   else if (c =? 304) || (c =? 305) then 105
   else if c =? 383 then 115
   else if c =? 8490 then 107
   else c)%N.

(** The literal [pat], given in lower-case ASCII, at the start of [s]
    whatever the case: what follows it in [s]. *)
Fixpoint literal (pat s : text) : option text :=
  match pat, s with
  | [], _ => Some s
  | p :: pat', c :: s' =>
      if N.eqb (fold_case c) p then literal pat' s' else None
  | _ :: _, [] => None
  end.

Definition newline : N := 10%N.

(** [.*] followed by the literal [pat]: some characters other than a
    newline, then [pat]. *)
Fixpoint any_then (pat s : text) : bool :=
  match literal pat s with
  | Some _ => true
  | None =>
      match s with
      | [] => false
      | c :: s' => if N.eqb c newline then false else any_then pat s'
      end
  end.

(** [re.compile(r"config.*\.json", re.IGNORECASE).match(input_text) is
    not None] *)
Definition use_regex (input_text : text) : bool :=
  match literal (codes "config") input_text with
  | Some rest => any_then (codes ".json") rest
  | None => false
  end.

Section Listing.

(** The [str] under which [os.listdir] gives the name of an entry
    ([os.fsdecode]). *)
Variable fsdecode : string -> text.

(** [find_config_json]: the first listed name that matches; the
    [FileNotFoundError] of the last line is an [OSError]. *)
Definition find_config_json (fs : node) (search_path : path)
  : result string :=
  items <- listdir fs search_path ;;
  match find (fun item => use_regex (fsdecode item)) items with
  | Some item => Ok item
  | None => Raise OSError
  end.

End Listing.

(** What the pattern [config.*\.json] denotes, case ignored: the text
    starts with "config", and ".json" comes later, no newline between. *)
Definition config_name (input_text : text) : Prop :=
  exists c skipped j rest,
    input_text = (c ++ skipped ++ j ++ rest)%list /\
    map fold_case c = codes "config" /\
    map fold_case j = codes ".json" /\
    ~ In newline skipped.

(** The tree [fs'] is [fs] with new directories on the way to [name]
    and nothing else changed. *)
Definition grown (fs fs' : node) (name : path) : Prop :=
  (forall q, kind_at fs q <> None -> kind_at fs' q = kind_at fs q) /\
  (forall q, kind_at fs q = None -> kind_at fs' q <> None ->
             kind_at fs' q = Some KDir /\ is_prefix q name = true) /\
  (wf fs -> wf fs').

(** A data directory with the years 2019 and 2021 already there. *)
Definition data_dir : node :=
  Dir [("data", Dir [("2019", Dir [("img.tif", File)]); ("2021", Dir [])]);
       ("notes.txt", File)]%string.

(** A session directory with its config files. *)
Definition session_dir : node :=
  Dir [("session", Dir [("my_config.json", File);
                        ("Config_gdf.geojson", File);
                        ("CONFIG.json.bak", File);
                        ("config.json", File)])]%string.

End Dirs.

(** * Theorems *)

(** ** The UTM resolver *)

Section UtmFacts.

Import Utm.
Local Open Scope Z_scope.

(** The comparison of an [int] with a [str] is false whatever the band. *)
Lemma pad_test_false (utm_band : string) : pad_test utm_band = false.
Proof. reflexivity. Qed.

(** [math.floor] returns on the floats that are finite, and on no other. *)
Lemma floor_cases (x : float) :
  (is_nan x = true /\ Py.floor x = Raise ValueError) \/
  (is_nan x = false /\ is_infinity x = true /\
   Py.floor x = Raise OverflowError) \/
  (is_nan x = false /\ is_infinity x = false /\ exists z, Py.floor x = Ok z).
Proof.
  unfold Py.floor. destruct (is_nan x); [left; now split | right].
  destruct (is_infinity x); [left; now split | right].
  split; [reflexivity | split; [reflexivity | ]]. eexists. reflexivity.
Qed.

Lemma utm_zone_range (lon : float) (zone : Z) :
  utm_zone lon = Ok zone -> 1 <= zone <= 60.
Proof.
  unfold utm_zone.
  destruct (Py.floor ((lon + 180) / 6)%float) as [z | e]; simpl;
    [ | discriminate].
  intros [= <-]. pose proof (Z.mod_pos_bound z 60). lia.
Qed.

(** Whatever the zone, the code is the prefix followed by [str(zone)]. *)
Lemma convert_wgs_to_utm_unpadded (lon lat : float) (zone : Z) :
  utm_zone lon = Ok zone ->
  convert_wgs_to_utm lon lat
  = Ok ((if (0 <=? lat)%float then "326" else "327") ++ Py.str zone)%string.
Proof.
  intros Hz. unfold convert_wgs_to_utm. rewrite Hz. cbn [bind].
  rewrite pad_test_false.
  destruct (0 <=? lat)%float; reflexivity.
Qed.

(** Where the zone is not computed, neither is the code. *)
Lemma convert_wgs_to_utm_raises (lon lat : float) (e : exn) :
  utm_zone lon = Raise e -> convert_wgs_to_utm lon lat = Raise e.
Proof. intros Hz. unfold convert_wgs_to_utm. now rewrite Hz. Qed.

Lemma str_one_digit (z : Z) :
  1 <= z <= 9 -> Py.str z = String (Py.digit z) EmptyString.
Proof.
  intros Hz.
  assert (Hc : z = 1 \/ z = 2 \/ z = 3 \/ z = 4 \/ z = 5 \/ z = 6 \/
               z = 7 \/ z = 8 \/ z = 9) by lia.
  repeat (destruct Hc as [-> | Hc]; [reflexivity | ]).
  subst z. reflexivity.
Qed.

(** The integer read back from the code, for each zone and hemisphere:
    three digits of prefix and one or two digits of zone. *)
Lemma int_of_code (north : bool) (z : Z) :
  1 <= z <= 60 ->
  Py.int ((if north then "326" else "327") ++ Py.str z)%string
  = Ok ((if north then 326 else 327) * (if z <? 10 then 10 else 100) + z).
Proof.
  intros Hz.
  replace z with (Z.of_nat (Z.to_nat (z - 1)) + 1) by lia.
  assert (Hn : (Z.to_nat (z - 1) < 60)%nat) by lia.
  generalize dependent (Z.to_nat (z - 1)). clear z Hz. intros n Hn.
  do 60 (destruct n as [ | n]; [destruct north; reflexivity | ]).
  lia.
Qed.

(** What the resolver returns when the zone is computed: the codes of
    the zones 10 to 60 are the expected ones, those of the zones 1 to 9
    lack the padding zero. *)
Lemma get_epsg_from_geometry_value (g : polygon) (c : point) (zone : Z) :
  get_center_rectangle (exterior_coords g) = Ok c ->
  utm_zone (fst c) = Ok zone ->
  get_epsg_from_geometry g
  = Ok ((if (0 <=? snd c)%float then 326 else 327)
        * (if zone <? 10 then 10 else 100) + zone).
Proof.
  intros Hc Hz. unfold get_epsg_from_geometry. rewrite Hc. simpl.
  rewrite (convert_wgs_to_utm_unpadded _ _ _ Hz). simpl.
  apply (int_of_code (0 <=? snd c)%float), (utm_zone_range _ _ Hz).
Qed.

Lemma get_epsg_from_geometry_two_digits (g : polygon) (c : point) (zone : Z) :
  get_center_rectangle (exterior_coords g) = Ok c ->
  utm_zone (fst c) = Ok zone ->
  10 <= zone ->
  exists n, get_epsg_from_geometry g = Ok n /\ valid_utm_epsg n.
Proof.
  intros Hc Hz Hten. rewrite (get_epsg_from_geometry_value _ _ _ Hc Hz).
  eexists; split; [reflexivity | ].
  pose proof (utm_zone_range _ _ Hz) as Hr.
  destruct (Z.ltb_spec zone 10); [lia | ].
  unfold valid_utm_epsg. destruct (0 <=? snd c)%float; lia.
Qed.

End UtmFacts.

(** C2. In [convert_wgs_to_utm] the padding branch is never taken: when the
    zone of the longitude is a single digit (1 to 9) the test guarding the
    padding is false and the returned string is the hemisphere prefix
    ("326" or "327") followed by that one digit, four characters in all,
    with no zero in between. *)
Theorem convert_wgs_to_utm_never_pads (lon lat : float) (zone : Z) :
  Utm.utm_zone lon = Ok zone ->
  (1 <= zone <= 9)%Z ->
  Utm.pad_test (Py.str zone) = false /\
  exists code,
    Utm.convert_wgs_to_utm lon lat = Ok code /\
    code = ((if (0 <=? lat)%float then "326" else "327")
              ++ String (Py.digit zone) EmptyString)%string /\
    String.length code = 4%nat.
Proof.
  intros Hzone Hz.
  rewrite (convert_wgs_to_utm_unpadded _ _ _ Hzone), (str_one_digit _ Hz).
  split; [apply pad_test_false | ].
  eexists. split; [reflexivity | ].
  destruct (0 <=? lat)%float; split; reflexivity.
Qed.

Lemma convert_wgs_to_utm_never_pads_witness :
  Utm.utm_zone (-177)%float = Ok 1%Z /\
  Utm.convert_wgs_to_utm (-177)%float 11%float = Ok "3261"%string.
Proof.
  assert (Hz : Utm.utm_zone (-177)%float = Ok 1%Z) by reflexivity.
  split; [exact Hz | ].
  destruct (convert_wgs_to_utm_never_pads (-177)%float 11%float 1 Hz
              ltac:(lia)) as [_ [code [Hrun [Hcode _]]]].
  rewrite Hrun, Hcode. reflexivity.
Defined.

(** The two examples of the specification lie in two-digit zones. *)
Example get_epsg_from_geometry_examples :
  Utm.get_epsg_from_geometry Utm.san_francisco = Ok 32610%Z /\
  Utm.get_epsg_from_geometry Utm.paris = Ok 32631%Z.
Proof. split; reflexivity. Qed.

(** C1, at the input where the code departs from it: a rectangle whose
    centroid is at longitude -177 and latitude 11 lies in zone 1 of the
    northern hemisphere, so the expected code is 32601; the resolver returns
    3261, which is outside both ranges of UTM codes. *)
Theorem get_epsg_from_geometry_zone1 :
  Utm.get_center_rectangle (Utm.exterior_coords Utm.zone1_rectangle)
  = Ok ((-177)%float, 11%float) /\
  Utm.get_epsg_from_geometry Utm.zone1_rectangle = Ok 3261%Z /\
  ~ Utm.valid_utm_epsg 3261.
Proof.
  split; [reflexivity | split; [reflexivity | ]].
  unfold Utm.valid_utm_epsg. lia.
Qed.

(** Near the edge of a band the rounded sum of the longitude and 180
    decides: the longitude -2^-60 lies in the band of zone 30 and gets
    zone 31, and a full turn of 360 degrees can change the zone. *)
Example utm_zone_near_band_edges :
  Utm.utm_zone (-0x1p-60)%float = Ok 31%Z /\
  Utm.utm_zone 5.999999999999999%float = Ok 32%Z /\
  Utm.utm_zone (-180.00000000000003)%float = Ok 60%Z /\
  Utm.utm_zone (-180.00000000000003 + 360)%float = Ok 1%Z.
Proof. repeat split. Qed.

Section ScaleFacts.
Import Resize.
Variable A : Type.

Lemma trunc_div (a b : Z) :
  (0 <= a)%Z -> (0 < b)%Z -> Py.trunc (inject_Z a / inject_Z b)%Q = (a / b)%Z.
Proof.
  intros Ha Hb. unfold Py.trunc.
  destruct b as [ | pb | pb]; try lia.
  assert (Hq : (inject_Z a / inject_Z (Z.pos pb))%Q = (a * 1 # 1 * pb)%Q) by reflexivity.
  rewrite Hq.
  assert (Hle : Qle_bool 0 (a * 1 # 1 * pb) = true).
  { apply Qle_bool_iff. unfold Qle. simpl. lia. }
  rewrite Hle. unfold Qfloor. f_equal; lia.
Qed.

(** The index computed for one axis: [int(n * i / k)] is the quotient. *)
Lemma axis_index (n i k : nat) :
  (0 < k)%nat ->
  (i' <- truediv (Z.of_nat n * Z.of_nat i) (Z.of_nat k) ;; Ok (Py.trunc i'))
  = Ok (Z.of_nat (n * i / k)).
Proof.
  intros Hk. unfold truediv.
  destruct (Z.eqb_spec (Z.of_nat k) 0) as [He | _]; [lia | ].
  simpl. rewrite trunc_div by lia.
  now rewrite <- Nat2Z.inj_mul, <- Nat2Z.inj_div.
Qed.

Lemma axis_index_lt (n i k : nat) :
  (0 < n)%nat -> (i < k)%nat -> (n * i / k < n)%nat.
Proof.
  intros Hn Hi. apply Nat.Div0.div_lt_upper_bound. nia.
Qed.

Lemma getitem_nat {B : Type} (l : list B) (i : nat) (d : B) :
  (i < length l)%nat -> getitem l (Z.of_nat i) = Ok (nth i l d).
Proof.
  intros Hi. unfold getitem.
  destruct (Z.ltb_spec (Z.of_nat i) 0) as [ | _]; [lia | ].
  destruct (Z.leb_spec 0 (Z.of_nat i)) as [_ | ]; [ | lia].
  destruct (Z.ltb_spec (Z.of_nat i) (Z.of_nat (length l))) as [_ | ]; [ | lia].
  simpl. rewrite Nat2Z.id.
  now rewrite (nth_error_nth' l d Hi).
Qed.

Lemma comprehension_map {B C : Type} (f : B -> result C) (g : B -> C)
      (l : list B) :
  (forall x, In x l -> f x = Ok (g x)) ->
  comprehension f l = Ok (map g l).
Proof.
  induction l as [ | x t IH]; intros Hf; [reflexivity | ].
  simpl. rewrite (Hf x (or_introl eq_refl)). simpl.
  rewrite IH; [reflexivity | ].
  intros y Hy. apply Hf. now right.
Qed.

Lemma reshape_concat {B : Type} (rows cols : nat) (tmp : list (list B)) :
  length tmp = rows ->
  Forall (fun row => length row = cols) tmp ->
  reshape rows cols (concat tmp) = Ok tmp.
Proof.
  intros Hlen Hrows. unfold reshape.
  assert (Hsize : length (concat tmp) = (rows * cols)%nat).
  { subst rows. induction Hrows as [ | row t Hrow _ IH]; [reflexivity | ].
    simpl. rewrite length_app, IH, Hrow. reflexivity. }
  rewrite Hsize, Nat.eqb_refl. f_equal. clear Hsize.
  subst rows. unfold range.
  induction Hrows as [ | row t Hrow _ IH]; [reflexivity | ].
  simpl. rewrite <- Hrow at 1. rewrite firstn_app, firstn_all, Nat.sub_diag.
  simpl. rewrite app_nil_r. f_equal.
  rewrite <- seq_shift, map_map.
  etransitivity; [ | exact IH].
  apply map_ext. intros r. simpl.
  rewrite skipn_app.
  rewrite (skipn_all2 row) by lia. simpl.
  replace (cols + r * cols - length row)%nat with (r * cols)%nat by lia.
  reflexivity.
Qed.

Lemma map_nth_seq {B : Type} (l : list B) (d : B) :
  map (fun i => nth i l d) (seq 0 (length l)) = l.
Proof.
  induction l as [ | x t IH]; [reflexivity | ].
  simpl. f_equal. rewrite <- seq_shift, map_map. exact IH.
Qed.

(** The value of [scale] on a rectangular matrix with a cell [d]. *)
Lemma scale_value (m : matrix A) (R C rows cols : nat) (d : A) :
  rectangular m R C ->
  (0 < R)%nat -> (0 < C)%nat -> (0 < rows)%nat -> (0 < cols)%nat ->
  scale m rows cols
  = Ok (map (fun r =>
               map (fun c => nth (C * c / cols) (nth (R * r / rows) m []) d)
                   (seq 0 cols))
            (seq 0 rows)).
Proof.
  intros [HR HC] HR0 HC0 Hrows Hcols. unfold scale.
  assert (Hrow : forall i, (i < R)%nat -> length (nth i m []) = C).
  { intros i Hi. rewrite Forall_forall in HC. apply HC, nth_In. lia. }
  change (getitem m 0) with (getitem m (Z.of_nat 0)).
  rewrite (getitem_nat m 0 []) by lia. simpl.
  rewrite HR, (Hrow 0%nat HR0).
  rewrite (comprehension_map _
             (fun r => map (fun c => nth (C * c / cols) (nth (R * r / rows) m []) d)
                           (seq 0 cols))).
  - simpl. apply reshape_concat.
    + now rewrite length_map, length_seq.
    + apply Forall_forall. intros row Hin.
      apply in_map_iff in Hin. destruct Hin as [r [<- _]].
      now rewrite length_map, length_seq.
  - intros r Hr. apply in_seq in Hr.
    apply comprehension_map. intros c Hc. apply in_seq in Hc.
    pose proof (axis_index R r rows Hrows) as Hi.
    pose proof (axis_index C c cols Hcols) as Hj.
    unfold truediv in *.
    destruct (Z.eqb_spec (Z.of_nat rows) 0) as [ | _]; [lia | ].
    destruct (Z.eqb_spec (Z.of_nat cols) 0) as [ | _]; [lia | ].
    simpl in *. injection Hi as ->. injection Hj as ->.
    assert (Hlt : (R * r / rows < R)%nat) by (apply axis_index_lt; lia).
    rewrite (getitem_nat m _ []) by lia. simpl.
    apply getitem_nat. rewrite (Hrow _ Hlt). apply axis_index_lt; lia.
Qed.

Lemma rectangular_cell (m : matrix A) (R C : nat) :
  rectangular m R C -> (0 < R)%nat -> (0 < C)%nat -> inhabited A.
Proof.
  intros [HR HC] HR0 HC0.
  destruct m as [ | [ | d row] m']; simpl in HR; [lia | | exact (inhabits d)].
  inversion HC as [ | ? ? Hrow _]; subst. simpl in HC0. lia.
Qed.

Lemma rectangular_row (m : matrix A) (R C i : nat) :
  rectangular m R C -> (i < R)%nat -> length (nth i m []) = C.
Proof.
  intros [HR HC] Hi. rewrite Forall_forall in HC. apply HC, nth_In. lia.
Qed.

Lemma cell_nth (m : matrix A) (R C r c : nat) (d : A) :
  rectangular m R C -> (r < R)%nat -> (c < C)%nat ->
  cell m r c = Some (nth c (nth r m []) d).
Proof.
  intros Hm Hr Hc. unfold cell.
  rewrite (nth_error_nth' m []) by (destruct Hm; lia).
  apply nth_error_nth'. now rewrite (rectangular_row _ _ _ _ Hm Hr).
Qed.

Lemma nth_map_seq {B : Type} (f : nat -> B) (n r : nat) (d : B) :
  (r < n)%nat -> nth r (map f (seq 0 n)) d = f r.
Proof.
  intros Hr.
  rewrite (nth_indep _ d (f 0%nat)) by (now rewrite length_map, length_seq).
  rewrite map_nth, seq_nth by exact Hr. reflexivity.
Qed.

Lemma rectangular_map_seq (f : nat -> nat -> A) (rows cols : nat) :
  rectangular (map (fun r => map (f r) (seq 0 cols)) (seq 0 rows)) rows cols.
Proof.
  split; [now rewrite length_map, length_seq | ].
  apply Forall_forall. intros row Hin.
  apply in_map_iff in Hin. destruct Hin as [r [<- _]].
  now rewrite length_map, length_seq.
Qed.

End ScaleFacts.



(** C8. Resizing a rectangular matrix with at least one cell to its own
    shape returns the matrix itself. *)
Theorem scale_same_shape_is_identity
        (A : Type) (m : Resize.matrix A) (R C : nat) :
  Resize.rectangular m R C -> (0 < R)%nat -> (0 < C)%nat ->
  Resize.scale m R C = Ok m.
Proof.
  intros Hm HR HC.
  destruct (rectangular_cell _ _ _ _ Hm HR HC) as [d].
  rewrite (scale_value _ _ _ _ _ _ d Hm HR HC HR HC). f_equal.
  etransitivity; [ | apply (map_nth_seq m [])].
  destruct Hm as [Hlen Hrows]. rewrite Hlen.
  apply map_ext_in. intros r Hr. apply in_seq in Hr.
  rewrite (Nat.mul_comm R r), Nat.div_mul by lia.
  etransitivity; [ | apply (map_nth_seq (nth r m []) d)].
  rewrite (rectangular_row _ _ _ _ r (conj Hlen Hrows)) by lia.
  apply map_ext_in. intros c Hc. apply in_seq in Hc.
  now rewrite (Nat.mul_comm C c), Nat.div_mul by lia.
Qed.

Lemma scale_same_shape_is_identity_witness :
  Resize.scale [[1; 2; 3]; [4; 5; 6]]%Z 2 3 = Ok [[1; 2; 3]; [4; 5; 6]]%Z.
Proof.
  apply (scale_same_shape_is_identity Z [[1; 2; 3]; [4; 5; 6]]%Z 2 3).
  - split; [reflexivity | repeat constructor].
  - lia.
  - lia.
Defined.

Section RescaleMore.
Import Rescale.

Lemma min_from_In {T : Type} (lt : T -> T -> bool) (l : list T) :
  forall cur, In (min_from lt cur l) (cur :: l).
Proof.
  induction l as [ | x t IH]; intros cur; simpl; [now left | ].
  destruct (IH (if lt x cur then x else cur)) as [H | H].
  - destruct (lt x cur); [right; left | left]; exact H.
  - right. right. exact H.
Qed.

Lemma max_from_In {T : Type} (lt : T -> T -> bool) (l : list T) :
  forall cur, In (max_from lt cur l) (cur :: l).
Proof.
  induction l as [ | x t IH]; intros cur; simpl; [now left | ].
  destruct (IH (if lt cur x then x else cur)) as [H | H].
  - destruct (lt cur x); [right; left | left]; exact H.
  - right. right. exact H.
Qed.

(** [min] and [max] raise on the empty sequence only, and return one of
    the items. *)
Lemma min_In {T : Type} (lt : T -> T -> bool) (l : list T) :
  l <> [] -> exists m, min lt l = Ok m /\ In m l.
Proof.
  destruct l as [ | x t]; [contradiction | intros _].
  eexists. split; [reflexivity | apply min_from_In].
Qed.

Lemma max_In {T : Type} (lt : T -> T -> bool) (l : list T) :
  l <> [] -> exists m, max lt l = Ok m /\ In m l.
Proof.
  destruct l as [ | x t]; [contradiction | intros _].
  eexists. split; [reflexivity | apply max_from_In].
Qed.

Ltac zero_or_nan_case :=
  simpl; first [left; reflexivity | right; eexists; reflexivity].

Lemma nan_of_spec (x : float) : Prim2SF x = S754_nan -> x = nan.
Proof.
  intros H. rewrite <- (SF2Prim_Prim2SF x), H. reflexivity.
Qed.

(** The difference of two equal floats is a zero, or not a number when
    they are infinite. *)
Lemma sub_equal (x y : float) :
  (x =? y)%float = true -> zero_or_nan (x - y)%float.
Proof.
  unfold zero_or_nan. rewrite eqb_spec, sub_spec.
  destruct (Prim2SF x) as [sx | sx | | sx mx ex];
    destruct (Prim2SF y) as [sy | sy | | sy my ey];
    unfold SFeqb, SFcompare; intros H;
    try discriminate H;
    try (destruct sx; discriminate H);
    try (destruct sy; discriminate H);
    try (destruct sx, sy; try discriminate H; zero_or_nan_case).
  assert (E : sx = sy /\ ex = ey /\ mx = my).
  { destruct sx, sy; try discriminate;
      destruct (Z.compare_spec ex ey) as [He | He | He]; try discriminate;
      (split; [reflexivity | split; [exact He | ]]);
      apply Pos.compare_eq; unfold Pos.compare;
      destruct (Pos.compare_cont Eq mx my); try discriminate; reflexivity. }
  destruct E as [<- [<- <-]].
  unfold SF64sub, SFsub. rewrite Z.min_id.
  unfold shl_align. rewrite Z.sub_diag. cbn [fst].
  rewrite ?Z.sub_diag. zero_or_nan_case.
Qed.

Lemma mul_zero_or_nan (d z : float) :
  zero_or_nan z -> zero_or_nan (d * z)%float.
Proof.
  unfold zero_or_nan. rewrite mul_spec.
  intros [Hz | [s Hz]]; rewrite Hz;
    destruct (Prim2SF d) as [sd | sd | | sd md ed]; zero_or_nan_case.
Qed.

Lemma div_zero_or_nan (n r : float) :
  zero_or_nan n -> zero_or_nan r -> (n / r)%float = nan.
Proof.
  unfold zero_or_nan. intros [Hn | [sn Hn]] [Hr | [sr Hr]];
    apply nan_of_spec; rewrite div_spec, Hn, Hr; reflexivity.
Qed.

Lemma nan_add (x : float) : (nan + x)%float = nan.
Proof.
  apply nan_of_spec. rewrite add_spec.
  change (Prim2SF nan) with S754_nan. reflexivity.
Qed.

Lemma wrap_zero (t : int_dtype) :
  ((bits t =? 8) || (bits t =? 16) || (bits t =? 32) || (bits t =? 64))%Z = true ->
  wrap t 0 = 0%Z.
Proof.
  destruct t as [sg b]. simpl. intros H.
  apply orb_prop in H. destruct H as [H | H].
  - apply orb_prop in H. destruct H as [H | H].
    + apply orb_prop in H. destruct H as [H | H];
        apply Z.eqb_eq in H; subst b; destruct sg; reflexivity.
    + apply Z.eqb_eq in H; subst b; destruct sg; reflexivity.
  - apply Z.eqb_eq in H; subst b; destruct sg; reflexivity.
Qed.

End RescaleMore.

Section RescaleOrder.
Import Rescale.
Local Open Scope Z_scope.

(** The least and the greatest integer, as [min] and [max] find them. *)
Lemma min_from_least (l : list Z) :
  forall cur, forall x, In x (cur :: l) -> min_from Z.ltb cur l <= x.
Proof.
  induction l as [ | y t IH]; intros cur x; simpl.
  - intros [<- | []]. lia.
  - intros Hx.
    assert (Hc : (if y <? cur then y else cur) <= cur /\
                 (if y <? cur then y else cur) <= y)
      by (destruct (Z.ltb_spec y cur); lia).
    pose proof (IH (if y <? cur then y else cur) _ (or_introl eq_refl)) as H0.
    destruct Hx as [<- | [<- | Hx]]; try lia.
    apply IH. now right.
Qed.

Lemma max_from_greatest (l : list Z) :
  forall cur, forall x, In x (cur :: l) -> x <= max_from Z.ltb cur l.
Proof.
  induction l as [ | y t IH]; intros cur x; simpl.
  - intros [<- | []]. lia.
  - intros Hx.
    assert (Hc : cur <= (if cur <? y then y else cur) /\
                 y <= (if cur <? y then y else cur))
      by (destruct (Z.ltb_spec cur y); lia).
    pose proof (IH (if cur <? y then y else cur) _ (or_introl eq_refl)) as H0.
    destruct Hx as [<- | [<- | Hx]]; try lia.
    apply IH. now right.
Qed.

Lemma min_least (l : list Z) (lo : Z) :
  In lo l -> (forall v, In v l -> lo <= v) -> min Z.ltb l = Ok lo.
Proof.
  intros Hin Hlo. destruct l as [ | x t]; [contradiction | ].
  simpl. f_equal. apply Z.le_antisymm.
  - now apply min_from_least.
  - apply Hlo, min_from_In.
Qed.

Lemma max_greatest (l : list Z) (hi : Z) :
  In hi l -> (forall v, In v l -> v <= hi) -> max Z.ltb l = Ok hi.
Proof.
  intros Hin Hhi. destruct l as [ | x t]; [contradiction | ].
  simpl. f_equal. apply Z.le_antisymm.
  - apply Hhi, max_from_In.
  - now apply max_from_greatest.
Qed.

(** A value of the dtype is stored as it is. *)
Lemma wrap_fits (t : int_dtype) (z : Z) :
  ((bits t =? 8) || (bits t =? 16) || (bits t =? 32) || (bits t =? 64)) = true ->
  fits t z = true -> wrap t z = z.
Proof.
  intros Hb Hf. unfold fits in Hf. apply andb_prop in Hf.
  destruct Hf as [H1 H2]. apply Z.leb_le in H1, H2.
  unfold wrap. rewrite Z.mod_small; [lia | ].
  assert (E : highest t - lowest t + 1 = 2 ^ bits t).
  { destruct t as [sg b]. unfold highest, lowest. simpl in *.
    repeat (apply orb_prop in Hb; destruct Hb as [Hb | Hb]);
      apply Z.eqb_eq in Hb; subst b; destruct sg; reflexivity. }
  lia.
Qed.

End RescaleOrder.

Section FloatOrder.
Import Rescale.

Ltac compare_cases :=
  repeat match goal with
         | H : context [PosDef.Pos.compare_cont Eq ?x ?y] |- _ =>
             change (PosDef.Pos.compare_cont Eq x y) with (Pos.compare x y) in H
         | |- context [PosDef.Pos.compare_cont Eq ?x ?y] =>
             change (PosDef.Pos.compare_cont Eq x y) with (Pos.compare x y)
         end;
  repeat match goal with
         | H : context [Z.compare ?x ?y] |- _ =>
             destruct (Z.compare_spec x y); try discriminate H
         | H : context [Pos.compare ?x ?y] |- _ =>
             destruct (Pos.compare_spec x y); try discriminate H
         | |- context [Z.compare ?x ?y] =>
             destruct (Z.compare_spec x y)
         | |- context [Pos.compare ?x ?y] =>
             destruct (Pos.compare_spec x y)
         end;
  simpl in *; try reflexivity; try discriminate; try lia.

(** [<] on the floats is a strict order. *)
Lemma SFltb_trans (a b c : spec_float) :
  SFltb a b = true -> SFltb b c = true -> SFltb a c = true.
Proof.
  unfold SFltb, SFcompare.
  destruct a as [sa | sa | | sa ma ea]; destruct b as [sb | sb | | sb mb eb];
    destruct c as [sc | sc | | sc mc ec]; intros H1 H2;
    try discriminate H1; try discriminate H2;
    try destruct sa; try destruct sb; try destruct sc;
    try discriminate H1; try discriminate H2; try reflexivity;
    compare_cases.
Qed.

Lemma SFltb_irrefl (a : spec_float) : SFltb a a = false.
Proof.
  unfold SFltb, SFcompare.
  destruct a as [sa | sa | | sa ma ea]; try destruct sa; try reflexivity;
    rewrite Z.compare_refl;
    change (PosDef.Pos.compare_cont Eq ma ma) with (Pos.compare ma ma);
    rewrite Pos.compare_refl; reflexivity.
Qed.

Lemma ltb_trans (x y z : float) :
  (x <? y)%float = true -> (y <? z)%float = true -> (x <? z)%float = true.
Proof. rewrite !ltb_spec. apply SFltb_trans. Qed.

Lemma ltb_irrefl (x : float) : (x <? x)%float = false.
Proof. rewrite ltb_spec. apply SFltb_irrefl. Qed.

Lemma ltb_asym (x y : float) :
  (x <? y)%float = true -> (y <? x)%float = false.
Proof.
  intros H. destruct (y <? x)%float eqn:E; [ | reflexivity].
  rewrite <- (ltb_irrefl x). symmetry. exact (ltb_trans _ _ _ H E).
Qed.

(** What [min] keeps is an item that no item is less than, and [max]
    an item that is less than no item, also among floats that are not
    numbers. *)
Lemma min_from_float (l : list float) :
  forall cur,
    (min_from PrimFloat.ltb cur l = cur \/
     (min_from PrimFloat.ltb cur l <? cur)%float = true) /\
    forall x, In x (cur :: l) ->
              (x <? min_from PrimFloat.ltb cur l)%float = false.
Proof.
  induction l as [ | y t IH]; intros cur; simpl.
  - split; [now left | ]. intros x [<- | []]. apply ltb_irrefl.
  - destruct (IH (if (y <? cur)%float then y else cur)) as [Hr Hall].
    destruct (y <? cur)%float eqn:E.
    + assert (Hlt : (min_from PrimFloat.ltb y t <? cur)%float = true).
      { destruct Hr as [-> | Hr]; [exact E | exact (ltb_trans _ _ _ Hr E)]. }
      split; [now right | ].
      intros x [<- | Hx]; [now apply ltb_asym | now apply Hall].
    + split; [exact Hr | ].
      intros x [<- | [<- | Hx]].
      * apply Hall. now left.
      * destruct Hr as [-> | Hr]; [exact E | ].
        destruct (y <? min_from PrimFloat.ltb cur t)%float eqn:E'; [ | reflexivity].
        rewrite <- E. symmetry. exact (ltb_trans _ _ _ E' Hr).
      * apply Hall. now right.
Qed.

Lemma max_from_float (l : list float) :
  forall cur,
    (max_from PrimFloat.ltb cur l = cur \/
     (cur <? max_from PrimFloat.ltb cur l)%float = true) /\
    forall x, In x (cur :: l) ->
              (max_from PrimFloat.ltb cur l <? x)%float = false.
Proof.
  induction l as [ | y t IH]; intros cur; simpl.
  - split; [now left | ]. intros x [<- | []]. apply ltb_irrefl.
  - destruct (IH (if (cur <? y)%float then y else cur)) as [Hr Hall].
    destruct (cur <? y)%float eqn:E.
    + assert (Hlt : (cur <? max_from PrimFloat.ltb y t)%float = true).
      { destruct Hr as [-> | Hr]; [exact E | exact (ltb_trans _ _ _ E Hr)]. }
      split; [now right | ].
      intros x [<- | Hx]; [now apply ltb_asym | now apply Hall].
    + split; [exact Hr | ].
      intros x [<- | [<- | Hx]].
      * apply Hall. now left.
      * destruct Hr as [-> | Hr]; [exact E | ].
        destruct (max_from PrimFloat.ltb cur t <? y)%float eqn:E'; [ | reflexivity].
        rewrite <- E. symmetry. exact (ltb_trans _ _ _ Hr E').
      * apply Hall. now right.
Qed.

End FloatOrder.

(** On an array of an integer dtype, when no difference [v - min] and no
    product [(mx - mn) * (v - min)] leaves the dtype, nothing wraps. *)
Lemma rescale_array_without_wrap
      (t : Rescale.int_dtype) (a : Rescale.ndarray Z)
      (mn mx : Rescale.number) (lo hi : Z) :
  Rescale.supported (Rescale.IntArray t a) mn mx = true ->
  In lo (Rescale.data a) -> In hi (Rescale.data a) ->
  (forall v, In v (Rescale.data a) -> (lo <= v <= hi)%Z) ->
  (forall v, In v (Rescale.data a) ->
             Rescale.fits t (v - lo) = true /\
             match Rescale.py_sub mx mn with
             | Rescale.PyInt d => Rescale.fits t (d * (v - lo)) = true
             | Rescale.PyFloat _ => True
             end) ->
  Rescale.rescale_array (Rescale.IntArray t a) mn mx
  = Ok {| Rescale.shape := Rescale.shape a;
          Rescale.data :=
            map (fun v => (match Rescale.py_sub mx mn with
                           | Rescale.PyInt d =>
                               Rescale.to_float (d * (v - lo))
                           | Rescale.PyFloat d =>
                               d * Rescale.to_float (v - lo)
                           end
                           / Rescale.to_float (hi - lo)
                           + Rescale.as_float mn)%float)
                (Rescale.data a) |}.
Proof.
  intros Hsup Hlo Hhi Hrange Hfit.
  unfold Rescale.supported in Hsup.
  apply andb_prop in Hsup. destruct Hsup as [_ Hint].
  apply andb_prop in Hint. destruct Hint as [Hint _].
  apply andb_prop in Hint. destruct Hint as [Hbits _].
  unfold Rescale.rescale_array, Rescale.flatten.
  rewrite (min_least _ lo Hlo) by (intros v Hv; now apply Hrange).
  rewrite (max_greatest _ hi Hhi) by (intros v Hv; now apply Hrange).
  cbn [bind]. f_equal. f_equal.
  destruct (Hfit hi Hhi) as [H3 _].
  rewrite (wrap_fits t (hi - lo) Hbits H3).
  destruct (Rescale.py_sub mx mn) as [d | d]; rewrite !map_map;
    apply map_ext_in; intros v Hv; destruct (Hfit v Hv) as [H1 H2];
    rewrite (wrap_fits t (v - lo) Hbits H1).
  - now rewrite (wrap_fits t _ Hbits H2).
  - reflexivity.
Qed.

(** On a float64 array with at least one cell the formula is evaluated
    as it stands, each operation in binary64. *)
Lemma rescale_array_float64
        (a : Rescale.ndarray float) (mn mx : Rescale.number) :
  Rescale.data a <> [] ->
  Rescale.supported (Rescale.FloatArray a) mn mx = true ->
  exists m M,
    In m (Rescale.data a) /\ In M (Rescale.data a) /\
    (forall v, In v (Rescale.data a) ->
               (v <? m)%float = false /\ (M <? v)%float = false) /\
    Rescale.rescale_array (Rescale.FloatArray a) mn mx
    = Ok {| Rescale.shape := Rescale.shape a;
            Rescale.data :=
              map (fun v => (Rescale.as_float (Rescale.py_sub mx mn)
                             * (v - m) / (M - m)
                             + Rescale.as_float mn)%float)
                  (Rescale.data a) |}.
Proof.
  intros Hne _. unfold Rescale.rescale_array, Rescale.flatten.
  destruct (Rescale.data a) as [ | x t] eqn:E; [contradiction | ].
  exists (Rescale.min_from PrimFloat.ltb x t),
         (Rescale.max_from PrimFloat.ltb x t).
  split; [apply min_from_In | split; [apply max_from_In | split]].
  - intros v Hv. split.
    + now apply (proj2 (min_from_float t x)).
    + now apply (proj2 (max_from_float t x)).
  - reflexivity.
Qed.

(** C4, amended.  On a float64 array with at least one cell
    [rescale_array] returns an array of the same shape in which each
    element [v] has become (mx - mn) * (v - m) / (M - m) + mn, every
    operation being that of binary64 and rounded on its own, where [m] is
    a cell that no cell is less than and [M] a cell that is less than no
    cell.  On an array of an integer dtype, when no difference [v - min]
    and no product [(mx - mn) * (v - min)] leaves the dtype, each element
    [v] has become the float quotient of the product (an integer when
    [mx - mn] is an [int]) and [max - min], plus [mn].  The instance
    [rescale_array(np.array([1, 2, 3]), 0, 1) = [0, 0.5, 1]] closes the
    statement. *)
Theorem rescale_array_linear :
  (forall (a : Rescale.ndarray float) (mn mx : Rescale.number),
      Rescale.data a <> [] ->
      Rescale.supported (Rescale.FloatArray a) mn mx = true ->
      exists m M,
        In m (Rescale.data a) /\ In M (Rescale.data a) /\
        (forall v, In v (Rescale.data a) ->
                   (v <? m)%float = false /\ (M <? v)%float = false) /\
        Rescale.rescale_array (Rescale.FloatArray a) mn mx
        = Ok {| Rescale.shape := Rescale.shape a;
                Rescale.data :=
                  map (fun v => (Rescale.as_float (Rescale.py_sub mx mn)
                                 * (v - m) / (M - m)
                                 + Rescale.as_float mn)%float)
                      (Rescale.data a) |}) /\
  (forall (t : Rescale.int_dtype) (a : Rescale.ndarray Z)
          (mn mx : Rescale.number) (lo hi : Z),
      Rescale.supported (Rescale.IntArray t a) mn mx = true ->
      In lo (Rescale.data a) -> In hi (Rescale.data a) ->
      (forall v, In v (Rescale.data a) -> (lo <= v <= hi)%Z) ->
      (forall v, In v (Rescale.data a) ->
                 Rescale.fits t (v - lo) = true /\
                 match Rescale.py_sub mx mn with
                 | Rescale.PyInt d => Rescale.fits t (d * (v - lo)) = true
                 | Rescale.PyFloat _ => True
                 end) ->
      Rescale.rescale_array (Rescale.IntArray t a) mn mx
      = Ok {| Rescale.shape := Rescale.shape a;
              Rescale.data :=
                map (fun v => (match Rescale.py_sub mx mn with
                               | Rescale.PyInt d =>
                                   Rescale.to_float (d * (v - lo))
                               | Rescale.PyFloat d =>
                                   d * Rescale.to_float (v - lo)
                               end
                               / Rescale.to_float (hi - lo)
                               + Rescale.as_float mn)%float)
                    (Rescale.data a) |}) /\
  Rescale.rescale_array Rescale.one_two_three
                        (Rescale.PyInt 0) (Rescale.PyInt 1)
  = Ok {| Rescale.shape := [3%nat]; Rescale.data := [0; 0.5; 1]%float |}.
Proof.
  split; [ | split; [ | reflexivity]].
  - intros a mn mx. apply rescale_array_float64.
  - intros t a mn mx lo hi. apply rescale_array_without_wrap.
Qed.

Lemma rescale_array_linear_witness :
  (exists m M,
      In m [0; 3]%float /\ In M [0; 3]%float /\
      (forall v, In v [0; 3]%float ->
                 (v <? m)%float = false /\ (M <? v)%float = false) /\
      Rescale.rescale_array
        (Rescale.FloatArray
           {| Rescale.shape := [2%nat]; Rescale.data := [0; 3]%float |})
        (Rescale.PyFloat 0.1) (Rescale.PyFloat 0.9)
      = Ok {| Rescale.shape := [2%nat];
              Rescale.data :=
                map (fun v => (Rescale.as_float
                                 (Rescale.py_sub (Rescale.PyFloat 0.9)
                                                 (Rescale.PyFloat 0.1))
                               * (v - m) / (M - m)
                               + Rescale.as_float (Rescale.PyFloat 0.1))%float)
                    [0; 3]%float |}) /\
  Rescale.rescale_array Rescale.one_two_three
                        (Rescale.PyInt 0) (Rescale.PyInt 1)
  = Ok {| Rescale.shape := [3%nat];
          Rescale.data :=
            map (fun v => (Rescale.to_float ((1 - 0) * (v - 1))
                           / Rescale.to_float (3 - 1)
                           + Rescale.to_float 0)%float)
                [1; 2; 3]%Z |}.
Proof.
  split.
  - apply (proj1 rescale_array_linear
             {| Rescale.shape := [2%nat]; Rescale.data := [0; 3]%float |}
             (Rescale.PyFloat 0.1) (Rescale.PyFloat 0.9)).
    + discriminate.
    + reflexivity.
  - apply (proj1 (proj2 rescale_array_linear) Rescale.int64
             {| Rescale.shape := [3%nat]; Rescale.data := [1; 2; 3]%Z |}
             (Rescale.PyInt 0) (Rescale.PyInt 1) 1%Z 3%Z).
    + reflexivity.
    + simpl. tauto.
    + simpl. tauto.
    + simpl. intros v [<- | [<- | [<- | []]]]; lia.
    + simpl. intros v [<- | [<- | [<- | []]]]; split; reflexivity.
Defined.

(** C4 as stated fails twice.  In binary64 the operations round: on
    the array [0, 3] rescaled to 0.1..0.9 the greatest value, which the
    formula takes to [mx], comes out one step above 0.9.  And on an
    integer array the product is taken in the dtype of the array: on the
    image row 0, 128, 255 of dtype uint8, rescaled to 0..255, the formula
    gives back 0, 128 and 255, where the code returns 0, 128/255 and
    1/255, since 255 * 128 is 128 and 255 * 255 is 1 in uint8. *)
Lemma rescale_array_not_exact :
  (Rescale.rescale_array
     (Rescale.FloatArray
        {| Rescale.shape := [2%nat]; Rescale.data := [0; 3]%float |})
     (Rescale.PyFloat 0.1) (Rescale.PyFloat 0.9)
   = Ok {| Rescale.shape := [2%nat];
           Rescale.data := [0.1; 0.90000000000000013]%float |} /\
   (0.9 <? 0.90000000000000013)%float = true) /\
  (Rescale.supported Rescale.uint8_row (Rescale.PyInt 0) (Rescale.PyInt 255)
   = true /\
   Rescale.rescale_array Rescale.uint8_row
                         (Rescale.PyInt 0) (Rescale.PyInt 255)
   = Ok {| Rescale.shape := [3%nat];
           Rescale.data := [0; 128 / 255; 1 / 255]%float |} /\
   ((255 - 0) * (128 - 0) / (255 - 0) + 0 = 128)%Z /\
   ((255 - 0) * (255 - 0) / (255 - 0) + 0 = 255)%Z /\
   (128 / 255 <? 1)%float = true /\
   (1 / 255 <? 1)%float = true).
Proof. repeat split. Qed.

Section ConfigFacts.
Import Config.

Lemma dict_get_set_same (k : string) (v : value) (d : dict) :
  dict_get k (dict_set k v d) = Some v.
Proof.
  induction d as [ | [k' v'] t IH]; simpl.
  - now rewrite String.eqb_refl.
  - destruct (String.eqb k' k) eqn:E; simpl; rewrite E; [reflexivity | exact IH].
Qed.

Lemma dict_get_set_other (k k' : string) (v : value) (d : dict) :
  k <> k' -> dict_get k' (dict_set k v d) = dict_get k' d.
Proof.
  intros Hk. induction d as [ | [k0 v0] t IH]; simpl.
  - destruct (String.eqb_spec k k'); [contradiction | reflexivity].
  - destruct (String.eqb_spec k0 k) as [-> | Hk0]; simpl.
    + destruct (String.eqb_spec k k'); [contradiction | reflexivity].
    + destruct (String.eqb_spec k0 k'); [reflexivity | exact IH].
Qed.

Lemma dict_set_fresh (k : string) (v : value) (d : dict) :
  ~ In k (keys d) -> dict_set k v d = (d ++ [(k, v)])%list.
Proof.
  induction d as [ | [k' v'] t IH]; simpl; intros Hk; [reflexivity | ].
  destruct (String.eqb_spec k' k) as [-> | _].
  - exfalso. apply Hk. now left.
  - f_equal. apply IH. intros Hin. apply Hk. now right.
Qed.

(** Filling a new dict from a dict gives back its items in their order. *)
Lemma unpack_items (d : dict) : NoDup (keys d) -> unpack d = d.
Proof.
  unfold unpack.
  assert (H : forall acc, NoDup (keys (acc ++ d)) ->
                fold_left (fun a kv => dict_set (fst kv) (snd kv) a) d acc
                = (acc ++ d)%list).
  { induction d as [ | [k v] t IH]; intros acc Hnd; simpl.
    - now rewrite app_nil_r.
    - rewrite dict_set_fresh.
      + rewrite IH; rewrite <- app_assoc; [reflexivity | exact Hnd].
      + unfold keys in Hnd. rewrite map_app in Hnd. simpl in Hnd.
        apply NoDup_remove_2 in Hnd. intros Hin. apply Hnd.
        apply in_or_app. now left. }
  intros Hnd. exact (H [] Hnd).
Qed.

Lemma setitem_last (st : store) (c : dict) (k : string) (v : value) :
  setitem (st ++ [ODict c]) (length st) k v
  = Ok (st ++ [ODict (dict_set k v c)])%list.
Proof.
  unfold setitem.
  rewrite nth_error_app2, Nat.sub_diag by lia. simpl. f_equal.
  induction st as [ | o t IH]; simpl; [reflexivity | now rewrite IH].
Qed.

(** The store that [create_json_config] returns: one more object. *)
Lemma create_json_config_value (st : store) (a : addr) (d : dict)
      (settings : value) :
  nth_error st a = Some (ODict d) ->
  create_json_config st (VRef a) settings
  = Ok ((st ++ [ODict (dict_set "settings"%string settings
                         (dict_set "roi_ids"%string
                            (VList (map VStr (keys d))) (unpack d)))])%list,
        VRef (length st)).
Proof.
  intros Ha. unfold create_json_config, load_dict. rewrite Ha. simpl.
  rewrite setitem_last. simpl. rewrite setitem_last. reflexivity.
Qed.

End ConfigFacts.

(** C5, amended.  On every dict [inputs] and every value [settings],
    [create_json_config] returns without raising, changes no object that
    existed before the call, and the new dict it returns holds every item of
    [inputs] whose key is neither "roi_ids" nor "settings" unchanged, under
    "roi_ids" the keys of [inputs] in insertion order, and under "settings"
    the value [settings] itself. *)
Theorem create_json_config_merges
        (st : Config.store) (a : Config.addr) (d : Config.dict)
        (settings : Config.value) :
  nth_error st a = Some (Config.ODict d) ->
  NoDup (Config.keys d) ->
  exists st' cfg,
    Config.create_json_config st (Config.VRef a) settings
    = Ok (st', Config.VRef (length st)) /\
    length st' = S (length st) /\
    (forall b, (b < length st)%nat -> nth_error st' b = nth_error st b) /\
    nth_error st' (length st) = Some (Config.ODict cfg) /\
    Config.dict_get "roi_ids" cfg
    = Some (Config.VList (map Config.VStr (Config.keys d))) /\
    Config.dict_get "settings" cfg = Some settings /\
    (forall k, k <> "roi_ids"%string -> k <> "settings"%string ->
               Config.dict_get k cfg = Config.dict_get k d).
Proof.
  intros Ha Hnd.
  rewrite (create_json_config_value _ _ _ settings Ha), (unpack_items _ Hnd).
  eexists; eexists; split; [reflexivity | ].
  split; [rewrite length_app; simpl; lia | ].
  split; [intros b Hb; now rewrite nth_error_app1 | ].
  split; [rewrite nth_error_app2, Nat.sub_diag by lia; reflexivity | ].
  split.
  - rewrite dict_get_set_other by discriminate. apply dict_get_set_same.
  - split; [apply dict_get_set_same | ].
    intros k Hr Hs.
    rewrite dict_get_set_other by congruence.
    now rewrite dict_get_set_other by congruence.
Qed.

Lemma create_json_config_merges_witness :
  exists st' cfg,
    Config.create_json_config Config.sample_store (Config.VRef 0%nat)
                              (Config.VRef 1%nat)
    = Ok (st', Config.VRef 4%nat) /\
    length st' = 5%nat /\
    (forall b, (b < 4)%nat -> nth_error st' b = nth_error Config.sample_store b) /\
    nth_error st' 4%nat = Some (Config.ODict cfg) /\
    Config.dict_get "roi_ids" cfg
    = Some (Config.VList [Config.VStr "17"; Config.VStr "20"]) /\
    Config.dict_get "settings" cfg = Some (Config.VRef 1%nat) /\
    (forall k, k <> "roi_ids"%string -> k <> "settings"%string ->
               Config.dict_get k cfg
               = Config.dict_get k [("17"%string, Config.VRef 2%nat);
                                    ("20"%string, Config.VRef 3%nat)]).
Proof.
  apply (create_json_config_merges Config.sample_store 0%nat
           [("17"%string, Config.VRef 2%nat); ("20"%string, Config.VRef 3%nat)]
           (Config.VRef 1%nat)).
  - reflexivity.
  - repeat constructor; simpl; intuition discriminate.
Defined.

(** C5 as stated fails: when [inputs] has an item under the key "settings",
    the returned dict does not hold that item. *)
Lemma create_json_config_overwrites_settings :
  exists st' cfg,
    Config.create_json_config Config.clash_store (Config.VRef 0%nat)
                              (Config.VRef 1%nat)
    = Ok (st', Config.VRef 2%nat) /\
    nth_error st' 2%nat = Some (Config.ODict cfg) /\
    ~ Config.contains_items [("settings"%string, Config.VInt 1)] cfg.
Proof.
  eexists; eexists; split; [reflexivity | ]. split; [reflexivity | ].
  intros H. specialize (H "settings"%string (Config.VInt 1) eq_refl).
  discriminate H.
Qed.

(** C9. A config that is neither a dict nor a GeoDataFrame leaves
    everything as it was: [config_to_file] returns without raising, writes
    no file and logs nothing. *)
Theorem config_to_file_other_is_noop
        (can_open : list (string * string) -> string -> bool)
        (json_dumps : Config.store -> Config.dict -> result string)
        (gdf_str : Roi.GeoDataFrame -> string)
        (to_file : Roi.GeoDataFrame -> string -> list (string * string)
                   -> result (list (string * string)))
        (abspath_join : string -> string -> string)
        (w : Config.world) (config : Config.value) (file_path : string) :
  Config.isinstance_dict (Config.objects w) config = false ->
  Config.isinstance_gdf (Config.objects w) config = false ->
  Config.config_to_file can_open json_dumps gdf_str to_file abspath_join
                        w config file_path
  = Ok w.
Proof.
  intros Hd Hg. unfold Config.config_to_file. now rewrite Hd, Hg.
Qed.

Lemma config_to_file_other_is_noop_witness :
  let w := {| Config.objects := Config.sample_store;
              Config.files := [];
              Config.logged := [] |} in
  Config.config_to_file (fun _ _ => true) (fun _ _ => Ok "{}"%string)
                        (fun _ => ""%string) (fun _ _ fs => Ok fs)
                        String.append w (Config.VInt 3) "data"%string
  = Ok w.
Proof.
  intros w.
  apply (config_to_file_other_is_noop (fun _ _ => true)
           (fun _ _ => Ok "{}"%string) (fun _ => ""%string)
           (fun _ _ fs => Ok fs) String.append w (Config.VInt 3)
           "data"%string); reflexivity.
Defined.

(** C6, amended.  With [roi_id = None], [extract_roi_by_id] returns the
    collection unchanged when it is not empty, and raises [Id_Not_Found]
    when it is empty. *)
Theorem extract_roi_by_id_none (gdf : Roi.GeoDataFrame) :
  (Roi.empty gdf = false -> Roi.extract_roi_by_id gdf None = Ok gdf) /\
  (Roi.empty gdf = true -> Roi.extract_roi_by_id gdf None = Raise Id_Not_Found).
Proof.
  unfold Roi.extract_roi_by_id. simpl.
  split; intros H; now rewrite H.
Qed.

Lemma extract_roi_by_id_none_witness :
  Roi.extract_roi_by_id Roi.three_rois None = Ok Roi.three_rois /\
  Roi.extract_roi_by_id Roi.no_rois None = Raise Id_Not_Found.
Proof.
  split.
  - apply (proj1 (extract_roi_by_id_none Roi.three_rois)). reflexivity.
  - apply (proj2 (extract_roi_by_id_none Roi.no_rois)). reflexivity.
Defined.

(** C6 as stated fails on a collection with no row: the call raises. *)
Lemma extract_roi_by_id_none_empty_raises :
  Roi.empty Roi.no_rois = true /\
  Roi.extract_roi_by_id Roi.no_rois None = Raise Id_Not_Found /\
  Roi.extract_roi_by_id Roi.no_rois None <> Ok Roi.no_rois.
Proof.
  split; [reflexivity | split; [reflexivity | discriminate]].
Qed.

(** The other two cases of the specification's example. *)
Example extract_roi_by_id_examples :
  Roi.extract_roi_by_id Roi.three_rois (Some (Roi.CStr "2"))
  = Ok {| Roi.columns := Roi.columns Roi.three_rois;
          Roi.rows := [ [Roi.CStr "2";
                         Roi.CGeom "POLYGON ((1 0, 1 1, 2 1, 2 0, 1 0))"] ] |} /\
  Roi.extract_roi_by_id Roi.three_rois (Some (Roi.CStr "9"))
  = Raise Id_Not_Found.
Proof. split; reflexivity. Qed.

Section FsTree.
Import Fs.

(** Induction on a tree, with the hypothesis for every entry. *)
Lemma node_induction (P : node -> Prop) :
  P File ->
  (forall es, Forall (fun e => P (snd e)) es -> P (Dir es)) ->
  forall n, P n.
Proof.
  intros HF HD.
  fix IH 1. intros [ | es]; [exact HF | ].
  apply HD. induction es as [ | [x c] t IHt]; constructor; [apply IH | exact IHt].
Qed.

Lemma is_prefix_spec (p q : path) :
  is_prefix p q = true <-> exists r, q = p ++ r.
Proof.
  revert q. induction p as [ | x p IH]; intros q; simpl.
  - split; [intros _; now exists q | reflexivity].
  - destruct q as [ | y q].
    + split; [discriminate | intros [r Hr]; discriminate].
    + rewrite andb_true_iff, String.eqb_eq, IH. split.
      * intros [-> [r ->]]. now exists r.
      * intros [r [= -> ->]]. split; [reflexivity | now exists r].
Qed.

Lemma is_prefix_app (p r : path) : is_prefix p (p ++ r) = true.
Proof. apply is_prefix_spec. now exists r. Qed.

Lemma find_entry_remove (x y : string) (es : list (string * node)) :
  find_entry y (remove_entry x es)
  = if String.eqb x y then None else find_entry y es.
Proof.
  induction es as [ | [z c] t IH]; simpl.
  - now destruct (String.eqb x y).
  - destruct (String.eqb_spec z x) as [-> | Hzx]; simpl.
    + rewrite IH. destruct (String.eqb_spec x y); reflexivity.
    + destruct (String.eqb_spec z y) as [-> | Hzy].
      * destruct (String.eqb_spec x y); [congruence | reflexivity].
      * exact IH.
Qed.

Lemma find_entry_map (x y : string) (f : node -> node)
      (es : list (string * node)) :
  find_entry y (map_entry x f es)
  = if String.eqb x y then option_map f (find_entry y es) else find_entry y es.
Proof.
  induction es as [ | [z c] t IH]; simpl.
  - now destruct (String.eqb x y).
  - destruct (String.eqb_spec z x) as [-> | Hzx]; simpl.
    + destruct (String.eqb_spec x y); [reflexivity | ].
      rewrite IH. destruct (String.eqb_spec x y); [contradiction | reflexivity].
    + destruct (String.eqb_spec z y) as [-> | Hzy].
      * destruct (String.eqb_spec x y); [congruence | reflexivity].
      * exact IH.
Qed.

Lemma find_entry_In (x : string) (c : node) (es : list (string * node)) :
  find_entry x es = Some c -> In (x, c) es.
Proof.
  induction es as [ | [z d] t IH]; simpl; [discriminate | ].
  destruct (String.eqb_spec z x) as [-> | _].
  - intros [= ->]. now left.
  - intros H. right. now apply IH.
Qed.

Lemma In_find_entry (x : string) (c : node) (es : list (string * node)) :
  NoDup (map fst es) -> In (x, c) es -> find_entry x es = Some c.
Proof.
  induction es as [ | [z d] t IH]; simpl; [intros _ [] | ].
  intros Hnd [[= -> ->] | Hin].
  - now rewrite String.eqb_refl.
  - inversion Hnd as [ | ? ? Hz Ht]; subst.
    destruct (String.eqb_spec z x) as [-> | _].
    + exfalso. apply Hz. apply (in_map fst) in Hin. exact Hin.
    + now apply IH.
Qed.

Lemma lookup_app (n : node) (p q : path) :
  lookup n (p ++ q)
  = match lookup n p with Some m => lookup m q | None => None end.
Proof.
  revert n. induction p as [ | x p IH]; intros n; simpl; [reflexivity | ].
  destruct n as [ | es]; [reflexivity | ].
  destruct (find_entry x es); [apply IH | reflexivity].
Qed.

(** Whatever exists lies in a directory. *)
Lemma kind_at_parent (n : node) (p q : path) :
  q <> [] -> kind_at n (p ++ q) <> None -> kind_at n p = Some KDir.
Proof.
  unfold kind_at. rewrite lookup_app.
  destruct (lookup n p) as [[ | es] | ]; simpl; intros Hq H.
  - destruct q; [contradiction | now simpl in H].
  - reflexivity.
  - contradiction.
Qed.

(** The kinds after the removal of what is at [p]. *)
Lemma kind_at_remove (n : node) (p q : path) :
  p <> [] ->
  kind_at (remove_at n p) q = if is_prefix p q then None else kind_at n q.
Proof.
  unfold kind_at. revert n q.
  induction p as [ | x p IH]; intros n q Hp; [contradiction | ].
  destruct n as [ | es].
  - assert (E : remove_at File (x :: p) = File) by (destruct p; reflexivity).
    rewrite E. destruct q as [ | y q]; simpl; [reflexivity | ].
    match goal with |- _ = (if ?b then _ else _) => now destruct b end.
  - destruct q as [ | y q].
    + destruct p; reflexivity.
    + destruct p as [ | x' p'].
      * simpl. rewrite find_entry_remove.
        destruct (String.eqb x y); reflexivity.
      * change (remove_at (Dir es) (x :: x' :: p'))
          with (Dir (map_entry x (fun c => remove_at c (x' :: p')) es)).
        change (is_prefix (x :: x' :: p') (y :: q))
          with (String.eqb x y && is_prefix (x' :: p') q).
        simpl lookup. rewrite find_entry_map.
        destruct (String.eqb_spec x y) as [-> | Hxy]; simpl andb; [ | reflexivity].
        destruct (find_entry y es) as [c | ]; simpl.
        -- apply IH. discriminate.
        -- match goal with |- _ = (if ?b then _ else _) => now destruct b end.
Qed.

(** An empty directory: a directory without a child. *)
Lemma lookup_empty_dir (n : node) (p : path) :
  lookup n p = Some (Dir []) <->
  kind_at n p = Some KDir /\ forall x, kind_at n (p ++ [x]) = None.
Proof.
  unfold kind_at. split.
  - intros H. rewrite H. split; [reflexivity | ].
    intros x. now rewrite lookup_app, H.
  - intros [Hk Hc].
    destruct (lookup n p) as [[ | es] | ] eqn:E; try discriminate.
    destruct es as [ | [x c] t]; [reflexivity | ].
    specialize (Hc x). rewrite lookup_app, E in Hc. simpl in Hc.
    rewrite String.eqb_refl in Hc. discriminate.
Qed.

Lemma wf_lookup (n m : node) (p : path) :
  wf n -> lookup n p = Some m -> wf m.
Proof.
  revert n. induction p as [ | x p IH]; intros n Hwf; simpl.
  - now intros [= <-].
  - destruct n as [ | es]; [discriminate | ].
    destruct (find_entry x es) as [c | ] eqn:E; [ | discriminate].
    apply IH. inversion Hwf as [ | ? _ Hall]; subst.
    rewrite Forall_forall in Hall.
    exact (Hall _ (find_entry_In _ _ _ E)).
Qed.

Lemma flat_map_flat_map {A B C : Type} (f : B -> list C) (g : A -> list B)
      (l : list A) :
  flat_map f (flat_map g l) = flat_map (fun x => flat_map f (g x)) l.
Proof.
  induction l as [ | x t IH]; simpl; [reflexivity | ].
  now rewrite flat_map_app, IH.
Qed.

(** The subdirectories that a walk collects: the children of the top,
    then what the walk of each child collects. *)
Lemma join_dirs_walk_node (top : path) (es : list (string * node)) :
  join_dirs (walk_node top (Dir es))
  = map (join top) (dirnames es)
    ++ flat_map (fun e => join_dirs (walk_node (join top (fst e)) (snd e))) es.
Proof.
  unfold join_dirs at 1. simpl. f_equal. apply flat_map_flat_map.
Qed.

Lemma in_dirnames (x : string) (es : list (string * node)) :
  In x (dirnames es) <-> exists ds, In (x, Dir ds) es.
Proof.
  unfold dirnames. rewrite in_map_iff. split.
  - intros [[y c] [Hy Hin]]. simpl in Hy. subst y.
    apply filter_In in Hin. destruct Hin as [Hin Hd].
    destruct c as [ | ds]; [discriminate | now exists ds].
  - intros [ds Hin]. exists (x, Dir ds). split; [reflexivity | ].
    apply filter_In. now split.
Qed.

(** Every collected path is the top extended by one component or more. *)
Lemma join_dirs_shape (n : node) :
  forall top q, In q (join_dirs (walk_node top n)) ->
                exists r x, q = top ++ r ++ [x].
Proof.
  induction n as [ | es IH] using node_induction; intros top q Hin.
  - destruct Hin.
  - rewrite join_dirs_walk_node in Hin. apply in_app_or in Hin.
    destruct Hin as [Hin | Hin].
    + apply in_map_iff in Hin. destruct Hin as [x [<- _]]. now exists [], x.
    + apply in_flat_map in Hin. destruct Hin as [[y c] [He Hq]].
      rewrite Forall_forall in IH.
      destruct (IH _ He _ _ Hq) as [r [x ->]].
      exists (y :: r), x. unfold join. simpl. now rewrite <- app_assoc.
Qed.

(** In a well-formed tree every collected path names a directory. *)
Lemma join_dirs_sound (n : node) :
  wf n ->
  forall top q, In q (join_dirs (walk_node top n)) ->
                exists r, r <> [] /\ q = top ++ r /\ kind_at n r = Some KDir.
Proof.
  induction n as [ | es IH] using node_induction; intros Hwf top q Hin.
  - destruct Hin.
  - inversion Hwf as [ | ? Hnd Hall]; subst.
    rewrite join_dirs_walk_node in Hin. apply in_app_or in Hin.
    destruct Hin as [Hin | Hin].
    + apply in_map_iff in Hin. destruct Hin as [x [<- Hx]].
      apply in_dirnames in Hx. destruct Hx as [ds Hx].
      exists [x]. split; [discriminate | split; [reflexivity | ]].
      unfold kind_at. simpl. now rewrite (In_find_entry _ _ _ Hnd Hx).
    + apply in_flat_map in Hin. destruct Hin as [[y c] [He Hq]].
      rewrite Forall_forall in IH, Hall.
      destruct (IH _ He (Hall _ He) _ _ Hq) as [r [Hr [-> Hk]]].
      exists (y :: r). split; [discriminate | split].
      * unfold join. simpl. now rewrite <- app_assoc.
      * unfold kind_at in *. simpl. now rewrite (In_find_entry _ _ _ Hnd He).
Qed.

(** Every directory below the top is collected. *)
Lemma join_dirs_complete (r : path) :
  forall n top, r <> [] -> kind_at n r = Some KDir ->
                In (top ++ r) (join_dirs (walk_node top n)).
Proof.
  induction r as [ | y r IH]; intros n top Hr Hk; [contradiction | ].
  unfold kind_at in Hk. simpl in Hk.
  destruct n as [ | es]; [discriminate | ].
  destruct (find_entry y es) as [c | ] eqn:E; [ | discriminate].
  rewrite join_dirs_walk_node. apply in_or_app.
  destruct r as [ | z r].
  - left. simpl in Hk. destruct c as [ | ds]; [discriminate | ].
    change (top ++ [y]) with (join top y).
    apply in_map. apply in_dirnames. exists ds. exact (find_entry_In _ _ _ E).
  - right. apply in_flat_map. exists (y, c). split; [exact (find_entry_In _ _ _ E) | ].
    simpl. replace (top ++ y :: z :: r) with (join top y ++ z :: r)
      by (unfold join; now rewrite <- app_assoc).
    apply IH; [discriminate | exact Hk].
Qed.

Lemma NoDup_map_injective {A B : Type} (f : A -> B) (l : list A) :
  (forall x y, f x = f y -> x = y) -> NoDup l -> NoDup (map f l).
Proof.
  intros Hf Hl. induction Hl as [ | x t Hx _ IH]; simpl; constructor; [ | exact IH].
  intros Hin. apply in_map_iff in Hin. destruct Hin as [y [Hy Hin]].
  apply Hf in Hy. now subst y.
Qed.

Lemma NoDup_dirnames (es : list (string * node)) :
  NoDup (map fst es) -> NoDup (dirnames es).
Proof.
  unfold dirnames. induction es as [ | [x c] t IH]; simpl; intros Hnd; [constructor | ].
  inversion Hnd as [ | ? ? Hx Ht]; subst.
  destruct (is_dir_entry (x, c)); simpl; [constructor | now apply IH].
  - intros Hin. apply Hx. apply in_map_iff in Hin.
    destruct Hin as [e [He Hin]]. apply filter_In in Hin.
    apply in_map_iff. exists e. now split.
  - now apply IH.
Qed.

(** In a well-formed tree no path is collected twice. *)
Lemma join_dirs_NoDup (n : node) :
  wf n -> forall top, NoDup (join_dirs (walk_node top n)).
Proof.
  induction n as [ | es IH] using node_induction; intros Hwf top.
  - constructor.
  - inversion Hwf as [ | ? Hnd Hall]; subst.
    rewrite join_dirs_walk_node. apply NoDup_app.
    + apply NoDup_map_injective; [ | now apply NoDup_dirnames].
      intros x y H. unfold join in H. apply app_inv_head in H. now injection H.
    + clear Hwf. induction es as [ | [y c] t IHt]; simpl; [constructor | ].
      inversion Hnd as [ | ? ? Hy Ht]; subst.
      inversion Hall as [ | ? ? Hc Hall']; subst.
      inversion IH as [ | ? ? IHc IH']; subst.
      apply NoDup_app.
      * apply IHc. exact Hc.
      * apply IHt; assumption.
      * intros q Hq Hq'. apply in_flat_map in Hq'.
        destruct Hq' as [[z d] [Hz Hq']].
        apply join_dirs_shape in Hq. destruct Hq as [r [x ->]].
        apply join_dirs_shape in Hq'. destruct Hq' as [r' [x' Heq]].
        unfold join in Heq. simpl in Heq.
        rewrite <- !app_assoc in Heq. apply app_inv_head in Heq.
        simpl in Heq. injection Heq as -> _.
        apply Hy. apply (in_map fst) in Hz. exact Hz.
    + intros q Hq Hq'. apply in_map_iff in Hq. destruct Hq as [x [<- _]].
      apply in_flat_map in Hq'. destruct Hq' as [[z d] [_ Hq']].
      apply join_dirs_shape in Hq'. destruct Hq' as [r' [x' Heq]].
      unfold join in Heq. rewrite <- app_assoc in Heq.
      apply app_inv_head in Heq. simpl in Heq.
      injection Heq as _ Heq. now destruct r'.
Qed.

(** What [get_subdirs] returns on a well-formed tree: each directory
    strictly below the parent directory, once. *)
Lemma get_subdirs_spec (fs : node) (parent_dir : path) :
  wf fs ->
  NoDup (get_subdirs fs parent_dir) /\
  forall q, In q (get_subdirs fs parent_dir) <->
            below parent_dir q /\ kind_at fs q = Some KDir.
Proof.
  intros Hwf. unfold get_subdirs, walk.
  destruct (lookup fs parent_dir) as [n | ] eqn:E.
  - pose proof (wf_lookup _ _ _ Hwf E) as Hn. split.
    + now apply join_dirs_NoDup.
    + intros q. split.
      * intros Hin. destruct (join_dirs_sound _ Hn _ _ Hin) as [r [Hr [-> Hk]]].
        split; [now exists r | ].
        unfold kind_at in *. now rewrite lookup_app, E.
      * intros [[r [Hr ->]] Hk]. apply join_dirs_complete; [exact Hr | ].
        unfold kind_at in *. now rewrite lookup_app, E in Hk.
  - split; [constructor | ]. intros q. split; [intros [] | ].
    intros [[r [Hr ->]] Hk]. exfalso.
    unfold kind_at in Hk. rewrite lookup_app, E in Hk. discriminate.
Qed.

End FsTree.

Section FsRemoval.
Import Fs.

Lemma kind_at_none_app (t : node) (p r : path) :
  kind_at t p = None -> kind_at t (p ++ r) = None.
Proof.
  unfold kind_at. rewrite lookup_app.
  destruct (lookup t p); [discriminate | reflexivity].
Qed.

Lemma is_empty_dir_spec (t : node) (p : path) :
  is_empty_dir t p = true <->
  kind_at t p = Some KDir /\ forall x, kind_at t (p ++ [x]) = None.
Proof.
  rewrite <- lookup_empty_dir. unfold is_empty_dir.
  destruct (lookup t p) as [[ | [ | e es]] | ]; split;
    intros H; try discriminate; reflexivity.
Qed.

(** Nothing exists strictly below an empty directory. *)
Lemma is_empty_dir_below (t : node) (p q : path) :
  is_empty_dir t p = true -> q <> [] -> kind_at t (p ++ q) = None.
Proof.
  intros H Hq. apply is_empty_dir_spec in H. destruct H as [_ H].
  destruct q as [ | x r]; [contradiction | ].
  change (x :: r) with ([x] ++ r). rewrite app_assoc.
  apply kind_at_none_app, H.
Qed.

(** What a successful [rmdir] does. *)
Lemma rmdir_ok (st st' : state) (p : path) :
  rmdir st p = Ok st' ->
  p <> [] /\ is_empty_dir (tree st) p = true /\
  removed st' = removed st ++ [p] /\
  kind_at (tree st') p = None /\
  forall q, q <> p -> kind_at (tree st') q = kind_at (tree st) q.
Proof.
  unfold rmdir. destruct p as [ | x p]; [discriminate | ].
  destruct (lookup (tree st) (x :: p)) as [[ | [ | e es]] | ] eqn:E;
    try discriminate.
  intros [= <-]. simpl.
  assert (He : is_empty_dir (tree st) (x :: p) = true)
    by (unfold is_empty_dir; now rewrite E).
  split; [discriminate | ]. split; [exact He | ]. split; [reflexivity | ].
  split.
  - rewrite kind_at_remove by discriminate.
    now rewrite (proj2 (is_prefix_spec (x :: p) (x :: p)))
      by (exists []; now rewrite app_nil_r).
  - intros q Hq. rewrite kind_at_remove by discriminate.
    destruct (is_prefix (x :: p) q) eqn:Ep; [ | reflexivity].
    apply is_prefix_spec in Ep. destruct Ep as [r ->].
    symmetry. apply is_empty_dir_below; [exact He | ].
    intros ->. apply Hq. now rewrite app_nil_r.
Qed.

(** [rmdir] on a directory below the top: it succeeds, or the directory
    has an entry. *)
Lemma rmdir_cases (st : state) (p : path) :
  p <> [] -> kind_at (tree st) p = Some KDir ->
  (exists st', rmdir st p = Ok st') \/
  (exists e x, rmdir st p = Raise e /\ kind_at (tree st) (p ++ [x]) <> None).
Proof.
  intros Hp Hk. unfold rmdir. destruct p as [ | y p]; [contradiction | ].
  unfold kind_at in Hk.
  destruct (lookup (tree st) (y :: p)) as [[ | [ | [x c] es]] | ] eqn:E;
    try discriminate.
  - left. eexists. reflexivity.
  - right. exists OSError, x. split; [reflexivity | ].
    unfold kind_at. rewrite lookup_app, E. simpl.
    rewrite String.eqb_refl. discriminate.
Qed.

Lemma rmdir_empty (st : state) (p : path) :
  p <> [] -> is_empty_dir (tree st) p = true -> exists st', rmdir st p = Ok st'.
Proof.
  intros Hp He. unfold rmdir, is_empty_dir in *.
  destruct p as [ | y p]; [contradiction | ].
  destruct (lookup (tree st) (y :: p)) as [[ | [ | e es]] | ];
    try discriminate.
  eexists. reflexivity.
Qed.

Lemma below_not_nil (p q : path) : below p q -> q <> [].
Proof.
  intros [r [Hr ->]] H. apply app_eq_nil in H. destruct H as [_ H]. contradiction.
Qed.

Lemma below_irrefl (p : path) : ~ below p p.
Proof.
  intros [r [Hr H]]. apply Hr.
  rewrite <- (app_nil_r p) in H at 1. apply app_inv_head in H. now symmetry.
Qed.

(** [rmdir] keeps the log in agreement with the tree, and in an order in
    which nothing comes before what lies beneath it. *)
Lemma rmdir_logged (t0 : node) (st st' : state) (p : path) :
  logged t0 st -> bottom_up (removed st) ->
  rmdir st p = Ok st' ->
  logged t0 st' /\ bottom_up (removed st').
Proof.
  intros [Hshrink [Hlog Hnd]] Hbu Hrm.
  destruct (rmdir_ok _ _ _ Hrm) as [Hp [He [Hr [Hnone Hsame]]]].
  apply is_empty_dir_spec in He. destruct He as [Hk Hchild].
  assert (Hk0 : kind_at t0 p = Some KDir).
  { rewrite <- Hk. symmetry. apply Hshrink. rewrite Hk. discriminate. }
  assert (Hfresh : ~ In p (removed st)).
  { intros Hin. apply Hlog in Hin. destruct Hin as [_ Hin]. congruence. }
  split; [split; [ | split] | ].
  - intros q Hq. destruct (list_eq_dec string_dec q p) as [-> | Hne].
    + contradiction.
    + rewrite Hsame in * by exact Hne. now apply Hshrink.
  - intros q. rewrite Hr, in_app_iff. simpl. split.
    + intros [Hin | [<- | []]].
      * apply Hlog in Hin. destruct Hin as [Hq0 Hq]. split; [exact Hq0 | ].
        destruct (list_eq_dec string_dec q p) as [-> | Hne]; [exact Hnone | ].
        now rewrite Hsame.
      * now split.
    + intros [Hq0 Hq]. destruct (list_eq_dec string_dec q p) as [-> | Hne].
      * right. now left.
      * left. apply Hlog. split; [exact Hq0 | ]. now rewrite <- Hsame.
  - rewrite Hr. apply NoDup_app; [exact Hnd | repeat constructor; intros [] | ].
    intros a Ha [<- | []]. contradiction.
  - rewrite Hr. intros l1 q l2 Heq e Hin Hbelow.
    destruct l2 as [ | z l2] using rev_ind.
    + apply app_inj_tail in Heq. destruct Heq as [<- <-].
      apply Hlog in Hin. destruct Hin as [_ Hin].
      destruct Hbelow as [r [Hr' ->]].
      rewrite (kind_at_none_app _ _ r Hin) in Hk. discriminate.
    + clear IHl2.
      rewrite app_comm_cons, app_assoc in Heq.
      apply app_inj_tail in Heq. destruct Heq as [Heq _].
      exact (Hbu _ _ _ Heq e Hin Hbelow).
Qed.

Lemma prune_logged (t0 : node) (heads : list path) :
  forall st, logged t0 st -> bottom_up (removed st) ->
             logged t0 (prune st heads) /\ bottom_up (removed (prune st heads)).
Proof.
  induction heads as [ | h rest IH]; intros st Hl Hb; simpl; [now split | ].
  destruct (rmdir st h) as [st' | e] eqn:E; [ | now split].
  destruct (rmdir_logged _ _ _ _ Hl Hb E) as [Hl' Hb']. now apply IH.
Qed.

Lemma removedirs_logged (t0 : node) (st st' : state) (name : path) :
  logged t0 st -> bottom_up (removed st) ->
  removedirs st name = Ok st' ->
  logged t0 st' /\ bottom_up (removed st').
Proof.
  intros Hl Hb. unfold removedirs.
  destruct (rmdir st name) as [st1 | e] eqn:E; simpl; [ | discriminate].
  intros [= <-]. destruct (rmdir_logged _ _ _ _ Hl Hb E) as [Hl' Hb'].
  now apply prune_logged.
Qed.

Lemma remove_all_logged (t0 : node) (dirs : list path) :
  forall st st', logged t0 st -> bottom_up (removed st) ->
                 remove_all st dirs = Ok st' ->
                 logged t0 st' /\ bottom_up (removed st').
Proof.
  induction dirs as [ | d rest IH]; intros st st' Hl Hb; simpl.
  - intros [= <-]. now split.
  - destruct (removedirs st d) as [st1 | e] eqn:E; simpl; [ | discriminate].
    destruct (removedirs_logged _ _ _ _ Hl Hb E) as [Hl' Hb']. now apply IH.
Qed.

Lemma start_logged (t0 : node) :
  logged t0 (start t0) /\ bottom_up (removed (start t0)).
Proof.
  split; [split; [ | split] | ]; simpl.
  - reflexivity.
  - intros p. split; [intros [] | intros [H1 H2]; congruence].
  - constructor.
  - intros l1 p l2 H. now destruct l1.
Qed.

(** ** The tree between two runs of [removedirs] *)

Lemma cleared_subset (t0 : node) (S S' : path -> Prop) (p : path) :
  (forall q, S q -> S' q) -> cleared t0 S p -> cleared t0 S' p.
Proof.
  intros HS [Hp [Hte Hl]]. split; [exact Hp | split; [exact Hte | ]].
  intros q Hq. apply HS, Hl, Hq.
Qed.

(** A directory beneath a cleared directory is cleared. *)
Lemma cleared_down (t0 : node) (S : path -> Prop) (p r : path) :
  cleared t0 S p -> kind_at t0 (p ++ r) = Some KDir -> cleared t0 S (p ++ r).
Proof.
  intros [Hp [[Hk Hnf] Hl]] Hkr. split; [ | split; [split | ]].
  - intros H. apply app_eq_nil in H. destruct H as [H _]. contradiction.
  - exact Hkr.
  - intros q. rewrite <- app_assoc. apply Hnf.
  - intros q. rewrite <- app_assoc. apply Hl.
Qed.

(** A directory that holds no file holds an empty directory, or is one. *)
Lemma empty_dir_exists (n : node) :
  (forall q, kind_at n q <> Some KFile) ->
  exists q, is_empty_dir n q = true.
Proof.
  induction n as [ | es IH] using node_induction; intros Hnf.
  - exfalso. apply (Hnf []). reflexivity.
  - destruct es as [ | [x c] t]; [now exists [] | ].
    inversion IH as [ | ? ? IHc _]; subst. simpl in IHc.
    destruct IHc as [q Hq].
    + intros q. specialize (Hnf (x :: q)). unfold kind_at in *. simpl in Hnf.
      now rewrite String.eqb_refl in Hnf.
    + exists (x :: q). unfold is_empty_dir in *. simpl.
      now rewrite String.eqb_refl.
Qed.

Lemma transitively_empty_has_empty_dir (t0 : node) (p : path) :
  transitively_empty t0 p -> exists q, is_empty_dir t0 (p ++ q) = true.
Proof.
  intros [Hk Hnf]. unfold kind_at in Hk.
  destruct (lookup t0 p) as [n | ] eqn:E; [ | discriminate].
  destruct (empty_dir_exists n) as [q Hq].
  - intros q. specialize (Hnf q). unfold kind_at in *.
    now rewrite lookup_app, E in Hnf.
  - exists q. unfold is_empty_dir in *. now rewrite lookup_app, E.
Qed.

Lemma pruned_start (t0 : node) : pruned t0 (fun _ => False) t0.
Proof.
  split; [split; intros p H; exact H | ].
  intros p Hk. left. split; [exact Hk | ].
  intros [_ [Hte Hl]].
  destruct (transitively_empty_has_empty_dir _ _ Hte) as [q Hq].
  exact (Hl q Hq).
Qed.

Lemma cleared_ext (t0 : node) (S S' : path -> Prop) (p : path) :
  (forall q, S q <-> S' q) -> cleared t0 S p <-> cleared t0 S' p.
Proof.
  intros HS. split; apply cleared_subset; intros q; apply HS.
Qed.

Lemma pruned_ext (t0 : node) (S S' : path -> Prop) (t : node) :
  (forall q, S q <-> S' q) -> pruned t0 S t -> pruned t0 S' t.
Proof.
  intros HS [Hf Hs]. split; [exact Hf | ].
  intros p Hk. destruct (Hs p Hk) as [[H1 H2] | [H1 H2]]; [left | right];
    (split; [exact H1 | ]); now rewrite <- (cleared_ext t0 S S' p HS).
Qed.

(** An empty directory is cleared as soon as it is in the set. *)
Lemma cleared_empty_dir (t0 : node) (S : path -> Prop) (l : path) :
  l <> [] -> is_empty_dir t0 l = true -> S l -> cleared t0 S l.
Proof.
  intros Hl He HS.
  pose proof (proj1 (is_empty_dir_spec _ _) He) as [Hk _].
  split; [exact Hl | split; [split; [exact Hk | ] | ]].
  - intros q. destruct q as [ | x r].
    + rewrite app_nil_r, Hk. discriminate.
    + rewrite (is_empty_dir_below _ _ (x :: r) He) by discriminate. discriminate.
  - intros q Hq. destruct q as [ | x r]; [now rewrite app_nil_r | ].
    apply is_empty_dir_spec in Hq. destruct Hq as [Hq _].
    rewrite (is_empty_dir_below _ _ (x :: r) He) in Hq by discriminate.
    discriminate.
Qed.

(** The first step of [removedirs] on an empty directory of [t0] that is
    not yet in the set: the leaf goes. *)
Lemma rmdir_leaf_climbing (t0 : node) (S : path -> Prop) (st : state)
      (l : path) :
  pruned t0 S (tree st) ->
  l <> [] -> is_empty_dir t0 l = true -> ~ S l ->
  exists st1, rmdir st l = Ok st1 /\
              climbing t0 (fun q => S q \/ q = l) l (tree st1).
Proof.
  intros [[Hfile Hnone] Hs] Hl He HS.
  pose proof (proj1 (is_empty_dir_spec _ _) He) as [Hk0 Hc0].
  assert (Hk : kind_at (tree st) l = Some KDir).
  { destruct (Hs l Hk0) as [[H _] | [_ [_ [_ H]]]]; [exact H | ].
    exfalso. apply HS. rewrite <- (app_nil_r l). apply H.
    now rewrite app_nil_r. }
  assert (Het : is_empty_dir (tree st) l = true).
  { apply is_empty_dir_spec. split; [exact Hk | ].
    intros x. apply Hnone, Hc0. }
  destruct (rmdir_empty st l Hl Het) as [st1 Hrm].
  exists st1. split; [exact Hrm | ].
  destruct (rmdir_ok _ _ _ Hrm) as [_ [_ [_ [Hgone Hsame]]]].
  assert (Hcl : cleared t0 (fun q => S q \/ q = l) l)
    by (apply cleared_empty_dir; auto).
  split; [split | split; [ | split; [ | split]]].
  - intros p Hp. rewrite Hsame; [now apply Hfile | ].
    intros ->. congruence.
  - intros p Hp. destruct (list_eq_dec string_dec p l) as [-> | Hne];
      [exact Hgone | ]. rewrite Hsame by exact Hne. now apply Hnone.
  - intros p Hp. destruct (list_eq_dec string_dec p l) as [-> | Hne].
    { right. right. now split. }
    destruct (Hs p Hp) as [[H1 H2] | [H1 H2]].
    + destruct (is_prefix p l) eqn:Epl.
      * left. apply is_prefix_spec in Epl. destruct Epl as [r Hr].
        exists r. split; [ | exact Hr].
        intros ->. apply Hne. now rewrite app_nil_r in Hr.
      * right. left. split; [now rewrite Hsame | ].
        intros [Hp' [Hte Hall]]. apply H2.
        split; [exact Hp' | split; [exact Hte | ]].
        intros q Hq. destruct (Hall q Hq) as [HSq | Heq]; [exact HSq | ].
        exfalso. rewrite <- Heq, is_prefix_app in Epl. discriminate.
    + right. right. split; [now rewrite Hsame | ].
      apply (cleared_subset t0 S _ p); [ | exact H2]. intros q Hq. now left.
  - intros p Hp. pose proof (below_irrefl l) as Hir.
    rewrite Hsame by (intros ->; contradiction).
    destruct Hp as [r [Hr ->]].
    apply (kind_at_parent _ _ r Hr). rewrite Hk. discriminate.
  - exact Hgone.
  - exact Hcl.
Qed.

Lemma parents_last (x : string) : parents [x] = [].
Proof. reflexivity. Qed.

Lemma parents_snoc (h : path) (x : string) :
  h <> [] -> parents (h ++ [x]) = h :: parents h.
Proof.
  intros Hh. unfold parents. rewrite length_app.
  assert (Hlen : (length h + length [x] - 1 = S (length h - 1))%nat)
    by (destruct h; [contradiction | simpl; lia]).
  rewrite Hlen, seq_S, rev_app_distr.
  cbn [rev app map].
  replace (1 + (length h - 1))%nat with (length h)
    by (destruct h; [contradiction | simpl; lia]).
  rewrite firstn_app, firstn_all, Nat.sub_diag. cbn [firstn].
  rewrite app_nil_r.
  apply (f_equal (cons h)). apply map_ext_in. intros k Hk.
  apply in_rev, in_seq in Hk.
  rewrite firstn_app.
  replace (k - length h)%nat with 0%nat by lia.
  cbn [firstn]. now rewrite app_nil_r.
Qed.

Lemma below_snoc (p h : path) (x : string) :
  below p (h ++ [x]) -> exists r, h = p ++ r.
Proof.
  intros [r [Hr Heq]].
  destruct r as [ | y r] using rev_ind; [contradiction | ].
  rewrite app_assoc in Heq. apply app_inj_tail in Heq.
  destruct Heq as [-> _]. now exists r.
Qed.

(** The loop of [removedirs]: from the directory just removed up to the
    first ancestor that keeps an entry. *)
Lemma prune_climbing (t0 : node) (S : path -> Prop) (c : path) :
  forall st, climbing t0 S c (tree st) ->
             pruned t0 S (tree (prune st (parents c))).
Proof.
  induction c as [ | x h IH] using rev_ind; intros st Hc.
  - destruct Hc as [_ [_ [_ [_ [Hnil _]]]]]. now contradiction Hnil.
  - destruct Hc as [[Hfile Hnone] [Hs [Hup [Hgone Hcl]]]].
    assert (Hstop : ~ cleared t0 S h \/ h = [] ->
                    pruned t0 S (tree st)).
    { intros Hno. split; [now split | ].
      intros p Hp. destruct (Hs p Hp) as [Hb | Hset]; [ | exact Hset].
      left. split; [now apply Hup | ].
      destruct (below_snoc _ _ _ Hb) as [r ->].
      intros Hclp. destruct Hno as [Hno | Hnil].
      - apply Hno. apply cleared_down; [exact Hclp | ].
        destruct Hcl as [_ [[Hkc _] _]].
        apply (kind_at_parent t0 (p ++ r) [x]); [discriminate | ].
        rewrite Hkc. discriminate.
      - apply app_eq_nil in Hnil. destruct Hnil as [-> _].
        now destruct Hclp as [Hclp _]. }
    destruct h as [ | y h'] eqn:Eh.
    { simpl. apply Hstop. now right. }
    rewrite <- Eh in *. assert (Hh : h <> []) by (rewrite Eh; discriminate).
    clear Eh. rewrite (parents_snoc h x Hh). simpl.
    assert (Hkh : kind_at (tree st) h = Some KDir).
    { apply Hup. exists [x]. split; [discriminate | reflexivity]. }
    assert (Hkh0 : kind_at t0 h = Some KDir).
    { destruct (kind_at t0 h) as [[ | ] | ] eqn:E.
      - apply Hfile in E. congruence.
      - reflexivity.
      - apply Hnone in E. congruence. }
    destruct (rmdir_cases st h Hh Hkh) as [[st' Hrm] | [e [z [Hrm Hz]]]];
      rewrite Hrm.
    + (* the parent was empty: it goes, and the loop goes on from it *)
      apply IH.
      destruct (rmdir_ok _ _ _ Hrm) as [_ [He [_ [Hgone' Hsame]]]].
      apply is_empty_dir_spec in He. destruct He as [_ Hchild].
      assert (Hchild0 : forall z r, kind_at t0 (h ++ z :: r) <> None ->
                                    cleared t0 S (h ++ [z]) /\
                                    kind_at t0 (h ++ [z]) = Some KDir).
      { intros z r Hex.
        assert (Hz0 : kind_at t0 (h ++ [z]) <> None).
        { intros Hn. apply Hex. change (z :: r) with ([z] ++ r).
          rewrite app_assoc. now apply kind_at_none_app. }
        destruct (kind_at t0 (h ++ [z])) as [[ | ] | ] eqn:E.
        - apply Hfile in E. rewrite Hchild in E. discriminate.
        - split; [ | reflexivity].
          destruct (Hs _ E) as [Hb | [[H1 _] | [_ H2]]].
          + exfalso. destruct Hb as [r' [Hr' Heq]].
            apply (f_equal (@length string)) in Heq.
            rewrite !length_app in Heq. simpl in Heq.
            destruct r'; [contradiction | simpl in Heq; lia].
          + rewrite Hchild in H1. discriminate.
          + exact H2.
        - contradiction. }
      assert (Hclh : cleared t0 S h).
      { split; [exact Hh | split; [split; [exact Hkh0 | ] | ]].
        - intros q. destruct q as [ | z r].
          + rewrite app_nil_r, Hkh0. discriminate.
          + intros Hq.
            destruct (Hchild0 z r) as [[_ [[_ Hnf] _]] _];
              [rewrite Hq; discriminate | ].
            apply (Hnf r). now rewrite <- app_assoc.
        - intros q Hq. destruct q as [ | z r].
          + exfalso. rewrite app_nil_r in Hq.
            apply is_empty_dir_spec in Hq. destruct Hq as [_ Hq].
            destruct Hcl as [_ [[Hkc _] _]]. rewrite Hq in Hkc. discriminate.
          + pose proof (proj1 (is_empty_dir_spec _ _) Hq) as [Hkq _].
            destruct (Hchild0 z r) as [[_ [_ Hall]] _];
              [rewrite Hkq; discriminate | ].
            specialize (Hall r). rewrite <- app_assoc in Hall.
            now apply Hall. }
      split; [split | split; [ | split; [ | split]]].
      * intros p Hp. rewrite Hsame; [now apply Hfile | ].
        intros ->. congruence.
      * intros p Hp. destruct (list_eq_dec string_dec p h) as [-> | Hne];
          [exact Hgone' | ]. rewrite Hsame by exact Hne. now apply Hnone.
      * intros p Hp. destruct (list_eq_dec string_dec p h) as [-> | Hne].
        { right. right. now split. }
        destruct (Hs p Hp) as [Hb | [[H1 H2] | [H1 H2]]].
        -- left. destruct (below_snoc _ _ _ Hb) as [r Hr].
           exists r. split; [ | exact Hr].
           intros ->. apply Hne. now rewrite app_nil_r in Hr.
        -- right. left. split; [now rewrite Hsame | exact H2].
        -- right. right. split; [now rewrite Hsame | exact H2].
      * intros p Hp. pose proof (below_irrefl h) as Hir.
        rewrite Hsame by (intros ->; contradiction).
        apply Hup. destruct Hp as [r [Hr ->]].
        exists (r ++ [x]). split; [now destruct r | now rewrite app_assoc].
      * exact Hgone'.
      * exact Hclh.
    + (* the parent keeps an entry: the loop stops *)
      apply Hstop. left. intros Hclh.
      assert (Hz0 : kind_at t0 (h ++ [z]) <> None).
      { intros Hn. apply Hz. now apply Hnone. }
      destruct (kind_at t0 (h ++ [z])) as [[ | ] | ] eqn:E.
      * destruct Hclh as [_ [[_ Hnf] _]]. now apply (Hnf [z]).
      * destruct (Hs _ E) as [Hb | [[_ H2] | [H1 _]]].
        -- destruct Hb as [r' [Hr' Heq]].
           apply (f_equal (@length string)) in Heq.
           rewrite !length_app in Heq. simpl in Heq.
           destruct r'; [contradiction | simpl in Heq; lia].
        -- apply H2. now apply cleared_down.
        -- contradiction.
      * contradiction.
Qed.

(** One run of [removedirs] on an empty directory of [t0]. *)
Lemma removedirs_pruned (t0 : node) (S : path -> Prop) (st : state)
      (l : path) :
  pruned t0 S (tree st) ->
  l <> [] -> is_empty_dir t0 l = true -> ~ S l ->
  exists st', removedirs st l = Ok st' /\
              pruned t0 (fun q => S q \/ q = l) (tree st').
Proof.
  intros Hp Hl He HS.
  destruct (rmdir_leaf_climbing t0 S st l Hp Hl He HS) as [st1 [Hrm Hc]].
  unfold removedirs. rewrite Hrm. simpl.
  eexists; split; [reflexivity | ]. now apply prune_climbing.
Qed.

Lemma remove_all_pruned (t0 : node) (dirs : list path) :
  forall (S : path -> Prop) (st : state),
    NoDup dirs ->
    (forall l, In l dirs -> l <> [] /\ is_empty_dir t0 l = true /\ ~ S l) ->
    pruned t0 S (tree st) ->
    exists st', remove_all st dirs = Ok st' /\
                pruned t0 (fun q => S q \/ In q dirs) (tree st').
Proof.
  induction dirs as [ | d rest IH]; intros S st Hnd Hdirs Hp; simpl.
  - eexists; split; [reflexivity | ].
    apply (pruned_ext t0 S _ (tree st)); [ | exact Hp]. intros q. tauto.
  - inversion Hnd as [ | ? ? Hd Hrest]; subst.
    destruct (Hdirs d (or_introl eq_refl)) as [Hd1 [Hd2 Hd3]].
    destruct (removedirs_pruned t0 S st d Hp Hd1 Hd2 Hd3) as [st1 [Hrm Hp1]].
    rewrite Hrm. simpl.
    destruct (IH (fun q => S q \/ q = d) st1 Hrest) as [st' [Hall Hp']].
    + intros l Hl. destruct (Hdirs l (or_intror Hl)) as [H1 [H2 H3]].
      split; [exact H1 | split; [exact H2 | ]].
      intros [HS | ->]; [now apply H3 | contradiction].
    + exact Hp1.
    + exists st'. split; [exact Hall | ].
      apply (pruned_ext t0 (fun q => (S q \/ q = d) \/ In q rest) _ (tree st'));
        [ | exact Hp']. intros q. split.
      * intros [[H | ->] | H]; auto.
      * intros [H | [<- | H]]; auto.
Qed.

(** The comprehension of [delete_empty_dirs] keeps the empty ones. *)
Lemma empty_among_filter (fs : node) (subdirs : list path) :
  (forall q, In q subdirs -> kind_at fs q = Some KDir) ->
  empty_among fs subdirs = Ok (filter (is_empty_dir fs) subdirs).
Proof.
  induction subdirs as [ | d rest IH]; intros Hk; simpl; [reflexivity | ].
  specialize (Hk d (or_introl eq_refl)) as Hd.
  rewrite IH by (intros q Hq; apply Hk; now right).
  unfold listdir, is_empty_dir, kind_at in *.
  destruct (lookup fs d) as [[ | [ | e es]] | ]; try discriminate; reflexivity.
Qed.

(** [delete_empty_dirs] on a well-formed tree: it returns, and what is
    left of the tree is fixed by the empty directories below the root. *)
Lemma delete_empty_dirs_pruned (t0 : node) (dir_path : path) :
  wf t0 ->
  exists st',
    delete_empty_dirs (start t0) dir_path = Ok st' /\
    pruned t0 (fun q => below dir_path q /\ is_empty_dir t0 q = true)
           (tree st') /\
    logged t0 st' /\ bottom_up (removed st').
Proof.
  intros Hwf. unfold delete_empty_dirs. simpl tree.
  destruct (get_subdirs_spec t0 dir_path Hwf) as [Hnd Hin].
  rewrite empty_among_filter by (intros q Hq; now apply Hin). simpl.
  destruct (remove_all_pruned t0 (filter (is_empty_dir t0)
                                         (get_subdirs t0 dir_path))
              (fun _ => False) (start t0)) as [st' [Hall Hp]].
  - now apply NoDup_filter.
  - intros l Hl. apply filter_In in Hl. destruct Hl as [Hl He].
    apply Hin in Hl. destruct Hl as [Hb _].
    split; [exact (below_not_nil _ _ Hb) | split; [exact He | tauto]].
  - apply pruned_start.
  - exists st'. split; [exact Hall | split].
    + apply (pruned_ext t0 (fun q => False \/
               In q (filter (is_empty_dir t0) (get_subdirs t0 dir_path)))
               _ (tree st')); [ | exact Hp].
      intros q. rewrite filter_In, Hin. split.
      * intros [[] | [[Hb _] He]]. now split.
      * intros [Hb He]. right. split; [split; [exact Hb | ] | exact He].
        now apply is_empty_dir_spec in He.
    + destruct (start_logged t0) as [Hl Hb].
      exact (remove_all_logged t0 _ _ _ Hl Hb Hall).
Qed.

End FsRemoval.

Section FsClaims.
Import Fs.

(** Below the root, a directory is cleared exactly when it holds no file. *)
Lemma cleared_below_root (t0 : node) (root p : path) :
  below root p ->
  cleared t0 (fun q => below root q /\ is_empty_dir t0 q = true) p
  <-> transitively_empty t0 p.
Proof.
  intros Hb. split; [now intros [_ [H _]] | ].
  intros Hte. split; [exact (below_not_nil _ _ Hb) | split; [exact Hte | ]].
  intros q Hq. split; [ | exact Hq].
  destruct Hb as [r [Hr ->]]. exists (r ++ q). split.
  - intros H. apply app_eq_nil in H. destruct H as [H _]. contradiction.
  - now rewrite app_assoc.
Qed.

(** A removed directory is a cleared one. *)
Lemma removed_iff_cleared (t0 : node) (S : path -> Prop) (st : state)
      (p : path) :
  pruned t0 S (tree st) -> logged t0 st ->
  kind_at t0 p = Some KDir ->
  (In p (removed st) <-> cleared t0 S p).
Proof.
  intros [_ Hs] [_ [Hlog _]] Hk. rewrite Hlog.
  destruct (Hs p Hk) as [[H1 H2] | [H1 H2]]; split.
  - intros [_ H]. congruence.
  - intros H. contradiction.
  - intros _. exact H2.
  - intros _. now split.
Qed.

Lemma single_chain_cleared (t0 : node) (S : path -> Prop) (r : path) :
  forall a, a <> [] -> single_chain t0 a r ->
            cleared t0 S (a ++ r) -> cleared t0 S a.
Proof.
  induction r as [ | x r IH]; intros a Ha Hch Hcl.
  - now rewrite app_nil_r in Hcl.
  - destruct Hch as [[c Hc] Hch].
    change (x :: r) with ([x] ++ r) in Hcl. rewrite app_assoc in Hcl.
    apply IH in Hcl; [ | now destruct a | exact Hch].
    destruct Hcl as [_ [[Hkx Hnf] Hl]].
    assert (Hka : kind_at t0 a = Some KDir)
      by (unfold kind_at; now rewrite Hc).
    assert (Hother : forall y q, y <> x -> lookup t0 (a ++ y :: q) = None).
    { intros y q Hy. rewrite lookup_app, Hc. simpl.
      destruct (String.eqb_spec x y); [congruence | reflexivity]. }
    split; [exact Ha | split; [split; [exact Hka | ] | ]].
    + intros q. destruct q as [ | y q].
      * rewrite app_nil_r, Hka. discriminate.
      * destruct (string_dec y x) as [-> | Hy].
        -- change (x :: q) with ([x] ++ q). rewrite app_assoc. apply Hnf.
        -- unfold kind_at. rewrite (Hother y q Hy). discriminate.
    + intros q Hq. destruct q as [ | y q].
      * exfalso. rewrite app_nil_r in Hq. unfold is_empty_dir in Hq.
        rewrite Hc in Hq. discriminate.
      * destruct (string_dec y x) as [-> | Hy].
        -- change (x :: q) with ([x] ++ q) in *. rewrite app_assoc in *.
           now apply Hl.
        -- exfalso. unfold is_empty_dir in Hq.
           rewrite (Hother y q Hy) in Hq. discriminate.
Qed.

End FsClaims.




(** C10.  When the root is not the top of the tree and every entry of
    the root is an empty directory, of which there is at least one,
    [delete_empty_dirs] removes the root itself, which is not a directory
    below the root, and with it every ancestor from which the way down to
    the root goes through directories with a single entry. *)
Theorem delete_empty_dirs_removes_root
        (t0 : Fs.node) (root : Fs.path) (es : list (string * Fs.node)) :
  Fs.wf t0 ->
  root <> [] ->
  Fs.lookup t0 root = Some (Fs.Dir es) ->
  es <> [] ->
  (forall e, In e es -> snd e = Fs.Dir []) ->
  exists st',
    Fs.delete_empty_dirs (Fs.start t0) root = Ok st' /\
    In root (Fs.removed st') /\
    ~ Fs.below root root /\
    Fs.kind_at (Fs.tree st') root = None /\
    forall a r, a <> [] -> root = a ++ r -> Fs.single_chain t0 a r ->
                In a (Fs.removed st') /\ Fs.kind_at (Fs.tree st') a = None.
Proof.
  intros Hwf Hroot Hlk Hes Hall.
  destruct (delete_empty_dirs_pruned t0 root Hwf) as [st' [Hrun [Hp [Hl Hb]]]].
  exists st'. split; [exact Hrun | ].
  assert (Hk : Fs.kind_at t0 root = Some Fs.KDir)
    by (unfold Fs.kind_at; now rewrite Hlk).
  assert (Hsub : forall x q c, Fs.find_entry x es = Some c ->
                               c = Fs.Dir [] /\
                               (q <> [] -> Fs.lookup c q = None)).
  { intros x q c Hc. apply find_entry_In in Hc. apply Hall in Hc. simpl in Hc.
    split; [exact Hc | ]. subst c. intros Hq. now destruct q. }
  assert (Hcl : Fs.cleared t0 (fun q => Fs.below root q /\
                                        Fs.is_empty_dir t0 q = true) root).
  { split; [exact Hroot | split; [split; [exact Hk | ] | ]].
    - intros q. unfold Fs.kind_at. rewrite lookup_app, Hlk.
      destruct q as [ | x q]; [discriminate | ]. simpl.
      destruct (Fs.find_entry x es) as [c | ] eqn:E; [ | discriminate].
      destruct (Hsub x q c E) as [-> Hq].
      destruct q; [discriminate | ]. simpl. discriminate.
    - intros q Hq. split; [ | exact Hq].
      exists q. split; [ | reflexivity]. intros ->.
      rewrite app_nil_r in Hq. unfold Fs.is_empty_dir in Hq.
      rewrite Hlk in Hq. destruct es; [contradiction | discriminate]. }
  assert (Hgone : forall a, Fs.kind_at t0 a = Some Fs.KDir ->
                    Fs.cleared t0 (fun q => Fs.below root q /\
                                            Fs.is_empty_dir t0 q = true) a ->
                    In a (Fs.removed st') /\ Fs.kind_at (Fs.tree st') a = None).
  { intros a Hka Hca.
    pose proof (proj2 (removed_iff_cleared t0 _ st' a Hp Hl Hka) Hca) as Hin.
    split; [exact Hin | ]. now apply (proj1 (proj2 Hl)) in Hin. }
  destruct (Hgone root Hk Hcl) as [Hin Hnone].
  split; [exact Hin | split; [apply below_irrefl | split; [exact Hnone | ]]].
  intros a r Ha -> Hch.
  pose proof (single_chain_cleared t0 _ r a Ha Hch Hcl) as Hca.
  apply Hgone; [ | exact Hca]. now destruct Hca as [_ [[H _] _]].
Qed.

Lemma delete_empty_dirs_removes_root_witness :
  exists st',
    Fs.delete_empty_dirs (Fs.start Fs.root_of_empty_dirs)
                         ["work"; "root"]%string
    = Ok st' /\
    In ["work"; "root"]%string (Fs.removed st') /\
    ~ Fs.below ["work"; "root"]%string ["work"; "root"]%string /\
    Fs.kind_at (Fs.tree st') ["work"; "root"]%string = None /\
    forall a r, a <> [] -> ["work"; "root"]%string = a ++ r ->
                Fs.single_chain Fs.root_of_empty_dirs a r ->
                In a (Fs.removed st') /\ Fs.kind_at (Fs.tree st') a = None.
Proof.
  apply (delete_empty_dirs_removes_root Fs.root_of_empty_dirs
           ["work"; "root"]%string
           [("x"%string, Fs.Dir []); ("y"%string, Fs.Dir [])]).
  - repeat (constructor; simpl; try (intuition discriminate)).
  - discriminate.
  - reflexivity.
  - discriminate.
  - intros e [<- | [<- | []]]; reflexivity.
Defined.

(** The run of C10's example: the two empty directories, then the root,
    then its parent. *)
Example delete_empty_dirs_root_of_empty_dirs :
  exists st',
    Fs.delete_empty_dirs (Fs.start Fs.root_of_empty_dirs)
                         ["work"; "root"]%string
    = Ok st' /\
    Fs.removed st' = [ ["work"; "root"; "x"]; ["work"; "root"; "y"];
                       ["work"; "root"]; ["work"] ]%string /\
    Fs.tree st' = Fs.Dir [("keep.txt"%string, Fs.File)].
Proof. eexists. split; [reflexivity | split; reflexivity]. Qed.

(** X1. [get_center_rectangle] raises [IndexError] exactly on the rings
    with fewer than three vertices; on every other ring it returns the
    midpoint of the first and the third vertex. *)
Theorem get_center_rectangle_needs_three_vertices (coords : list Utm.point) :
  (Utm.get_center_rectangle coords = Raise IndexError
   <-> (length coords < 3)%nat) /\
  (forall a b c rest, coords = a :: b :: c :: rest ->
     Utm.get_center_rectangle coords
     = Ok (((fst a + fst c) / 2)%float, ((snd a + snd c) / 2)%float)).
Proof.
  split.
  - destruct coords as [ | [x1 y1] [ | b [ | [x2 y2] rest]]]; simpl;
      (split; [intros H; try discriminate H; lia | intros H; try reflexivity; lia]).
  - intros [x1 y1] b [x2 y2] rest ->. reflexivity.
Qed.

Lemma get_center_rectangle_needs_three_vertices_witness :
  Utm.get_center_rectangle [(0, 0); (2, 0)]%float = Raise IndexError.
Proof.
  apply (proj1 (get_center_rectangle_needs_three_vertices
                  [(0, 0); (2, 0)]%float)).
  simpl. lia.
Defined.

(** X2. On a polygon whose ring has three vertices or more,
    [get_epsg_from_geometry] raises only through [math.floor]:
    [ValueError] when the sixth of the centre's longitude plus 180, as the
    floats give it, is not a number, and [OverflowError] when it is
    infinite.  Otherwise it returns a four-digit number 3261..3269 or
    3271..3279 (zones 1 to 9) or a five-digit number 32610..32660 or
    32710..32760 (zones 10 to 60). *)
Theorem get_epsg_from_geometry_codes
        (g : Utm.polygon) (a b c : Utm.point) (rest : list Utm.point) :
  Utm.exterior_coords g = a :: b :: c :: rest ->
  let q := (((fst a + fst c) / 2 + 180) / 6)%float in
  (is_nan q = true -> Utm.get_epsg_from_geometry g = Raise ValueError) /\
  (is_nan q = false -> is_infinity q = true ->
   Utm.get_epsg_from_geometry g = Raise OverflowError) /\
  (is_nan q = false -> is_infinity q = false ->
   exists n, Utm.get_epsg_from_geometry g = Ok n /\
             (3261 <= n <= 3269 \/ 32610 <= n <= 32660 \/
              3271 <= n <= 3279 \/ 32710 <= n <= 32760)%Z).
Proof.
  intros E q.
  assert (Hc : Utm.get_center_rectangle (Utm.exterior_coords g)
               = Ok (((fst a + fst c) / 2)%float, ((snd a + snd c) / 2)%float)).
  { rewrite E. destruct a, c. reflexivity. }
  assert (Hraise : forall e, Py.floor q = Raise e ->
                             Utm.get_epsg_from_geometry g = Raise e).
  { intros e He. unfold Utm.get_epsg_from_geometry. rewrite Hc. simpl.
    rewrite (convert_wgs_to_utm_raises _ _ e); [reflexivity | ].
    unfold Utm.utm_zone. fold q. now rewrite He. }
  destruct (floor_cases q) as [[Hn Hf] | [[Hn [Hi Hf]] | [Hn [Hi [z Hf]]]]];
    (split; [ | split]); intros H1; try congruence; try intros H2;
    try congruence.
  - now apply Hraise.
  - now apply Hraise.
  - assert (Hz : Utm.utm_zone (fst (((fst a + fst c) / 2)%float,
                                     ((snd a + snd c) / 2)%float))
                 = Ok (z mod 60 + 1)%Z).
    { unfold Utm.utm_zone. simpl fst. fold q. now rewrite Hf. }
    rewrite (get_epsg_from_geometry_value _ _ _ Hc Hz).
    eexists; split; [reflexivity | ].
    pose proof (utm_zone_range _ _ Hz) as Hr.
    destruct (Z.ltb_spec (z mod 60 + 1) 10);
      destruct (0 <=? snd (((fst a + fst c) / 2)%float,
                           ((snd a + snd c) / 2)%float))%float; lia.
Qed.

Lemma get_epsg_from_geometry_codes_witness :
  Utm.get_epsg_from_geometry Utm.nan_ring = Raise ValueError /\
  Utm.get_epsg_from_geometry Utm.far_ring = Raise OverflowError /\
  exists n, Utm.get_epsg_from_geometry Utm.paris = Ok n /\
            (3261 <= n <= 3269 \/ 32610 <= n <= 32660 \/
             3271 <= n <= 3279 \/ 32710 <= n <= 32760)%Z.
Proof.
  split; [ | split].
  - apply (get_epsg_from_geometry_codes Utm.nan_ring
             (nan, 0)%float (0, 1)%float (1, 1)%float [(1, 0)%float]);
      reflexivity.
  - apply (get_epsg_from_geometry_codes Utm.far_ring
             (1e308, 0)%float (1e308, 1)%float (1e308, 1)%float
             [(1e308, 0)%float]); reflexivity.
  - apply (get_epsg_from_geometry_codes Utm.paris
             (2.25, 48.75)%float (2.45, 48.75)%float (2.45, 48.95)%float
             [(2.25, 48.95); (2.25, 48.75)]%float); reflexivity.
Defined.

Section ScaleMore.
Import Resize.
Variable A : Type.

Lemma comprehension_In {B C : Type} (f : B -> result C) (l : list B)
      (ys : list C) :
  comprehension f l = Ok ys ->
  forall y, In y ys -> exists x, In x l /\ f x = Ok y.
Proof.
  revert ys. induction l as [ | x t IH]; intros ys; simpl.
  - intros [= <-] y [].
  - destruct (f x) as [y0 | e] eqn:Ex; simpl; [ | discriminate].
    destruct (comprehension f t) as [ys0 | e] eqn:Et; simpl; [ | discriminate].
    intros [= <-] y [<- | Hy].
    + exists x. split; [now left | exact Ex].
    + destruct (IH ys0 eq_refl y Hy) as [x' [Hx' Hf]].
      exists x'. split; [now right | exact Hf].
Qed.

Lemma getitem_In {B : Type} (l : list B) (i : Z) (x : B) :
  getitem l i = Ok x -> In x l.
Proof.
  unfold getitem.
  destruct ((0 <=? _) && _)%Z; [ | discriminate].
  destruct (nth_error l _) as [y | ] eqn:E; [ | discriminate].
  intros [= <-]. exact (nth_error_In _ _ E).
Qed.

Lemma In_firstn_skipn {B : Type} (n k : nat) (l : list B) (x : B) :
  In x (firstn n (skipn k l)) -> In x l.
Proof.
  intros H.
  rewrite <- (firstn_skipn k l). apply in_or_app. right.
  rewrite <- (firstn_skipn n (skipn k l)). apply in_or_app. now left.
Qed.

Lemma reshape_In {B : Type} (rows cols : nat) (flat : list B)
      (out : list (list B)) :
  reshape rows cols flat = Ok out ->
  forall row x, In row out -> In x row -> In x flat.
Proof.
  unfold reshape. destruct (_ =? _)%nat; [ | discriminate].
  intros [= <-] row x Hrow Hx.
  apply in_map_iff in Hrow. destruct Hrow as [r [<- _]].
  exact (In_firstn_skipn _ _ _ _ Hx).
Qed.

Lemma scale_cells_from_source (m : matrix A) (rows cols : nat)
      (out : matrix A) :
  scale m rows cols = Ok out ->
  forall row x, In row out -> In x row ->
                exists src_row, In src_row m /\ In x src_row.
Proof.
  unfold scale.
  destruct (getitem m 0) as [row0 | e]; simpl; [ | discriminate].
  match goal with
  | |- context [comprehension ?f (range rows)] =>
      destruct (comprehension f (range rows)) as [tmp | e] eqn:Etmp
  end; simpl; [ | discriminate].
  intros Hre row x Hrow Hx.
  pose proof (reshape_In _ _ _ _ Hre row x Hrow Hx) as Hin.
  apply in_concat in Hin. destruct Hin as [trow [Htrow Hxin]].
  destruct (comprehension_In _ _ _ Etmp trow Htrow) as [r [_ Hr]].
  destruct (comprehension_In _ _ _ Hr x Hxin) as [c [_ Hc]].
  destruct (truediv _ (Z.of_nat rows)) as [i | e]; simpl in Hc; [ | discriminate].
  destruct (getitem m (Py.trunc i)) as [srow | e] eqn:Erow; simpl in Hc;
    [ | discriminate].
  destruct (truediv _ (Z.of_nat cols)) as [j | e]; simpl in Hc; [ | discriminate].
  exists srow. split; [exact (getitem_In _ _ _ Erow) | exact (getitem_In _ _ _ Hc)].
Qed.

(** Without a cell to read, a request for a cell fails. *)
Lemma scale_no_cell (m : matrix A) (R C rows cols : nat) :
  rectangular m R C -> (R = 0 \/ C = 0)%nat ->
  (0 < rows)%nat -> (0 < cols)%nat ->
  scale m rows cols = Raise IndexError.
Proof.
  intros [HR HC] Hzero Hrows Hcols. unfold scale.
  destruct m as [ | row0 m']; [reflexivity | ].
  simpl in HR. destruct Hzero as [-> | ->]; [discriminate | ].
  inversion HC as [ | ? ? Hrow0 _]; subst.
  apply length_zero_iff_nil in Hrow0. subst row0.
  change (getitem ([] :: m') 0) with (Ok (@nil A) : result (list A)).
  simpl bind. unfold range.
  destruct rows as [ | rows]; [lia | ]. destruct cols as [ | cols]; [lia | ].
  reflexivity.
Qed.

End ScaleMore.

(** X5. [scale] never invents a value: every cell of the matrix it
    returns is a cell of the source matrix.  This holds for every source,
    rectangular or not, and every target shape. *)
Theorem scale_keeps_labels
        (A : Type) (m out : Resize.matrix A) (rows cols : nat) :
  Resize.scale m rows cols = Ok out ->
  forall r c x, Resize.cell out r c = Some x ->
                exists r' c', Resize.cell m r' c' = Some x.
Proof.
  intros Hs r c x Hcell. unfold Resize.cell in Hcell.
  destruct (nth_error out r) as [row | ] eqn:Er; [ | discriminate].
  destruct (scale_cells_from_source A m rows cols out Hs row x
              (nth_error_In _ _ Er) (nth_error_In _ _ Hcell))
    as [srow [Hsrow Hx]].
  apply In_nth_error in Hsrow. destruct Hsrow as [r' Hr'].
  apply In_nth_error in Hx. destruct Hx as [c' Hc'].
  exists r', c'. unfold Resize.cell. now rewrite Hr'.
Qed.

Lemma scale_keeps_labels_witness :
  exists r' c', Resize.cell [[1; 2; 3]; [4; 5; 6]]%Z r' c' = Some 5%Z.
Proof.
  apply (scale_keeps_labels Z [[1; 2; 3]; [4; 5; 6]]%Z
           [[1; 1; 2; 2; 3; 3]; [1; 1; 2; 2; 3; 3];
            [4; 4; 5; 5; 6; 6]; [4; 4; 5; 5; 6; 6]]%Z 4 6 eq_refl 2 2 5%Z).
  reflexivity.
Defined.

(** X6. On a source without a cell (no row, or rows without columns)
    [scale] raises [IndexError] as soon as the target has a cell. *)
Theorem scale_empty_source_raises
        (A : Type) (m : Resize.matrix A) (R C rows cols : nat) :
  Resize.rectangular m R C -> (R = 0 \/ C = 0)%nat ->
  (0 < rows)%nat -> (0 < cols)%nat ->
  Resize.scale m rows cols = Raise IndexError.
Proof.
  intros Hm Hz Hr Hc. exact (scale_no_cell A m R C rows cols Hm Hz Hr Hc).
Qed.

Lemma scale_empty_source_raises_witness :
  Resize.scale ([[]; []] : Resize.matrix Z) 2 2 = Raise IndexError.
Proof.
  apply (scale_empty_source_raises Z [[]; []] 2 0 2 2).
  - split; [reflexivity | repeat constructor].
  - now right.
  - lia.
  - lia.
Defined.

(** X7. Enlarging by whole factors repeats each source cell: for a
    source of R rows and C columns, cell (r, c) of [scale m (k * R) (j * C)]
    is the source cell (r / k, c / j). *)
Theorem scale_whole_factor_repeats
        (A : Type) (m : Resize.matrix A) (R C k j : nat) :
  Resize.rectangular m R C ->
  (0 < R)%nat -> (0 < C)%nat -> (0 < k)%nat -> (0 < j)%nat ->
  exists out,
    Resize.scale m (k * R) (j * C) = Ok out /\
    Resize.rectangular out (k * R) (j * C) /\
    forall r c, (r < k * R)%nat -> (c < j * C)%nat ->
      exists x, Resize.cell out r c = Some x /\
                Resize.cell m (r / k) (c / j) = Some x.
Proof.
  intros Hm HR HC Hk Hj.
  destruct (rectangular_cell _ _ _ _ Hm HR HC) as [d].
  assert (HkR : (0 < k * R)%nat) by nia.
  assert (HjC : (0 < j * C)%nat) by nia.
  rewrite (scale_value _ _ _ _ _ _ d Hm HR HC HkR HjC).
  eexists; split; [reflexivity | ].
  split; [apply rectangular_map_seq | ].
  intros r c Hr Hc.
  exists (nth (c / j) (nth (r / k) m []) d).
  assert (Hi : (r / k < R)%nat) by (apply Nat.Div0.div_lt_upper_bound; nia).
  assert (Hjj : (c / j < C)%nat) by (apply Nat.Div0.div_lt_upper_bound; nia).
  split; [ | exact (cell_nth _ _ _ _ _ _ d Hm Hi Hjj)].
  rewrite (cell_nth _ _ _ _ _ _ d (rectangular_map_seq _ _ (k * R) (j * C)) Hr Hc).
  rewrite (nth_map_seq _ _ _ _ Hr), (nth_map_seq _ _ _ _ Hc).
  rewrite (Nat.mul_comm k R), (Nat.mul_comm j C).
  rewrite !Nat.Div0.div_mul_cancel_l by lia. reflexivity.
Qed.

Lemma scale_whole_factor_repeats_witness :
  exists out,
    Resize.scale [[1; 2; 3]; [4; 5; 6]]%Z (2 * 2) (2 * 3) = Ok out /\
    Resize.rectangular out (2 * 2) (2 * 3) /\
    forall r c, (r < 2 * 2)%nat -> (c < 2 * 3)%nat ->
      exists x, Resize.cell out r c = Some x /\
                Resize.cell [[1; 2; 3]; [4; 5; 6]]%Z (r / 2) (c / 2) = Some x.
Proof.
  apply (scale_whole_factor_repeats Z [[1; 2; 3]; [4; 5; 6]]%Z 2 3 2 2).
  - split; [reflexivity | repeat constructor].
  - lia.
  - lia.
  - lia.
  - lia.
Defined.

(** X8. Enlarging by whole factors and shrinking back gives the source
    again: [scale (scale m (k * R) (j * C)) R C = m]. *)
Theorem scale_enlarge_then_shrink
        (A : Type) (m : Resize.matrix A) (R C k j : nat) :
  Resize.rectangular m R C ->
  (0 < R)%nat -> (0 < C)%nat -> (0 < k)%nat -> (0 < j)%nat ->
  exists big,
    Resize.scale m (k * R) (j * C) = Ok big /\
    Resize.scale big R C = Ok m.
Proof.
  intros Hm HR HC Hk Hj.
  destruct (rectangular_cell _ _ _ _ Hm HR HC) as [d].
  assert (HkR : (0 < k * R)%nat) by nia.
  assert (HjC : (0 < j * C)%nat) by nia.
  rewrite (scale_value _ _ _ _ _ _ d Hm HR HC HkR HjC).
  eexists; split; [reflexivity | ].
  rewrite (scale_value _ _ _ _ _ _ d
             (rectangular_map_seq _ _ (k * R) (j * C)) HkR HjC HR HC).
  f_equal.
  etransitivity; [ | apply (map_nth_seq m [])].
  pose proof Hm as [Hlen Hrows]. rewrite Hlen.
  apply map_ext_in. intros r Hr. apply in_seq in Hr.
  etransitivity; [ | apply (map_nth_seq (nth r m []) d)].
  rewrite (rectangular_row _ _ _ _ r Hm) by lia.
  apply map_ext_in. intros c Hc. apply in_seq in Hc.
  assert (Er : (k * R * r / R = k * r)%nat).
  { replace (k * R * r)%nat with (k * r * R)%nat by lia.
    apply Nat.div_mul. lia. }
  assert (Ec : (j * C * c / C = j * c)%nat).
  { replace (j * C * c)%nat with (j * c * C)%nat by lia.
    apply Nat.div_mul. lia. }
  rewrite Er, Ec.
  rewrite (nth_map_seq _ _ _ _ (ltac:(nia) : (k * r < k * R)%nat)).
  rewrite (nth_map_seq _ _ _ _ (ltac:(nia) : (j * c < j * C)%nat)).
  assert (Er' : (R * (k * r) / (k * R) = r)%nat).
  { replace (R * (k * r))%nat with (r * (k * R))%nat by lia.
    apply Nat.div_mul. lia. }
  assert (Ec' : (C * (j * c) / (j * C) = c)%nat).
  { replace (C * (j * c))%nat with (c * (j * C))%nat by lia.
    apply Nat.div_mul. lia. }
  now rewrite Er', Ec'.
Qed.

Lemma scale_enlarge_then_shrink_witness :
  exists big,
    Resize.scale [[1; 2; 3]; [4; 5; 6]]%Z (2 * 2) (3 * 3) = Ok big /\
    Resize.scale big 2 3 = Ok [[1; 2; 3]; [4; 5; 6]]%Z.
Proof.
  apply (scale_enlarge_then_shrink Z [[1; 2; 3]; [4; 5; 6]]%Z 2 3 2 3).
  - split; [reflexivity | repeat constructor].
  - lia.
  - lia.
  - lia.
  - lia.
Defined.

(** X11. The degenerate inputs: on an array without cells
    [rescale_array] raises [ValueError] (the [min] of an empty sequence); on
    an array whose values are all equal, of an integer dtype or of
    float64, it does not raise and returns an array of the same shape in
    which every cell is NaN (0 / 0). *)
Theorem rescale_array_degenerate
        (dat : Rescale.array) (mn mx : Rescale.number) :
  (Rescale.cells dat = 0%nat ->
   Rescale.rescale_array dat mn mx = Raise ValueError) /\
  (Rescale.cells dat <> 0%nat ->
   Rescale.supported dat mn mx = true ->
   Rescale.all_equal dat ->
   Rescale.rescale_array dat mn mx
   = Ok {| Rescale.shape := Rescale.shape_of dat;
           Rescale.data := repeat nan (Rescale.cells dat) |}).
Proof.
  split.
  - destruct dat as [t [sh l] | [sh l]]; simpl; intros H;
      apply length_zero_iff_nil in H; subst l; reflexivity.
  - intros Hne Hsup Hall.
    destruct dat as [t [sh l] | [sh l]]; simpl in Hne, Hall |- *;
      unfold Rescale.flatten; simpl Rescale.data.
    + assert (Hl : l <> []) by (intros ->; now apply Hne).
      destruct (min_In Z.ltb l Hl) as [m [-> Hm]].
      destruct (max_In Z.ltb l Hl) as [M [-> HM]].
      cbn [bind]. f_equal. f_equal.
      unfold Rescale.supported in Hsup.
      apply andb_prop in Hsup. destruct Hsup as [_ Hint].
      apply andb_prop in Hint. destruct Hint as [Hint _].
      apply andb_prop in Hint. destruct Hint as [Hbits _].
      assert (Hw : Rescale.wrap t 0 = 0%Z) by now apply wrap_zero.
      rewrite <- map_const.
      rewrite (Hall M m HM Hm), Z.sub_diag, Hw.
      destruct (Rescale.py_sub mx mn) as [d | d]; rewrite !map_map;
        apply map_ext_in; intros v Hv;
        rewrite (Hall v m Hv Hm), Z.sub_diag, Hw.
      * rewrite Z.mul_0_r, Hw.
        change (Rescale.to_float 0 / Rescale.to_float 0)%float with nan.
        apply nan_add.
      * rewrite (div_zero_or_nan (d * Rescale.to_float 0) (Rescale.to_float 0)).
        -- apply nan_add.
        -- apply mul_zero_or_nan. right. now exists false.
        -- right. now exists false.
    + assert (Hl : l <> []) by (intros ->; now apply Hne).
      destruct (min_In PrimFloat.ltb l Hl) as [m [-> Hm]].
      destruct (max_In PrimFloat.ltb l Hl) as [M [-> HM]].
      cbn [bind]. f_equal. f_equal.
      rewrite <- map_const. apply map_ext_in. intros v Hv.
      rewrite (div_zero_or_nan _ (M - m)).
      * apply nan_add.
      * apply mul_zero_or_nan, sub_equal. now apply Hall.
      * apply sub_equal. now apply Hall.
Qed.

Lemma rescale_array_degenerate_witness :
  Rescale.rescale_array
    (Rescale.FloatArray {| Rescale.shape := [0%nat]; Rescale.data := [] |})
    (Rescale.PyInt 0) (Rescale.PyInt 1)
  = Raise ValueError /\
  Rescale.rescale_array
    (Rescale.IntArray Rescale.uint8
       {| Rescale.shape := [3%nat]; Rescale.data := [5; 5; 5]%Z |})
    (Rescale.PyInt 0) (Rescale.PyInt 1)
  = Ok {| Rescale.shape := [3%nat]; Rescale.data := [nan; nan; nan] |} /\
  Rescale.rescale_array
    (Rescale.FloatArray
       {| Rescale.shape := [2%nat]; Rescale.data := [0.5; 0.5]%float |})
    (Rescale.PyFloat 0) (Rescale.PyFloat 1)
  = Ok {| Rescale.shape := [2%nat]; Rescale.data := [nan; nan] |}.
Proof.
  split; [ | split].
  - apply (proj1 (rescale_array_degenerate
                    (Rescale.FloatArray
                       {| Rescale.shape := [0%nat]; Rescale.data := [] |})
                    (Rescale.PyInt 0) (Rescale.PyInt 1))).
    reflexivity.
  - apply (proj2 (rescale_array_degenerate
                    (Rescale.IntArray Rescale.uint8
                       {| Rescale.shape := [3%nat];
                          Rescale.data := [5; 5; 5]%Z |})
                    (Rescale.PyInt 0) (Rescale.PyInt 1))).
    + discriminate.
    + reflexivity.
    + simpl. intros x y [<- | [<- | [<- | []]]] [<- | [<- | [<- | []]]];
        reflexivity.
  - apply (proj2 (rescale_array_degenerate
                    (Rescale.FloatArray
                       {| Rescale.shape := [2%nat];
                          Rescale.data := [0.5; 0.5]%float |})
                    (Rescale.PyFloat 0) (Rescale.PyFloat 1))).
    + discriminate.
    + reflexivity.
    + simpl. intros x y [<- | [<- | []]] [<- | [<- | []]]; reflexivity.
Defined.

Section RoiMore.
Import Roi Gdf.

Lemma select_rows_filter (g : list cell -> bool) (rs : list (list cell)) :
  select_rows rs (map g rs) = filter g rs.
Proof.
  induction rs as [ | r t IH]; simpl; [reflexivity | ].
  rewrite IH. now destruct (g r).
Qed.

(** The cells of a column that every row reaches. *)
Lemma column_cells (gdf : GeoDataFrame) (name : string) (i : nat) :
  index_of name (columns gdf) = Some i ->
  Forall (fun row => (i < length row)%nat) (rows gdf) ->
  column gdf name = Ok (map (fun row => nth i row (CStr "")) (rows gdf)).
Proof.
  intros Hi Hrows. unfold column. rewrite Hi.
  apply comprehension_map. intros row Hin.
  rewrite Forall_forall in Hrows.
  now rewrite (nth_error_nth' row (CStr "") (Hrows row Hin)).
Qed.

Lemma column_ok_reaches (gdf : GeoDataFrame) (name : string)
      (cells : list cell) :
  column gdf name = Ok cells ->
  exists i, index_of name (columns gdf) = Some i /\
            Forall (fun row => (i < length row)%nat) (rows gdf).
Proof.
  unfold column. destruct (index_of name (columns gdf)) as [i | ]; [ | discriminate].
  intros H. exists i. split; [reflexivity | ].
  revert cells H. induction (rows gdf) as [ | row t IH]; intros cells; simpl.
  - constructor.
  - destruct (nth_error row i) as [c | ] eqn:E; simpl; [ | discriminate].
    destruct (Resize.comprehension _ t) as [cs | e] eqn:Et; simpl; [ | discriminate].
    intros _. constructor.
    + apply nth_error_Some. rewrite E. discriminate.
    + exact (IH cs eq_refl).
Qed.

Lemma index_of_some_columns (name : string) (cols : list string) (i : nat) :
  index_of name cols = Some i -> cols <> [].
Proof. destruct cols; [discriminate | discriminate]. Qed.

Lemma extract_roi_by_id_filter (gdf : GeoDataFrame) (id : cell) (i : nat) :
  index_of "id" (columns gdf) = Some i ->
  Forall (fun row => (i < length row)%nat) (rows gdf) ->
  extract_roi_by_id gdf (Some id)
  = if (length (filter (id_matches i id) (rows gdf)) =? 0)%nat
    then Raise Id_Not_Found
    else Ok {| columns := columns gdf;
               rows := filter (id_matches i id) (rows gdf) |}.
Proof.
  intros Hi Hrows. unfold extract_roi_by_id.
  rewrite (column_cells gdf "id" i Hi Hrows). simpl.
  rewrite map_map. unfold select.
  rewrite (select_rows_filter (id_matches i id)).
  unfold empty. simpl.
  destruct (columns gdf) as [ | c cs]; [discriminate | ]. reflexivity.
Qed.

Lemma filter_filter_same {B : Type} (f : B -> bool) (l : list B) :
  filter f (filter f l) = filter f l.
Proof.
  induction l as [ | x t IH]; simpl; [reflexivity | ].
  destruct (f x) eqn:E; simpl; [rewrite E; now f_equal | exact IH].
Qed.

End RoiMore.

(** X12. With an id, [extract_roi_by_id] raises [KeyError] when the
    collection has no "id" column; otherwise it returns, with the same
    columns and in their order, exactly the rows whose id equals the given
    id once both are turned into strings, and raises [Id_Not_Found] when
    there is no such row. *)
Theorem extract_roi_by_id_selects (gdf : Roi.GeoDataFrame) (id : Roi.cell) :
  (Roi.index_of "id" (Roi.columns gdf) = None ->
   Roi.extract_roi_by_id gdf (Some id) = Raise KeyError) /\
  (forall i,
      Roi.index_of "id" (Roi.columns gdf) = Some i ->
      Forall (fun row => (i < length row)%nat) (Roi.rows gdf) ->
      (filter (Gdf.id_matches i id) (Roi.rows gdf) = [] ->
       Roi.extract_roi_by_id gdf (Some id) = Raise Id_Not_Found) /\
      (filter (Gdf.id_matches i id) (Roi.rows gdf) <> [] ->
       Roi.extract_roi_by_id gdf (Some id)
       = Ok {| Roi.columns := Roi.columns gdf;
               Roi.rows := filter (Gdf.id_matches i id) (Roi.rows gdf) |})).
Proof.
  split.
  - intros Hn. unfold Roi.extract_roi_by_id, Roi.column. now rewrite Hn.
  - intros i Hi Hrows. rewrite (extract_roi_by_id_filter gdf id i Hi Hrows).
    split; intros H.
    + now rewrite H.
    + destruct (filter (Gdf.id_matches i id) (Roi.rows gdf));
        [contradiction | reflexivity].
Qed.

Lemma extract_roi_by_id_selects_witness :
  Roi.extract_roi_by_id Roi.three_rois (Some (Roi.CInt 2))
  = Ok {| Roi.columns := ["id"; "geometry"]%string;
          Roi.rows := [ [Roi.CStr "2";
                         Roi.CGeom "POLYGON ((1 0, 1 1, 2 1, 2 0, 1 0))"] ] |}.
Proof.
  apply (proj2 (proj2 (extract_roi_by_id_selects Roi.three_rois (Roi.CInt 2))
                      0%nat eq_refl
                      ltac:(repeat constructor))).
  discriminate.
Defined.

(** X13. What [extract_roi_by_id] returns for an id is closed under the
    same query: extracting the same id from the result gives the result
    again. *)
Theorem extract_roi_by_id_idempotent
        (gdf single_roi : Roi.GeoDataFrame) (id : Roi.cell) :
  Roi.extract_roi_by_id gdf (Some id) = Ok single_roi ->
  Roi.extract_roi_by_id single_roi (Some id) = Ok single_roi.
Proof.
  intros H.
  assert (Hcol : exists cells, Roi.column gdf "id" = Ok cells).
  { unfold Roi.extract_roi_by_id in H.
    destruct (Roi.column gdf "id") as [cells | e]; [now exists cells | discriminate]. }
  destruct Hcol as [cells Hcol].
  destruct (column_ok_reaches gdf "id" cells Hcol) as [i [Hi Hrows]].
  rewrite (extract_roi_by_id_filter gdf id i Hi Hrows) in H.
  destruct (length (filter (Gdf.id_matches i id) (Roi.rows gdf)) =? 0)%nat eqn:E;
    [discriminate | ].
  injection H as <-.
  rewrite (extract_roi_by_id_filter _ id i); simpl.
  - rewrite filter_filter_same, E. reflexivity.
  - exact Hi.
  - apply Forall_forall. intros row Hin. apply filter_In in Hin.
    rewrite Forall_forall in Hrows. now apply Hrows.
Qed.

Lemma extract_roi_by_id_idempotent_witness :
  Roi.extract_roi_by_id
    {| Roi.columns := ["id"; "geometry"]%string;
       Roi.rows := [ [Roi.CStr "2";
                      Roi.CGeom "POLYGON ((1 0, 1 1, 2 1, 2 0, 1 0))"] ] |}
    (Some (Roi.CInt 2))
  = Ok {| Roi.columns := ["id"; "geometry"]%string;
          Roi.rows := [ [Roi.CStr "2";
                         Roi.CGeom "POLYGON ((1 0, 1 1, 2 1, 2 0, 1 0))"] ] |}.
Proof.
  apply (extract_roi_by_id_idempotent Roi.three_rois _ (Roi.CInt 2)).
  reflexivity.
Defined.

Section GdfFacts.
Import Roi Gdf.

Lemma index_of_lt (name : string) (cols : list string) (i : nat) :
  index_of name cols = Some i -> (i < length cols)%nat.
Proof.
  revert i. induction cols as [ | c t IH]; intros i; simpl; [discriminate | ].
  destruct (String.eqb c name).
  - intros [= <-]. lia.
  - destruct (index_of name t) as [j | ]; simpl; [ | discriminate].
    intros [= <-]. specialize (IH j eq_refl). lia.
Qed.

Lemma index_of_app_new (name : string) (cols : list string) :
  index_of name cols = None ->
  index_of name (cols ++ [name]) = Some (length cols).
Proof.
  induction cols as [ | c t IH]; simpl.
  - now rewrite String.eqb_refl.
  - destruct (String.eqb c name); [discriminate | ].
    destruct (index_of name t); [discriminate | ].
    intros _. now rewrite IH.
Qed.

Lemma index_of_app_old (name other : string) (cols : list string) :
  other <> name ->
  index_of other (cols ++ [name]) = index_of other cols.
Proof.
  intros Hne. induction cols as [ | c t IH]; simpl.
  - destruct (String.eqb_spec name other); [congruence | reflexivity].
  - destruct (String.eqb c other); [reflexivity | now rewrite IH].
Qed.

Lemma index_of_distinct (a b : string) (cols : list string) (i j : nat) :
  a <> b -> index_of a cols = Some i -> index_of b cols = Some j -> i <> j.
Proof.
  intros Hab. revert i j. induction cols as [ | c t IH]; intros i j; simpl;
    [discriminate | ].
  destruct (String.eqb_spec c a) as [-> | Hca];
    destruct (String.eqb_spec a b) as [ | _]; try contradiction.
  - intros [= <-].
    destruct (index_of b t); simpl; [intros [= <-]; lia | discriminate].
  - destruct (String.eqb_spec c b) as [-> | Hcb].
    + destruct (index_of a t); simpl; [intros [= <-] [= <-]; lia | discriminate].
    + destruct (index_of a t) as [i' | ]; simpl; [ | discriminate].
      destruct (index_of b t) as [j' | ]; simpl; [ | discriminate].
      intros [= <-] [= <-]. specialize (IH i' j' eq_refl eq_refl). lia.
Qed.

Lemma length_set_nth (i : nat) (v : cell) (row : list cell) :
  length (set_nth i v row) = length row.
Proof.
  revert i. induction row as [ | c t IH]; intros [ | i]; simpl;
    try reflexivity. now rewrite IH.
Qed.

Lemma nth_error_set_nth_same (i : nat) (v : cell) (row : list cell) :
  (i < length row)%nat -> nth_error (set_nth i v row) i = Some v.
Proof.
  revert i. induction row as [ | c t IH]; intros [ | i]; simpl; try lia.
  - reflexivity.
  - intros H. apply IH. lia.
Qed.

Lemma nth_error_set_nth_other (i j : nat) (v : cell) (row : list cell) :
  i <> j -> nth_error (set_nth i v row) j = nth_error row j.
Proof.
  revert i j. induction row as [ | c t IH]; intros [ | i] [ | j] Hij; simpl;
    try reflexivity; try contradiction.
  apply IH. lia.
Qed.

Lemma comprehension_ext {B C : Type} (f g : B -> result C) (l : list B) :
  (forall x, In x l -> f x = g x) ->
  Resize.comprehension f l = Resize.comprehension g l.
Proof.
  induction l as [ | x t IH]; intros H; simpl; [reflexivity | ].
  rewrite (H x (or_introl eq_refl)), IH; [reflexivity | ].
  intros y Hy. apply H. now right.
Qed.

Lemma comprehension_over_map {B B' C : Type} (f : B' -> result C)
      (g : B -> B') (l : list B) :
  Resize.comprehension f (map g l) = Resize.comprehension (fun x => f (g x)) l.
Proof.
  induction l as [ | x t IH]; simpl; [reflexivity | now rewrite IH].
Qed.

Lemma comprehension_const {B C : Type} (c : C) (l : list B) :
  Resize.comprehension (fun _ => Ok c) l = Ok (repeat c (length l)).
Proof.
  induction l as [ | x t IH]; simpl; [reflexivity | now rewrite IH].
Qed.

Lemma set_nth_twice (i : nat) (v : cell) (row : list cell) :
  set_nth i v (set_nth i v row) = set_nth i v row.
Proof.
  revert i. induction row as [ | c t IH]; intros [ | i]; simpl;
    try reflexivity. now rewrite IH.
Qed.

Lemma set_nth_last (v : cell) (row : list cell) :
  set_nth (length row) v (row ++ [v]) = row ++ [v].
Proof.
  induction row as [ | c t IH]; simpl; [reflexivity | now rewrite IH].
Qed.

(** The frame after [gdf[name] = v]. *)
Lemma set_column_spec (name : string) (v : cell) (gdf : GeoDataFrame) :
  well_shaped gdf ->
  well_shaped (set_column name v gdf) /\
  length (rows (set_column name v gdf)) = length (rows gdf) /\
  column (set_column name v gdf) name = Ok (repeat v (length (rows gdf))) /\
  (forall other, other <> name ->
                 column (set_column name v gdf) other = column gdf other) /\
  set_column name v (set_column name v gdf) = set_column name v gdf.
Proof.
  intros Hws. unfold well_shaped in Hws. rewrite Forall_forall in Hws.
  unfold set_column.
  destruct (index_of name (columns gdf)) as [i | ] eqn:Ei.
  - pose proof (index_of_lt _ _ _ Ei) as Hlt.
    split; [ | split; [ | split; [ | split]]].
    + apply Forall_forall. simpl. intros row Hin.
      apply in_map_iff in Hin. destruct Hin as [r [<- Hr]].
      rewrite length_set_nth. now apply Hws.
    + simpl. now rewrite length_map.
    + unfold column. simpl. rewrite Ei, comprehension_over_map.
      rewrite <- comprehension_const. apply comprehension_ext.
      intros row Hin. rewrite nth_error_set_nth_same; [reflexivity | ].
      rewrite (Hws row Hin). exact Hlt.
    + intros other Hne. unfold column. simpl.
      destruct (index_of other (columns gdf)) as [j | ] eqn:Ej; [ | reflexivity].
      rewrite comprehension_over_map. apply comprehension_ext.
      intros row _. rewrite nth_error_set_nth_other; [reflexivity | ].
      intros ->. exact (index_of_distinct _ _ _ _ _ Hne Ej Ei eq_refl).
    + simpl. rewrite Ei. f_equal. rewrite map_map.
      apply map_ext. intros row. apply set_nth_twice.
  - split; [ | split; [ | split; [ | split]]].
    + apply Forall_forall. simpl. intros row Hin.
      apply in_map_iff in Hin. destruct Hin as [r [<- Hr]].
      rewrite !length_app. simpl. now rewrite (Hws r Hr).
    + simpl. now rewrite length_map.
    + unfold column. simpl. rewrite (index_of_app_new _ _ Ei).
      rewrite comprehension_over_map.
      rewrite <- comprehension_const. apply comprehension_ext.
      intros row Hin. rewrite <- (Hws row Hin).
      now rewrite nth_error_app2, Nat.sub_diag by lia.
    + intros other Hne. unfold column. simpl.
      rewrite (index_of_app_old _ _ _ Hne).
      destruct (index_of other (columns gdf)) as [j | ] eqn:Ej; [ | reflexivity].
      rewrite comprehension_over_map. apply comprehension_ext.
      intros row Hin. rewrite nth_error_app1; [reflexivity | ].
      rewrite (Hws row Hin). exact (index_of_lt _ _ _ Ej).
    + simpl. rewrite (index_of_app_new _ _ Ei). f_equal.
      rewrite map_map. apply map_ext_in. intros row Hin.
      rewrite <- (Hws row Hin). apply set_nth_last.
Qed.

End GdfFacts.

(** X14. [create_config_gdf] on a frame with one cell per column and
    row: the frame it returns has the same number of rows, a column "type"
    that is "roi" in every row and every other column as before; the frame
    passed as argument has been changed in the same way (the assignment is
    done in place); and applying the function again changes nothing. *)
Theorem create_config_gdf_tags_every_row (rois : Roi.GeoDataFrame) :
  Gdf.well_shaped rois ->
  let arg := fst (Gdf.create_config_gdf rois) in
  let new_gdf := snd (Gdf.create_config_gdf rois) in
  arg = new_gdf /\
  Gdf.well_shaped new_gdf /\
  length (Roi.rows new_gdf) = length (Roi.rows rois) /\
  Roi.column new_gdf "type"
  = Ok (repeat (Roi.CStr "roi") (length (Roi.rows rois))) /\
  (forall name, name <> "type"%string ->
                Roi.column new_gdf name = Roi.column rois name) /\
  Gdf.create_config_gdf new_gdf = (new_gdf, new_gdf).
Proof.
  intros Hws.
  destruct (set_column_spec "type"%string (Roi.CStr "roi") rois Hws)
    as [H1 [H2 [H3 [H4 H5]]]].
  intros arg new_gdf. subst arg new_gdf. unfold Gdf.create_config_gdf.
  cbn [fst snd].
  destruct (Gdf.set_column "type"%string (Roi.CStr "roi") rois) as [cols rws].
  cbn [Roi.columns Roi.rows] in *. rewrite H5. cbn [Roi.columns Roi.rows].
  repeat split; assumption.
Qed.

Lemma create_config_gdf_tags_every_row_witness :
  Roi.column (snd (Gdf.create_config_gdf Roi.three_rois)) "type"
  = Ok [Roi.CStr "roi"; Roi.CStr "roi"; Roi.CStr "roi"].
Proof.
  apply (proj1 (proj2 (proj2 (proj2
           (create_config_gdf_tags_every_row Roi.three_rois
              ltac:(repeat constructor)))))).
Defined.

(** X15. [is_list_empty] is true exactly when every array of the list
    has length 0; in particular it is true on the empty list. *)
Theorem is_list_empty_iff_all_empty (A : Type) (main_list : list (list A)) :
  Arrays.is_list_empty main_list = true
  <-> forall np_array, In np_array main_list -> np_array = [].
Proof.
  unfold Arrays.is_list_empty.
  assert (H : forall b,
             fold_left (fun all_empty (np_array : list A) =>
                          if negb (length np_array =? 0)%nat
                          then false else all_empty) main_list b = true
             <-> b = true /\ forall a, In a main_list -> a = []).
  { induction main_list as [ | a t IH]; intros b; simpl.
    - split; [intros ->; split; [reflexivity | intros a []] | now intros [-> _]].
    - rewrite IH. destruct a as [ | x a']; simpl.
      + split.
        * intros [-> Ht]. split; [reflexivity | ].
          intros a [<- | Ha]; [reflexivity | now apply Ht].
        * intros [-> Ht]. split; [reflexivity | ].
          intros a Ha. apply Ht. now right.
      + split; [intros [Hf _]; discriminate | ].
        intros [_ Ht]. specialize (Ht (x :: a') (or_introl eq_refl)).
        discriminate. }
  rewrite H. split; [now intros [_ Ht] | now split].
Qed.

Lemma is_list_empty_iff_all_empty_witness :
  Arrays.is_list_empty [[]; [1%Z]; []] = false.
Proof.
  destruct (Arrays.is_list_empty [[]; [1%Z]; []]) eqn:E; [ | reflexivity].
  apply (proj1 (is_list_empty_iff_all_empty Z [[]; [1%Z]; []])) with
    (np_array := [1%Z]) in E; [discriminate | right; now left].
Defined.

Section SettingsFacts.
Import Config Settings.

Variable repr : heap -> value -> string.

Lemma keys_dict_set_old (k : string) (v : value) (d : dict) :
  In k (keys d) -> keys (dict_set k v d) = keys d.
Proof.
  induction d as [ | [k' v'] t IH]; simpl; [intros [] | ].
  destruct (String.eqb_spec k' k) as [-> | Hne]; [reflexivity | ].
  intros [Heq | Hin]; [contradiction | ]. simpl. now rewrite IH.
Qed.

Lemma keys_dict_set_new (k : string) (v : value) (d : dict) :
  ~ In k (keys d) -> keys (dict_set k v d) = keys d ++ [k].
Proof.
  intros H. rewrite (dict_set_fresh k v d H). unfold keys.
  now rewrite map_app.
Qed.

Lemma subscript_extend (h more : heap) (v : value) (k : string) (x : value) :
  subscript h v k = Ok x -> subscript (h ++ more) v k = Ok x.
Proof.
  unfold subscript. destruct v; try discriminate.
  destruct (nth_error h a) as [d | ] eqn:E; [ | discriminate].
  rewrite nth_error_app1 by (apply nth_error_Some; rewrite E; discriminate).
  now rewrite E.
Qed.

Lemma py_str_plain (h h' : heap) (v : value) :
  plain v -> py_str repr h' v = py_str repr h v.
Proof. destruct v; simpl; intros H; try contradiction; reflexivity. Qed.

Lemma store_item_middle (h recs : heap) (cfg : dict) (k : string)
      (v : value) :
  store_item (h ++ cfg :: recs) (length h) k v
  = Ok (h ++ dict_set k v cfg :: recs).
Proof.
  unfold store_item.
  rewrite nth_error_app2, Nat.sub_diag by lia. simpl. f_equal.
  induction h as [ | d t IH]; simpl; [reflexivity | now rewrite IH].
Qed.

(** One more id. *)
Lemma built_step (h : heap) (dates sitename filepath : value)
      (cfg : dict) (recs : heap) (P : list string) (s : string) :
  built h dates sitename filepath cfg recs P ->
  built h dates sitename filepath
        (dict_set s (VRef (length h + 1 + length recs)%nat) cfg)
        (recs ++ [roi_record dates sitename filepath s])
        (P ++ [s]).
Proof.
  intros [Hkeys [Hnd [Hord Hrec]]].
  assert (Hrec' : forall k, In k (P ++ [s]) ->
            exists j,
              dict_get k (dict_set s (VRef (length h + 1 + length recs)%nat) cfg)
              = Some (VRef (length h + 1 + j)%nat) /\
              nth_error (recs ++ [roi_record dates sitename filepath s]) j
              = Some (roi_record dates sitename filepath k)).
  { intros k Hk. destruct (string_dec s k) as [<- | Hne].
    - exists (length recs). split; [apply dict_get_set_same | ].
      now rewrite nth_error_app2, Nat.sub_diag by lia.
    - apply in_app_or in Hk. destruct Hk as [Hk | [Hk | []]]; [ | contradiction].
      destruct (Hrec k Hk) as [j [Hget Hj]]. exists j. split.
      + now rewrite dict_get_set_other.
      + rewrite nth_error_app1; [exact Hj | ].
        apply nth_error_Some. rewrite Hj. discriminate. }
  unfold built.
  destruct (in_dec string_dec s (keys cfg)) as [Hin | Hnin].
  - rewrite (keys_dict_set_old s _ cfg Hin).
    split; [ | split; [exact Hnd | split; [ | exact Hrec']]].
    + intros k. rewrite in_app_iff, Hkeys. simpl. split; [tauto | ].
      intros [H | [<- | []]]; [exact H | now apply Hkeys].
    + intros Hnd'. exfalso. apply NoDup_remove_2 in Hnd'.
      rewrite app_nil_r in Hnd'. apply Hnd'. now apply Hkeys.
  - rewrite (keys_dict_set_new s _ cfg Hnin).
    split; [ | split; [ | split; [ | exact Hrec']]].
    + intros k. rewrite !in_app_iff, Hkeys. tauto.
    + apply NoDup_app; [exact Hnd | repeat constructor; intros [] | ].
      intros a Ha [<- | []]. contradiction.
    + intros Hnd'. rewrite Hord; [reflexivity | ].
      exact (NoDup_app_remove_r _ _ Hnd').
Qed.

(** One turn of the loop after the other. *)
Lemma each_roi_built (h : heap) (dates sitename filepath : value)
      (features ids : list value) :
  Forall2 (feature_id h) features ids ->
  Forall plain ids ->
  forall cfg recs P,
    built h dates sitename filepath cfg recs P ->
    exists cfg' recs',
      each_roi repr (h ++ cfg :: recs) (length h) dates sitename filepath
               features
      = Ok (h ++ cfg' :: recs') /\
      built h dates sitename filepath cfg' recs'
            (P ++ map (py_str repr h) ids).
Proof.
  induction 1 as [ | roi id features ids [props [Hp Hid]] Hrest IH];
    intros Hplain cfg recs P Hb.
  - exists cfg, recs. simpl. rewrite app_nil_r. now split.
  - inversion Hplain as [ | ? ? Hpl Hplain']; subst.
    simpl each_roi.
    rewrite (subscript_extend h (cfg :: recs) _ _ _ Hp). simpl bind.
    rewrite (subscript_extend h (cfg :: recs) _ _ _ Hid). simpl bind.
    rewrite (py_str_plain h (h ++ cfg :: recs) id Hpl).
    rewrite <- app_assoc. simpl app.
    rewrite store_item_middle. simpl bind.
    replace (length (h ++ cfg :: recs)) with (length h + 1 + length recs)%nat
      by (rewrite length_app; simpl; lia).
    destruct (IH Hplain' _ _ _ (built_step h dates sitename filepath cfg recs P
                                  (py_str repr h id) Hb))
      as [cfg' [recs' [Hrun Hb']]].
    exists cfg', recs'. split; [exact Hrun | ].
    simpl map. now rewrite <- app_assoc in Hb'.
Qed.

Lemma built_nothing (h : heap) (dates sitename filepath : value) :
  built h dates sitename filepath [] [] [].
Proof.
  split; [ | split; [constructor | split; [reflexivity | ]]].
  - intros k. reflexivity.
  - intros k [].
Qed.

End SettingsFacts.

(** The heap and the dict that [create_roi_settings] returns. *)
Lemma create_roi_settings_value
        (repr : Settings.heap -> Config.value -> string)
        (h : Settings.heap) (settings selected_rois filepath : Config.value)
        (sitename dates : Config.value) (features ids : list Config.value) :
  Settings.subscript h settings "sitename" = Ok sitename ->
  Settings.subscript h settings "dates" = Ok dates ->
  Settings.subscript h selected_rois "features" = Ok (Config.VList features) ->
  Forall2 (Settings.feature_id h) features ids ->
  Forall Settings.plain ids ->
  exists h' cfg,
    Settings.create_roi_settings repr h settings selected_rois filepath
    = Ok (h', Config.VRef (length h)) /\
    (forall a, (a < length h)%nat -> nth_error h' a = nth_error h a) /\
    nth_error h' (length h) = Some cfg /\
    (forall k, In k (Config.keys cfg)
               <-> In k (map (Settings.py_str repr h) ids)) /\
    NoDup (Config.keys cfg) /\
    (NoDup (map (Settings.py_str repr h) ids) ->
     Config.keys cfg = map (Settings.py_str repr h) ids) /\
    (forall k, In k (map (Settings.py_str repr h) ids) ->
       exists b, Config.dict_get k cfg = Some (Config.VRef b) /\
                 nth_error h' b
                 = Some (Settings.roi_record dates sitename filepath k)).
Proof.
  intros Hs Hd Hf Hids Hplain.
  unfold Settings.create_roi_settings.
  rewrite (subscript_extend h [ [] ] _ _ _ Hs). simpl bind.
  rewrite (subscript_extend h [ [] ] _ _ _ Hd). simpl bind.
  rewrite (subscript_extend h [ [] ] _ _ _ Hf). simpl bind.
  destruct (each_roi_built repr h dates sitename filepath features ids
              Hids Hplain [] [] [] (built_nothing h dates sitename filepath))
    as [cfg [recs [Hrun [Hkeys [Hnd [Hord Hrec]]]]]].
  cbn [Settings.iterate bind].
  exists (h ++ cfg :: recs), cfg.
  split.
  { exact (f_equal (fun m => bind m (fun h' => Ok (h', Config.VRef (length h))))
                   Hrun). }
  split; [intros a Ha; now rewrite nth_error_app1 | ].
  split; [now rewrite nth_error_app2, Nat.sub_diag by lia | ].
  split; [exact Hkeys | split; [exact Hnd | split; [exact Hord | ]]].
  intros k Hk. destruct (Hrec k Hk) as [j [Hget Hj]].
  exists (length h + 1 + j)%nat. split; [exact Hget | ].
  rewrite nth_error_app2 by lia.
  replace (length h + 1 + j - length h)%nat with (S j) by lia.
  exact Hj.
Qed.


(** X16. [create_roi_settings] on settings that hold "sitename" and
    "dates" and on a feature collection whose features each carry an id
    (None, a bool, an int or a string) under "properties": the call returns
    a new dict and leaves every existing object as it was; the keys of the
    new dict are the ids as strings, each once (in the order of the
    features when the ids are distinct); and the value under an id is a
    record with the dates and the sitename of the settings, that id as
    "roi_id" and the filepath. *)
Theorem create_roi_settings_records
        (repr : Settings.heap -> Config.value -> string)
        (h : Settings.heap) (settings selected_rois filepath : Config.value)
        (sitename dates : Config.value) (features ids : list Config.value) :
  Settings.subscript h settings "sitename" = Ok sitename ->
  Settings.subscript h settings "dates" = Ok dates ->
  Settings.subscript h selected_rois "features" = Ok (Config.VList features) ->
  Forall2 (Settings.feature_id h) features ids ->
  Forall Settings.plain ids ->
  exists h' cfg,
    Settings.create_roi_settings repr h settings selected_rois filepath
    = Ok (h', Config.VRef (length h)) /\
    (forall a, (a < length h)%nat -> nth_error h' a = nth_error h a) /\
    nth_error h' (length h) = Some cfg /\
    (forall k, In k (Config.keys cfg)
               <-> In k (map (Settings.py_str repr h) ids)) /\
    NoDup (Config.keys cfg) /\
    (NoDup (map (Settings.py_str repr h) ids) ->
     Config.keys cfg = map (Settings.py_str repr h) ids) /\
    (forall k, In k (map (Settings.py_str repr h) ids) ->
       exists b, Config.dict_get k cfg = Some (Config.VRef b) /\
                 nth_error h' b
                 = Some (Settings.roi_record dates sitename filepath k)).
Proof.
  intros Hs Hd Hf Hids Hplain.
  exact (create_roi_settings_value repr h settings selected_rois filepath
           sitename dates features ids Hs Hd Hf Hids Hplain).
Qed.

Lemma create_roi_settings_records_witness :
  exists h' cfg,
    Settings.create_roi_settings (fun _ _ => ""%string) Settings.sample_heap
      (Config.VRef 0%nat) (Config.VRef 5%nat) (Config.VStr "data")
    = Ok (h', Config.VRef 6%nat) /\
    (forall a, (a < 6)%nat -> nth_error h' a = nth_error Settings.sample_heap a) /\
    nth_error h' 6%nat = Some cfg /\
    (forall k, In k (Config.keys cfg) <-> In k ["2"; "3"]%string) /\
    NoDup (Config.keys cfg) /\
    (NoDup ["2"; "3"]%string -> Config.keys cfg = ["2"; "3"]%string) /\
    (forall k, In k ["2"; "3"]%string ->
       exists b, Config.dict_get k cfg = Some (Config.VRef b) /\
                 nth_error h' b
                 = Some (Settings.roi_record
                           (Config.VList [Config.VStr "2018-12-01";
                                          Config.VStr "2019-03-01"])
                           (Config.VStr "site1") (Config.VStr "data") k)).
Proof.
  apply (create_roi_settings_records (fun _ _ => ""%string)
           Settings.sample_heap (Config.VRef 0%nat) (Config.VRef 5%nat)
           (Config.VStr "data") (Config.VStr "site1")
           (Config.VList [Config.VStr "2018-12-01"; Config.VStr "2019-03-01"])
           [Config.VRef 2%nat; Config.VRef 4%nat]
           [Config.VInt 2; Config.VInt 3]).
  - reflexivity.
  - reflexivity.
  - reflexivity.
  - repeat constructor.
    + exists (Config.VRef 1%nat). split; reflexivity.
    + exists (Config.VRef 3%nat). split; reflexivity.
  - repeat constructor.
Defined.

(** X17. [create_roi_settings] raises [KeyError] when the settings dict
    has no "sitename" or no "dates", whatever the features are, also when
    there is none. *)
Theorem create_roi_settings_missing_setting
        (repr : Settings.heap -> Config.value -> string)
        (h : Settings.heap) (a : Config.addr) (d : Config.dict)
        (selected_rois filepath : Config.value) :
  nth_error h a = Some d ->
  Config.dict_get "sitename" d = None \/ Config.dict_get "dates" d = None ->
  Settings.create_roi_settings repr h (Config.VRef a) selected_rois filepath
  = Raise KeyError.
Proof.
  intros Ha Hmiss. unfold Settings.create_roi_settings, Settings.subscript.
  rewrite nth_error_app1 by (apply nth_error_Some; rewrite Ha; discriminate).
  rewrite Ha.
  destruct (Config.dict_get "sitename" d) as [s | ]; [ | reflexivity].
  destruct Hmiss as [Hmiss | Hmiss]; [discriminate | ].
  simpl. now rewrite Hmiss.
Qed.

Lemma create_roi_settings_missing_setting_witness :
  Settings.create_roi_settings (fun _ _ => ""%string)
    [ [("sitename"%string, Config.VStr "site1")];
      [("features"%string, Config.VList [])] ]
    (Config.VRef 0%nat) (Config.VRef 1%nat) (Config.VStr "data")
  = Raise KeyError.
Proof.
  apply (create_roi_settings_missing_setting (fun _ _ => ""%string) _ 0%nat
           [("sitename"%string, Config.VStr "site1")]).
  - reflexivity.
  - now right.
Defined.

(** X18. The keys of the dict that [create_json_config] returns: those
    of [inputs] in their order, then "roi_ids" and "settings", each at the
    end unless [inputs] already has the key, which then keeps its place. *)
Theorem create_json_config_key_order
        (st : Config.store) (a : Config.addr) (d : Config.dict)
        (settings : Config.value) :
  nth_error st a = Some (Config.ODict d) ->
  NoDup (Config.keys d) ->
  exists st' cfg,
    Config.create_json_config st (Config.VRef a) settings
    = Ok (st', Config.VRef (length st)) /\
    nth_error st' (length st) = Some (Config.ODict cfg) /\
    Config.keys cfg
    = Config.keys d
      ++ (if in_dec string_dec "roi_ids"%string (Config.keys d)
          then [] else ["roi_ids"%string])
      ++ (if in_dec string_dec "settings"%string (Config.keys d)
          then [] else ["settings"%string]).
Proof.
  intros Ha Hnd.
  rewrite (create_json_config_value _ _ _ settings Ha), (unpack_items _ Hnd).
  eexists; eexists; split; [reflexivity | ].
  split; [rewrite nth_error_app2, Nat.sub_diag by lia; reflexivity | ].
  set (ids := Config.VList (map Config.VStr (Config.keys d))).
  destruct (in_dec string_dec "roi_ids"%string (Config.keys d)) as [Hr | Hr];
    destruct (in_dec string_dec "settings"%string (Config.keys d)) as [Hs | Hs].
  - rewrite keys_dict_set_old; rewrite keys_dict_set_old; try assumption.
    now rewrite !app_nil_r.
  - rewrite keys_dict_set_new; rewrite keys_dict_set_old; try assumption.
    now rewrite app_nil_l.
  - rewrite keys_dict_set_old; rewrite keys_dict_set_new; try assumption.
    + now rewrite app_nil_r.
    + apply in_or_app. now left.
  - rewrite keys_dict_set_new; rewrite keys_dict_set_new; try assumption.
    + now rewrite app_assoc.
    + intros Hin. apply in_app_or in Hin.
      destruct Hin as [Hin | [Hin | []]]; [contradiction | discriminate].
Qed.

Lemma create_json_config_key_order_witness :
  exists st' cfg,
    Config.create_json_config Config.sample_store (Config.VRef 0%nat)
                              (Config.VRef 1%nat)
    = Ok (st', Config.VRef 4%nat) /\
    nth_error st' 4%nat = Some (Config.ODict cfg) /\
    Config.keys cfg = ["17"; "20"; "roi_ids"; "settings"]%string.
Proof.
  apply (create_json_config_key_order Config.sample_store 0%nat
           [("17"%string, Config.VRef 2%nat); ("20"%string, Config.VRef 3%nat)]
           (Config.VRef 1%nat)).
  - reflexivity.
  - repeat constructor; simpl; intuition discriminate.
Defined.

(** X19. [create_roi_settings] followed by [create_json_config], as the
    callers chain them: when the ids are distinct as strings and none is
    "roi_ids" or "settings", the config lists under "roi_ids" the ids in
    the order of the features, holds the settings under "settings", and
    holds under each id the record built for it. *)
Theorem create_roi_settings_then_json_config
        (repr : Settings.heap -> Config.value -> string)
        (h : Settings.heap) (settings selected_rois filepath : Config.value)
        (sitename dates : Config.value) (features ids : list Config.value) :
  Settings.subscript h settings "sitename" = Ok sitename ->
  Settings.subscript h settings "dates" = Ok dates ->
  Settings.subscript h selected_rois "features" = Ok (Config.VList features) ->
  Forall2 (Settings.feature_id h) features ids ->
  Forall Settings.plain ids ->
  NoDup (map (Settings.py_str repr h) ids) ->
  ~ In "roi_ids"%string (map (Settings.py_str repr h) ids) ->
  ~ In "settings"%string (map (Settings.py_str repr h) ids) ->
  exists h1 roi_settings st2 cfg,
    Settings.create_roi_settings repr h settings selected_rois filepath
    = Ok (h1, roi_settings) /\
    Config.create_json_config (Settings.to_store h1) roi_settings settings
    = Ok (st2, Config.VRef (length h1)) /\
    nth_error st2 (length h1) = Some (Config.ODict cfg) /\
    Config.dict_get "roi_ids" cfg
    = Some (Config.VList (map Config.VStr (map (Settings.py_str repr h) ids))) /\
    Config.dict_get "settings" cfg = Some settings /\
    (forall k, In k (map (Settings.py_str repr h) ids) ->
       exists b, Config.dict_get k cfg = Some (Config.VRef b) /\
                 nth_error st2 b
                 = Some (Config.ODict
                           (Settings.roi_record dates sitename filepath k))).
Proof.
  intros Hs Hd Hf Hids Hplain Hnd Hroi Hset.
  destruct (create_roi_settings_value repr h settings selected_rois filepath
              sitename dates features ids Hs Hd Hf Hids Hplain)
    as [h1 [cfg1 [Hrun [_ [Hcfg [Hkeys [Hndk [Hord Hrec]]]]]]]].
  specialize (Hord Hnd).
  assert (Hst : nth_error (Settings.to_store h1) (length h)
                = Some (Config.ODict cfg1)).
  { unfold Settings.to_store. now rewrite nth_error_map, Hcfg. }
  exists h1, (Config.VRef (length h)). eexists. eexists.
  split; [exact Hrun | ].
  rewrite (create_json_config_value _ _ _ settings Hst), (unpack_items _ Hndk).
  unfold Settings.to_store at 2. rewrite length_map.
  split; [reflexivity | ].
  split; [rewrite nth_error_app2; unfold Settings.to_store;
          rewrite length_map, ?Nat.sub_diag; [reflexivity | lia] | ].
  split; [ | split].
  - rewrite dict_get_set_other by discriminate.
    rewrite dict_get_set_same, Hord. reflexivity.
  - apply dict_get_set_same.
  - intros k Hk. destruct (Hrec k Hk) as [b [Hget Hb]].
    exists b. split.
    + rewrite !dict_get_set_other; [exact Hget | | ]; intros <-; contradiction.
    + rewrite nth_error_app1.
      * unfold Settings.to_store. now rewrite nth_error_map, Hb.
      * unfold Settings.to_store. rewrite length_map.
        apply nth_error_Some. rewrite Hb. discriminate.
Qed.

Lemma create_roi_settings_then_json_config_witness :
  exists h1 roi_settings st2 cfg,
    Settings.create_roi_settings (fun _ _ => ""%string) Settings.sample_heap
      (Config.VRef 0%nat) (Config.VRef 5%nat) (Config.VStr "data")
    = Ok (h1, roi_settings) /\
    Config.create_json_config (Settings.to_store h1) roi_settings
                              (Config.VRef 0%nat)
    = Ok (st2, Config.VRef (length h1)) /\
    nth_error st2 (length h1) = Some (Config.ODict cfg) /\
    Config.dict_get "roi_ids" cfg
    = Some (Config.VList [Config.VStr "2"; Config.VStr "3"]) /\
    Config.dict_get "settings" cfg = Some (Config.VRef 0%nat) /\
    (forall k, In k ["2"; "3"]%string ->
       exists b, Config.dict_get k cfg = Some (Config.VRef b) /\
                 nth_error st2 b
                 = Some (Config.ODict
                           (Settings.roi_record
                              (Config.VList [Config.VStr "2018-12-01";
                                             Config.VStr "2019-03-01"])
                              (Config.VStr "site1") (Config.VStr "data") k))).
Proof.
  apply (create_roi_settings_then_json_config (fun _ _ => ""%string)
           Settings.sample_heap (Config.VRef 0%nat) (Config.VRef 5%nat)
           (Config.VStr "data") (Config.VStr "site1")
           (Config.VList [Config.VStr "2018-12-01"; Config.VStr "2019-03-01"])
           [Config.VRef 2%nat; Config.VRef 4%nat]
           [Config.VInt 2; Config.VInt 3]).
  - reflexivity.
  - reflexivity.
  - reflexivity.
  - repeat constructor.
    + exists (Config.VRef 1%nat). split; reflexivity.
    + exists (Config.VRef 3%nat). split; reflexivity.
  - repeat constructor.
  - repeat constructor; simpl; intuition discriminate.
  - simpl. intuition discriminate.
  - simpl. intuition discriminate.
Defined.

Section DirsTree.
Import Fs Dirs.

Lemma map_fst_remove_entry (x : string) (es : list (string * node)) :
  map fst (remove_entry x es)
  = filter (fun y => negb (String.eqb y x)) (map fst es).
Proof.
  unfold remove_entry. induction es as [ | [y c] t IH]; simpl; [reflexivity | ].
  destruct (String.eqb y x); simpl; now rewrite IH.
Qed.

Lemma map_fst_map_entry (x : string) (f : node -> node)
      (es : list (string * node)) :
  map fst (map_entry x f es) = map fst es.
Proof.
  unfold map_entry. rewrite map_map. apply map_ext.
  intros [y c]. simpl. now destruct (String.eqb y x).
Qed.

Lemma Forall_map_entry (P : node -> Prop) (x : string) (f : node -> node)
      (es : list (string * node)) :
  Forall (fun e => P (snd e)) es ->
  (forall c, In (x, c) es -> P c -> P (f c)) ->
  Forall (fun e => P (snd e)) (map_entry x f es).
Proof.
  intros Hall Hf. rewrite Forall_forall in *. intros e Hin.
  apply in_map_iff in Hin. destruct Hin as [[y c] [<- Hy]].
  simpl. destruct (String.eqb_spec y x) as [-> | _]; simpl.
  - apply Hf; [exact Hy | exact (Hall _ Hy)].
  - exact (Hall _ Hy).
Qed.

(** Removing keeps the names unique. *)
Lemma wf_remove_at (p : path) : forall n, wf n -> wf (remove_at n p).
Proof.
  induction p as [ | x p IH]; intros n Hwf; [destruct n; exact Hwf | ].
  destruct n as [ | es]; [destruct p; exact Hwf | ].
  inversion Hwf as [ | ? Hnd Hall]; subst.
  destruct p as [ | y p'].
  - simpl. constructor.
    + rewrite map_fst_remove_entry. now apply NoDup_filter.
    + unfold remove_entry. rewrite Forall_forall in *.
      intros e He. apply filter_In in He. now apply Hall.
  - change (remove_at (Dir es) (x :: y :: p'))
      with (Dir (map_entry x (fun c => remove_at c (y :: p')) es)).
    constructor.
    + now rewrite map_fst_map_entry.
    + apply Forall_map_entry; [exact Hall | ].
      intros c _ Hc. now apply IH.
Qed.

Lemma find_entry_app_new (x y : string) (c : node)
      (es : list (string * node)) :
  find_entry y (es ++ [(x, c)])
  = match find_entry y es with
    | Some d => Some d
    | None => if String.eqb x y then Some c else None
    end.
Proof.
  induction es as [ | [z d] t IH]; simpl; [reflexivity | ].
  destruct (String.eqb z y); [reflexivity | exact IH].
Qed.

Lemma find_entry_none_names (x : string) (es : list (string * node)) :
  find_entry x es = None <-> ~ In x (map fst es).
Proof.
  induction es as [ | [z d] t IH]; simpl; [tauto | ].
  destruct (String.eqb_spec z x) as [-> | Hne].
  - split; [discriminate | intros H; exfalso; apply H; now left].
  - rewrite IH. tauto.
Qed.

(** The kinds after a directory has been added. *)
Lemma kind_at_add_dir (p : path) (x : string) :
  forall n es,
    lookup n p = Some (Dir es) -> find_entry x es = None ->
    kind_at (add_dir n p x) (p ++ [x]) = Some KDir /\
    forall q, q <> p ++ [x] -> kind_at (add_dir n p x) q = kind_at n q.
Proof.
  unfold kind_at. induction p as [ | y p IH]; intros n es Hl Hx.
  - simpl in Hl. injection Hl as ->. simpl add_dir. split.
    + simpl. rewrite find_entry_app_new, Hx, String.eqb_refl. reflexivity.
    + intros q Hq. destruct q as [ | z q]; [reflexivity | ].
      simpl lookup. rewrite find_entry_app_new.
      destruct (find_entry z es) as [d | ] eqn:Ez; [reflexivity | ].
      destruct (String.eqb_spec x z) as [<- | Hne]; [ | reflexivity].
      destruct q as [ | w q]; [now contradiction Hq | reflexivity].
  - simpl in Hl. destruct n as [ | es0]; [discriminate | ].
    destruct (find_entry y es0) as [c | ] eqn:Ey; [ | discriminate].
    destruct (IH c es Hl Hx) as [IH1 IH2].
    simpl add_dir. split.
    + simpl. rewrite find_entry_map, String.eqb_refl, Ey. exact IH1.
    + intros q Hq. destruct q as [ | z q]; [reflexivity | ].
      simpl lookup. rewrite find_entry_map.
      destruct (String.eqb_spec y z) as [<- | Hne]; [ | reflexivity].
      rewrite Ey. simpl option_map. apply IH2.
      intros ->. now apply Hq.
Qed.

(** Adding a directory under a new name keeps the names unique. *)
Lemma wf_add_dir (p : path) (x : string) :
  forall n es, wf n -> lookup n p = Some (Dir es) -> find_entry x es = None ->
               wf (add_dir n p x).
Proof.
  induction p as [ | y p IH]; intros n es Hwf Hl Hx.
  - simpl in Hl. injection Hl as ->. simpl.
    inversion Hwf as [ | ? Hnd Hall]; subst. constructor.
    + rewrite map_app. simpl. apply NoDup_app; [exact Hnd | | ].
      * repeat constructor. intros [].
      * intros a Ha [<- | []]. now apply find_entry_none_names in Hx.
    + apply Forall_app. split; [exact Hall | ].
      repeat constructor.
  - simpl in Hl. destruct n as [ | es0]; [discriminate | ].
    destruct (find_entry y es0) as [c | ] eqn:Ey; [ | discriminate].
    inversion Hwf as [ | ? Hnd Hall]; subst. simpl. constructor.
    + now rewrite map_fst_map_entry.
    + apply Forall_map_entry; [exact Hall | ].
      intros c' Hc' Hwfc.
      pose proof (In_find_entry _ _ _ Hnd Hc') as E.
      rewrite Ey in E. injection E as ->.
      exact (IH c' es Hwfc Hl Hx).
Qed.

End DirsTree.

Section FsAfter.
Import Fs.

Lemma rmdir_wf (st st' : state) (p : path) :
  wf (tree st) -> rmdir st p = Ok st' -> wf (tree st').
Proof.
  intros Hwf. unfold rmdir. destruct p as [ | x p]; [discriminate | ].
  destruct (lookup (tree st) (x :: p)) as [[ | [ | e es]] | ]; try discriminate.
  intros [= <-]. simpl. now apply wf_remove_at.
Qed.

Lemma prune_wf (heads : list path) :
  forall st, wf (tree st) -> wf (tree (prune st heads)).
Proof.
  induction heads as [ | h rest IH]; intros st Hwf; simpl; [exact Hwf | ].
  destruct (rmdir st h) as [st' | e] eqn:E; [ | exact Hwf].
  apply IH. exact (rmdir_wf _ _ _ Hwf E).
Qed.

Lemma remove_all_wf (dirs : list path) :
  forall st st', wf (tree st) -> remove_all st dirs = Ok st' -> wf (tree st').
Proof.
  induction dirs as [ | d rest IH]; intros st st' Hwf; simpl.
  - now intros [= <-].
  - unfold removedirs.
    destruct (rmdir st d) as [st1 | e] eqn:E; simpl; [ | discriminate].
    apply IH. apply prune_wf. exact (rmdir_wf _ _ _ Hwf E).
Qed.

Lemma delete_empty_dirs_wf (st st' : state) (dir_path : path) :
  wf (tree st) -> delete_empty_dirs st dir_path = Ok st' -> wf (tree st').
Proof.
  intros Hwf. unfold delete_empty_dirs.
  destruct (empty_among (tree st) (get_subdirs (tree st) dir_path))
    as [dirs | e]; simpl; [ | discriminate].
  now apply remove_all_wf.
Qed.

(** After the runs of [removedirs] no directory below the root is empty. *)
Lemma pruned_no_empty_dir (t0 t : node) (root p : path) :
  pruned t0 (fun q => below root q /\ is_empty_dir t0 q = true) t ->
  below root p -> is_empty_dir t p = false.
Proof.
  intros [[Hfile Hnone] Hs] Hb.
  destruct (is_empty_dir t p) eqn:He; [exfalso | reflexivity].
  apply is_empty_dir_spec in He. destruct He as [Hk Hchild].
  assert (Hk0 : kind_at t0 p = Some KDir).
  { destruct (kind_at t0 p) as [[ | ] | ] eqn:E.
    - apply Hfile in E. congruence.
    - reflexivity.
    - apply Hnone in E. congruence. }
  destruct (Hs p Hk0) as [[_ Hncl] | [Hgone _]]; [ | congruence].
  apply Hncl. apply cleared_below_root; [exact Hb | ].
  split; [exact Hk0 | ].
  intros q. destruct q as [ | x r].
  - rewrite app_nil_r, Hk0. discriminate.
  - change (x :: r) with ([x] ++ r). rewrite app_assoc.
    destruct (kind_at t0 (p ++ [x])) as [[ | ] | ] eqn:E.
    + apply Hfile in E. rewrite Hchild in E. discriminate.
    + destruct (Hs _ E) as [[Hkc _] | [_ [_ [[_ Hnf] _]]]].
      * rewrite Hchild in Hkc. discriminate.
      * apply Hnf.
    + rewrite (kind_at_none_app _ _ r E). discriminate.
Qed.

Lemma filter_none {B : Type} (f : B -> bool) (l : list B) :
  (forall x, In x l -> f x = false) -> filter f l = [].
Proof.
  induction l as [ | x t IH]; intros H; simpl; [reflexivity | ].
  rewrite (H x (or_introl eq_refl)). apply IH. intros y Hy. apply H. now right.
Qed.

(** Without an empty directory below the root there is nothing to do. *)
Lemma delete_empty_dirs_nothing (st : state) (dir_path : path) :
  wf (tree st) ->
  (forall p, below dir_path p -> is_empty_dir (tree st) p = false) ->
  delete_empty_dirs st dir_path = Ok st.
Proof.
  intros Hwf Hnone. unfold delete_empty_dirs.
  destruct (get_subdirs_spec (tree st) dir_path Hwf) as [_ Hin].
  rewrite empty_among_filter by (intros q Hq; now apply Hin).
  rewrite filter_none; [reflexivity | ].
  intros q Hq. apply Hnone. now apply Hin.
Qed.

End FsAfter.

(** X20. After [delete_empty_dirs] on a well-formed tree no directory
    strictly below the root is empty. *)
Theorem delete_empty_dirs_leaves_no_empty_dir (t0 : Fs.node) (root : Fs.path) :
  Fs.wf t0 ->
  exists st',
    Fs.delete_empty_dirs (Fs.start t0) root = Ok st' /\
    forall p, Fs.below root p -> Fs.is_empty_dir (Fs.tree st') p = false.
Proof.
  intros Hwf.
  destruct (delete_empty_dirs_pruned t0 root Hwf) as [st' [Hrun [Hp _]]].
  exists st'. split; [exact Hrun | ].
  intros p Hb. exact (pruned_no_empty_dir t0 (Fs.tree st') root p Hp Hb).
Qed.

Lemma delete_empty_dirs_leaves_no_empty_dir_witness :
  exists st',
    Fs.delete_empty_dirs (Fs.start Fs.two_branches) ["root"%string] = Ok st' /\
    forall p, Fs.below ["root"%string] p ->
              Fs.is_empty_dir (Fs.tree st') p = false.
Proof.
  apply (delete_empty_dirs_leaves_no_empty_dir Fs.two_branches ["root"%string]).
  repeat (constructor; simpl; try (intuition discriminate)).
Defined.

(** X21. [delete_empty_dirs] is idempotent: a second run on the result
    of a first run removes nothing and returns the same tree. *)
Theorem delete_empty_dirs_idempotent
        (t0 : Fs.node) (root : Fs.path) (st' : Fs.state) :
  Fs.wf t0 ->
  Fs.delete_empty_dirs (Fs.start t0) root = Ok st' ->
  Fs.delete_empty_dirs st' root = Ok st'.
Proof.
  intros Hwf Hrun.
  destruct (delete_empty_dirs_pruned t0 root Hwf) as [st1 [Hrun1 [Hp _]]].
  rewrite Hrun in Hrun1. injection Hrun1 as <-.
  apply delete_empty_dirs_nothing.
  - exact (delete_empty_dirs_wf (Fs.start t0) st' root Hwf Hrun).
  - intros p Hb. exact (pruned_no_empty_dir t0 (Fs.tree st') root p Hp Hb).
Qed.

Lemma delete_empty_dirs_idempotent_witness :
  Fs.delete_empty_dirs
    {| Fs.tree := Fs.Dir [("root"%string,
                           Fs.Dir [("data.csv"%string, Fs.File)])];
       Fs.removed := [ ["root"; "x"]; ["root"; "y"; "z"]; ["root"; "y"] ]%string |}
    ["root"%string]
  = Ok {| Fs.tree := Fs.Dir [("root"%string,
                              Fs.Dir [("data.csv"%string, Fs.File)])];
          Fs.removed := [ ["root"; "x"]; ["root"; "y"; "z"];
                          ["root"; "y"] ]%string |}.
Proof.
  apply (delete_empty_dirs_idempotent Fs.two_branches ["root"%string]).
  - repeat (constructor; simpl; try (intuition discriminate)).
  - reflexivity.
Defined.

Section DirsMake.
Import Fs Dirs.

Lemma split_snoc (head : path) (tail : string) :
  split (head ++ [tail]) = Some (head, tail).
Proof. unfold split. rewrite rev_app_distr. simpl. now rewrite rev_involutive. Qed.

Lemma split_some (name head : path) (tail : string) :
  split name = Some (head, tail) -> name = head ++ [tail].
Proof.
  unfold split. destruct (rev name) as [ | t r] eqn:E; [discriminate | ].
  intros [= <- <-]. rewrite <- (rev_involutive name), E. reflexivity.
Qed.

Lemma kind_at_snoc_none (fs : node) (head : path) (tail : string)
      (es : list (string * node)) :
  lookup fs head = Some (Dir es) ->
  (find_entry tail es = None <-> kind_at fs (head ++ [tail]) = None).
Proof.
  intros Hl. unfold kind_at. rewrite lookup_app, Hl. simpl.
  destruct (find_entry tail es); split; intros H; try discriminate; reflexivity.
Qed.

Lemma grown_refl (fs : node) (name : path) : grown fs fs name.
Proof.
  split; [reflexivity | split; [ | exact (fun H => H)]].
  intros q H1 H2. contradiction.
Qed.

Lemma is_prefix_trans (p q r : path) :
  is_prefix p q = true -> is_prefix q r = true -> is_prefix p r = true.
Proof.
  rewrite !is_prefix_spec. intros [a ->] [b ->].
  exists (a ++ b). now rewrite app_assoc.
Qed.

Lemma is_prefix_refl (p : path) : is_prefix p p = true.
Proof. apply is_prefix_spec. exists []. now rewrite app_nil_r. Qed.

Lemma grown_trans (fs fs1 fs2 : node) (a b : path) :
  is_prefix a b = true ->
  grown fs fs1 a -> grown fs1 fs2 b -> grown fs fs2 b.
Proof.
  intros Hab [Ha1 [Ha2 Ha3]] [Hb1 [Hb2 Hb3]].
  split; [ | split].
  - intros q Hq. rewrite Hb1; rewrite (Ha1 q Hq); [reflexivity | exact Hq].
  - intros q Hq Hq2.
    destruct (kind_at fs1 q) as [k | ] eqn:E.
    + assert (H1 : kind_at fs1 q <> None) by (rewrite E; discriminate).
      destruct (Ha2 q Hq H1) as [Hk Hp].
      split; [rewrite (Hb1 q H1); exact Hk | exact (is_prefix_trans _ _ _ Hp Hab)].
    + exact (Hb2 q E Hq2).
  - intros H. exact (Hb3 (Ha3 H)).
Qed.

(** What a successful [mkdir] does. *)
Lemma mkdir_ok (fs fs' : node) (name : path) :
  mkdir fs name = Ok fs' ->
  kind_at fs name = None /\ kind_at fs' name = Some KDir /\
  (forall q, q <> name -> kind_at fs' q = kind_at fs q) /\
  (wf fs -> wf fs').
Proof.
  unfold mkdir. destruct (split name) as [[head tail] | ] eqn:Es; [ | discriminate].
  apply split_some in Es. subst name.
  destruct (lookup fs head) as [[ | es] | ] eqn:El; try discriminate.
  destruct (find_entry tail es) eqn:Et; [discriminate | ].
  intros [= <-].
  destruct (kind_at_add_dir head tail fs es El Et) as [H1 H2].
  split; [now apply (kind_at_snoc_none fs head tail es El) | ].
  split; [exact H1 | split; [exact H2 | ]].
  intros Hwf. exact (wf_add_dir head tail fs es Hwf El Et).
Qed.

Lemma mkdir_grown (fs fs' : node) (name : path) :
  mkdir fs name = Ok fs' -> grown fs fs' name /\ kind_at fs' name = Some KDir.
Proof.
  intros H. destruct (mkdir_ok fs fs' name H) as [H0 [H1 [H2 H3]]].
  split; [ | exact H1]. split; [ | split; [ | exact H3]].
  - intros q Hq. apply H2. intros ->. contradiction.
  - intros q Hq Hq'. destruct (list_eq_dec string_dec q name) as [-> | Hne].
    + split; [exact H1 | apply is_prefix_refl].
    + rewrite (H2 q Hne) in Hq'. contradiction.
Qed.

(** [mkdir] in a directory, under a name that is free. *)
Lemma mkdir_free (fs : node) (head : path) (tail : string) :
  kind_at fs head = Some KDir -> kind_at fs (head ++ [tail]) = None ->
  exists fs', mkdir fs (head ++ [tail]) = Ok fs'.
Proof.
  intros Hk Hn. unfold mkdir. rewrite split_snoc.
  unfold kind_at in Hk.
  destruct (lookup fs head) as [[ | es] | ] eqn:El; try discriminate.
  rewrite (proj2 (kind_at_snoc_none fs head tail es El) Hn).
  eexists. reflexivity.
Qed.

(** What a successful [makedirs] does. *)
Lemma makedirs_rev_grown (rname : list string) :
  forall fs fs',
    makedirs_rev fs rname = Ok fs' ->
    grown fs fs' (rev rname) /\ kind_at fs' (rev rname) = Some KDir.
Proof.
  induction rname as [ | tail rhead IH]; intros fs fs'.
  - simpl. intros H. discriminate H.
  - simpl makedirs_rev.
    destruct rhead as [ | h rhead'].
    + simpl bind. apply mkdir_grown.
    + destruct (path_exists fs (rev (h :: rhead'))).
      * simpl bind. apply mkdir_grown.
      * destruct (makedirs_rev fs (h :: rhead')) as [fs1 | e] eqn:E;
          simpl bind; [ | discriminate].
        intros Hm. destruct (IH fs fs1 E) as [Hg1 _].
        destruct (mkdir_grown fs1 fs' _ Hm) as [Hg2 Hk].
        split; [ | exact Hk].
        apply (grown_trans fs fs1 fs' (rev (h :: rhead'))); try assumption.
        apply is_prefix_spec. exists [tail]. reflexivity.
Qed.

Lemma path_exists_kind (fs : node) (p : path) :
  path_exists fs p = true <-> kind_at fs p <> None.
Proof.
  unfold path_exists, kind_at. destruct (lookup fs p); simpl; split;
    intros H; try discriminate; try reflexivity. now contradiction H.
Qed.

Lemma path_exists_false (fs : node) (p : path) :
  path_exists fs p = false <-> kind_at fs p = None.
Proof.
  unfold path_exists, kind_at. destruct (lookup fs p); simpl; split;
    intros H; try discriminate; reflexivity.
Qed.

(** [makedirs] succeeds on a missing path none of whose ancestors is a
    file. *)
Lemma makedirs_rev_free (rname : list string) :
  forall fs,
    rname <> [] ->
    kind_at fs (rev rname) = None ->
    (forall q, is_prefix q (rev rname) = true -> kind_at fs q <> Some KFile) ->
    exists fs', makedirs_rev fs rname = Ok fs'.
Proof.
  induction rname as [ | tail rhead IH]; intros fs Hne Hmiss Hnf;
    [contradiction | ].
  simpl makedirs_rev. simpl rev in *.
  assert (Hhead : forall fs1, grown fs fs1 (rev rhead) ->
                              kind_at fs1 (rev rhead) = Some KDir ->
                              exists fs', mkdir fs1 (rev rhead ++ [tail]) = Ok fs').
  { intros fs1 [G1 [G2 _]] Hk. apply mkdir_free; [exact Hk | ].
    destruct (kind_at fs1 (rev rhead ++ [tail])) as [k | ] eqn:E; [ | reflexivity].
    exfalso.
    destruct (G2 (rev rhead ++ [tail]) Hmiss) as [_ Hp];
      [rewrite E; discriminate | ].
    apply is_prefix_spec in Hp. destruct Hp as [r Hr].
    apply (f_equal (@length string)) in Hr.
    rewrite !length_app in Hr. simpl in Hr. lia. }
  assert (Hdir : kind_at fs (rev rhead) <> None ->
                 kind_at fs (rev rhead) = Some KDir).
  { intros Hex. destruct (kind_at fs (rev rhead)) as [[ | ] | ] eqn:E.
    - exfalso. apply (Hnf (rev rhead)); [ | exact E].
      apply is_prefix_spec. now exists [tail].
    - reflexivity.
    - contradiction. }
  destruct rhead as [ | h rhead'].
  - simpl bind. apply (Hhead fs (grown_refl fs _)).
    apply Hdir. simpl. unfold kind_at. simpl. discriminate.
  - destruct (path_exists fs (rev (h :: rhead'))) eqn:Ex.
    + simpl bind. apply (Hhead fs (grown_refl fs _)).
      apply Hdir. now apply path_exists_kind.
    + apply path_exists_false in Ex.
      destruct (IH fs) as [fs1 Hfs1]; [discriminate | exact Ex | | ].
      * intros q Hq. apply Hnf.
        apply (is_prefix_trans _ _ _ Hq). apply is_prefix_spec. now exists [tail].
      * rewrite Hfs1. simpl bind.
        destruct (makedirs_rev_grown _ _ _ Hfs1) as [Hg Hk].
        exact (Hhead fs1 Hg Hk).
Qed.

Lemma is_prefix_snoc (q base : path) (x : string) :
  is_prefix q (base ++ [x]) = true ->
  is_prefix q base = true \/ q = base ++ [x].
Proof.
  rewrite !is_prefix_spec. intros [r Hr].
  destruct r as [ | y r] using rev_ind.
  - right. now rewrite app_nil_r in Hr.
  - left. rewrite app_assoc in Hr. apply app_inj_tail in Hr.
    destruct Hr as [-> _]. now exists r.
Qed.

Lemma in_range (start stop y : Z) :
  In y (range start stop) <-> (start <= y < stop)%Z.
Proof.
  unfold range. rewrite in_map_iff. split.
  - intros [i [<- Hi]]. apply in_seq in Hi. lia.
  - intros H. exists (Z.to_nat (y - start)). split; [lia | ].
    apply in_seq. lia.
Qed.

(** One year after the other. *)
Lemma each_year_grown (base_path : path) (years : list Z) :
  forall fs fs',
    each_year fs years base_path = Ok fs' ->
    (forall q, kind_at fs q <> None -> kind_at fs' q = kind_at fs q) /\
    (forall q, kind_at fs q = None -> kind_at fs' q <> None ->
               kind_at fs' q = Some KDir /\
               (is_prefix q base_path = true \/
                exists y, In y years /\ q = join base_path (Py.str y))) /\
    (forall y, In y years ->
               kind_at fs' (join base_path (Py.str y)) <> None /\
               (kind_at fs (join base_path (Py.str y)) = None ->
                kind_at fs' (join base_path (Py.str y)) = Some KDir)) /\
    (wf fs -> wf fs').
Proof.
  induction years as [ | year rest IH]; intros fs fs'; simpl.
  - intros [= <-]. split; [reflexivity | split; [ | split; [ | exact (fun H => H)]]].
    + intros q H1 H2. contradiction.
    + intros y [].
  - set (yp := join base_path (Py.str year)).
    destruct (if negb (path_exists fs yp) then makedirs fs yp else Ok fs)
      as [fs1 | e] eqn:Estep; simpl bind; [ | discriminate].
    intros Hrest.
    assert (Hstep : grown fs fs1 yp /\ kind_at fs1 yp <> None /\
                    (kind_at fs yp = None -> kind_at fs1 yp = Some KDir)).
    { destruct (path_exists fs yp) eqn:Ex; simpl in Estep.
      - injection Estep as <-. apply path_exists_kind in Ex.
        split; [apply grown_refl | split; [exact Ex | ]].
        intros H. contradiction.
      - unfold makedirs in Estep.
        destruct (makedirs_rev_grown _ _ _ Estep) as [Hg Hk].
        rewrite rev_involutive in Hg, Hk.
        split; [exact Hg | split; [rewrite Hk; discriminate | now intros _]]. }
    destruct Hstep as [[G1 [G2 G3]] [Hyp Hnew]].
    destruct (IH fs1 fs' Hrest) as [E1 [E2 [E3 E4]]].
    split; [ | split; [ | split]].
    + intros q Hq. rewrite E1; rewrite (G1 q Hq); [reflexivity | exact Hq].
    + intros q Hq Hq'.
      destruct (kind_at fs1 q) as [k | ] eqn:E.
      * assert (H1 : kind_at fs1 q <> None) by (rewrite E; discriminate).
        destruct (G2 q Hq H1) as [Hk Hp].
        split; [rewrite (E1 q H1); exact Hk | ].
        destruct (is_prefix_snoc _ _ _ Hp) as [Hb | ->]; [now left | ].
        right. exists year. split; [now left | reflexivity].
      * destruct (E2 q E Hq') as [Hk [Hb | [y [Hy ->]]]].
        -- split; [exact Hk | now left].
        -- split; [exact Hk | ]. right. exists y. split; [now right | reflexivity].
    + intros y [<- | Hy].
      * fold yp. split.
        -- rewrite (E1 yp Hyp). exact Hyp.
        -- intros Hmiss. rewrite (E1 yp Hyp). now apply Hnew.
      * destruct (E3 y Hy) as [Hex Hmk]. split; [exact Hex | ].
        intros Hmiss.
        destruct (kind_at fs1 (join base_path (Py.str y))) as [k | ] eqn:E.
        -- assert (H1 : kind_at fs1 (join base_path (Py.str y)) <> None)
             by (rewrite E; discriminate).
           destruct (G2 _ Hmiss H1) as [Hk _].
           rewrite (E1 _ H1). exact Hk.
        -- now apply Hmk.
    + intros H. exact (E4 (G3 H)).
Qed.

(** No year is refused when no ancestor is a file. *)
Lemma each_year_free (base_path : path) (years : list Z) :
  forall fs,
    (forall q, is_prefix q base_path = true -> kind_at fs q <> Some KFile) ->
    exists fs', each_year fs years base_path = Ok fs'.
Proof.
  induction years as [ | year rest IH]; intros fs Hnf; simpl.
  - eexists. reflexivity.
  - set (yp := join base_path (Py.str year)).
    assert (Hstep : exists fs1,
               (if negb (path_exists fs yp) then makedirs fs yp else Ok fs)
               = Ok fs1 /\ grown fs fs1 yp).
    { destruct (path_exists fs yp) eqn:Ex; simpl.
      - exists fs. split; [reflexivity | apply grown_refl].
      - apply path_exists_false in Ex. unfold makedirs.
        destruct (makedirs_rev_free (rev yp) fs) as [fs1 H1].
        + unfold yp, join. rewrite rev_app_distr. discriminate.
        + now rewrite rev_involutive.
        + rewrite rev_involutive. intros q Hq.
          destruct (is_prefix_snoc _ _ _ Hq) as [Hb | ->].
          * now apply Hnf.
          * fold (join base_path (Py.str year)). fold yp.
            intros H. rewrite H in Ex. discriminate.
        + exists fs1. split; [exact H1 | ].
          destruct (makedirs_rev_grown _ _ _ H1) as [Hg _].
          now rewrite rev_involutive in Hg. }
    destruct Hstep as [fs1 [-> [G1 [G2 _]]]]. simpl bind.
    apply IH. intros q Hq.
    destruct (kind_at fs q) as [k | ] eqn:E.
    + rewrite G1 by (rewrite E; discriminate). rewrite E. rewrite <- E.
      now apply Hnf.
    + destruct (kind_at fs1 q) as [k | ] eqn:E1; [ | discriminate].
      destruct (G2 q E) as [Hk _]; [rewrite E1; discriminate | ].
      rewrite E1 in Hk. rewrite Hk. discriminate.
Qed.

(** Years that are all there are all skipped. *)
Lemma each_year_present (base_path : path) (years : list Z) (fs : node) :
  (forall y, In y years ->
             kind_at fs (join base_path (Py.str y)) <> None) ->
  each_year fs years base_path = Ok fs.
Proof.
  induction years as [ | year rest IH]; intros H; simpl; [reflexivity | ].
  rewrite (proj2 (path_exists_kind fs _) (H year (or_introl eq_refl))).
  simpl. apply IH. intros y Hy. apply H. now right.
Qed.

Lemma kind_at_below_file (fs : node) (q r : path) :
  kind_at fs q = Some KFile -> r <> [] -> kind_at fs (q ++ r) = None.
Proof.
  unfold kind_at. rewrite lookup_app.
  destruct (lookup fs q) as [[ | es] | ]; try discriminate.
  intros _ Hr. destruct r; [contradiction | reflexivity].
Qed.

Lemma mkdir_raises (fs : node) (name : path) (e : exn) :
  mkdir fs name = Raise e -> e = OSError.
Proof.
  unfold mkdir. destruct (split name) as [[head tail] | ]; [ | now intros [= <-]].
  destruct (lookup fs head) as [[ | es] | ]; try (now intros [= <-]).
  destruct (find_entry tail es); [now intros [= <-] | discriminate].
Qed.

(** [makedirs] below a file raises. *)
Lemma makedirs_rev_blocked (rname : list string) :
  forall fs q r,
    rev rname = q ++ r -> r <> [] -> kind_at fs q = Some KFile ->
    makedirs_rev fs rname = Raise OSError.
Proof.
  induction rname as [ | tail rhead IH]; intros fs q r Hname Hr Hfile.
  - simpl in Hname. symmetry in Hname. apply app_eq_nil in Hname.
    destruct Hname as [_ ->]. contradiction.
  - simpl rev in Hname.
    assert (Hhead : exists r', rev rhead = q ++ r').
    { destruct r as [ | y r] using rev_ind; [contradiction | ].
      rewrite app_assoc in Hname. apply app_inj_tail in Hname.
      destruct Hname as [-> _]. now exists r. }
    destruct Hhead as [r' Hhead].
    assert (Hmk : r' = [] ->
                  mkdir fs (rev (tail :: rhead)) = Raise OSError).
    { intros ->. rewrite app_nil_r in Hhead. simpl rev. rewrite Hhead.
      unfold mkdir. rewrite split_snoc. unfold kind_at in Hfile.
      destruct (lookup fs q) as [[ | es] | ]; try discriminate. reflexivity. }
    simpl makedirs_rev.
    destruct rhead as [ | h rhead'].
    + simpl bind. apply Hmk. simpl in Hhead. symmetry in Hhead.
      apply app_eq_nil in Hhead. now destruct Hhead.
    + destruct r' as [ | y r'].
      * assert (Hex : path_exists fs (rev (h :: rhead')) = true).
        { apply path_exists_kind. rewrite Hhead, app_nil_r, Hfile. discriminate. }
        rewrite Hex. simpl bind. now apply Hmk.
      * assert (Hex : path_exists fs (rev (h :: rhead')) = false).
        { apply path_exists_false. rewrite Hhead.
          apply kind_at_below_file; [exact Hfile | discriminate]. }
        rewrite Hex.
        rewrite (IH fs q (y :: r') Hhead ltac:(discriminate) Hfile).
        reflexivity.
Qed.

End DirsMake.

(** X22. When neither [base_path] nor one of its ancestors is a file,
    [create_year_directories] returns without raising; afterwards the path
    of every year from [start_year] to [end_year] exists, as a directory
    when it was missing before; what existed before is as it was; and
    whatever is new is a directory on the way to a year directory. *)
Theorem create_year_directories_makes_years
        (fs : Fs.node) (start_year end_year : Z) (base_path : Fs.path) :
  (forall q, Fs.is_prefix q base_path = true ->
             Fs.kind_at fs q <> Some Fs.KFile) ->
  exists fs',
    Dirs.create_year_directories fs start_year end_year base_path = Ok fs' /\
    (forall year, (start_year <= year <= end_year)%Z ->
       Fs.kind_at fs' (Fs.join base_path (Py.str year)) <> None /\
       (Fs.kind_at fs (Fs.join base_path (Py.str year)) = None ->
        Fs.kind_at fs' (Fs.join base_path (Py.str year)) = Some Fs.KDir)) /\
    (forall q, Fs.kind_at fs q <> None -> Fs.kind_at fs' q = Fs.kind_at fs q) /\
    (forall q, Fs.kind_at fs q = None -> Fs.kind_at fs' q <> None ->
       Fs.kind_at fs' q = Some Fs.KDir /\
       (Fs.is_prefix q base_path = true \/
        exists year, (start_year <= year <= end_year)%Z /\
                     q = Fs.join base_path (Py.str year))).
Proof.
  intros Hnf. unfold Dirs.create_year_directories.
  destruct (each_year_free base_path
              (Dirs.range start_year (end_year + 1)) fs Hnf) as [fs' Hrun].
  destruct (each_year_grown base_path _ fs fs' Hrun) as [E1 [E2 [E3 _]]].
  exists fs'. split; [exact Hrun | split; [ | split; [exact E1 | ]]].
  - intros year Hy. apply E3. apply in_range. lia.
  - intros q Hq Hq'. destruct (E2 q Hq Hq') as [Hk [Hb | [y [Hy ->]]]].
    + split; [exact Hk | now left].
    + split; [exact Hk | ]. right. exists y. split; [ | reflexivity].
      apply in_range in Hy. lia.
Qed.

Lemma create_year_directories_makes_years_witness :
  exists fs',
    Dirs.create_year_directories Dirs.data_dir 2018 2021 ["data"%string]
    = Ok fs' /\
    (forall year, (2018 <= year <= 2021)%Z ->
       Fs.kind_at fs' (Fs.join ["data"%string] (Py.str year)) <> None /\
       (Fs.kind_at Dirs.data_dir (Fs.join ["data"%string] (Py.str year)) = None ->
        Fs.kind_at fs' (Fs.join ["data"%string] (Py.str year))
        = Some Fs.KDir)) /\
    (forall q, Fs.kind_at Dirs.data_dir q <> None ->
               Fs.kind_at fs' q = Fs.kind_at Dirs.data_dir q) /\
    (forall q, Fs.kind_at Dirs.data_dir q = None -> Fs.kind_at fs' q <> None ->
       Fs.kind_at fs' q = Some Fs.KDir /\
       (Fs.is_prefix q ["data"%string] = true \/
        exists year, (2018 <= year <= 2021)%Z /\
                     q = Fs.join ["data"%string] (Py.str year))).
Proof.
  apply (create_year_directories_makes_years Dirs.data_dir 2018 2021
           ["data"%string]).
  intros q Hq. apply is_prefix_spec in Hq. destruct Hq as [r Hr].
  destruct q as [ | x [ | y q]]; simpl in Hr.
  - intros H. discriminate H.
  - injection Hr as <- _. intros H. discriminate H.
  - destruct q; discriminate Hr.
Defined.

(** X23. [create_year_directories] is idempotent: on the tree that a
    first call returns, the same call returns the same tree. *)
Theorem create_year_directories_idempotent
        (fs fs' : Fs.node) (start_year end_year : Z) (base_path : Fs.path) :
  Dirs.create_year_directories fs start_year end_year base_path = Ok fs' ->
  Dirs.create_year_directories fs' start_year end_year base_path = Ok fs'.
Proof.
  unfold Dirs.create_year_directories. intros Hrun.
  destruct (each_year_grown base_path _ fs fs' Hrun) as [_ [_ [E3 _]]].
  apply each_year_present. intros y Hy. now apply E3.
Qed.

Lemma create_year_directories_idempotent_witness :
  Dirs.create_year_directories
    (Fs.Dir [("data"%string,
              Fs.Dir [("2019"%string, Fs.Dir [("img.tif"%string, Fs.File)]);
                      ("2021"%string, Fs.Dir []); ("2018"%string, Fs.Dir []);
                      ("2020"%string, Fs.Dir [])]);
             ("notes.txt"%string, Fs.File)])
    2018 2021 ["data"%string]
  = Ok (Fs.Dir [("data"%string,
                 Fs.Dir [("2019"%string, Fs.Dir [("img.tif"%string, Fs.File)]);
                         ("2021"%string, Fs.Dir []); ("2018"%string, Fs.Dir []);
                         ("2020"%string, Fs.Dir [])]);
                ("notes.txt"%string, Fs.File)]).
Proof.
  apply (create_year_directories_idempotent Dirs.data_dir _ 2018 2021
           ["data"%string]).
  reflexivity.
Defined.

(** X24. When [base_path] or one of its ancestors is a file and there is
    a year to make ([start_year <= end_year]), [create_year_directories]
    raises [OSError]. *)
Theorem create_year_directories_blocked_by_file
        (fs : Fs.node) (start_year end_year : Z) (base_path q : Fs.path) :
  Fs.is_prefix q base_path = true ->
  Fs.kind_at fs q = Some Fs.KFile ->
  (start_year <= end_year)%Z ->
  Dirs.create_year_directories fs start_year end_year base_path
  = Raise OSError.
Proof.
  intros Hq Hfile Hle. unfold Dirs.create_year_directories, Dirs.range.
  replace (Z.to_nat (end_year + 1 - start_year))
    with (S (Z.to_nat (end_year - start_year))) by lia.
  simpl. rewrite Z.add_0_r.
  apply is_prefix_spec in Hq. destruct Hq as [r ->].
  assert (Hmiss : Fs.kind_at fs (Fs.join (q ++ r) (Py.str start_year)) = None).
  { unfold Fs.join. rewrite <- app_assoc.
    apply kind_at_below_file; [exact Hfile | now destruct r]. }
  rewrite (proj2 (path_exists_false fs _) Hmiss). simpl.
  unfold Dirs.makedirs.
  rewrite (makedirs_rev_blocked _ fs q (r ++ [Py.str start_year])).
  - reflexivity.
  - rewrite rev_involutive. unfold Fs.join. now rewrite app_assoc.
  - now destruct r.
  - exact Hfile.
Qed.

Lemma create_year_directories_blocked_by_file_witness :
  Dirs.create_year_directories Dirs.data_dir 2018 2019 ["notes.txt"%string]
  = Raise OSError.
Proof.
  apply (create_year_directories_blocked_by_file Dirs.data_dir 2018 2019
           ["notes.txt"%string] ["notes.txt"%string]).
  - reflexivity.
  - reflexivity.
  - lia.
Defined.


Section DirsUse.

Import Fs Dirs.

(** A year directory that was just made holds nothing. *)
Lemma new_year_directory_empty (fs fs' : node) (years : list Z)
      (base_path : path) (year : Z) :
  each_year fs years base_path = Ok fs' ->
  In year years ->
  kind_at fs (join base_path (Py.str year)) = None ->
  transitively_empty fs' (join base_path (Py.str year)) /\
  is_empty_dir fs' (join base_path (Py.str year)) = true.
Proof.
  intros Hrun Hy Hmiss.
  destruct (each_year_grown base_path years fs fs' Hrun) as [_ [E2 [E3 _]]].
  destruct (E3 year Hy) as [_ Hk]. specialize (Hk Hmiss).
  assert (Hbelow : forall q, q <> [] ->
            kind_at fs' (join base_path (Py.str year) ++ q) = None).
  { intros q Hq.
    destruct (kind_at fs' (join base_path (Py.str year) ++ q)) eqn:E;
      [ | reflexivity].
    destruct (E2 (join base_path (Py.str year) ++ q)) as [_ Hwhere].
    - now apply kind_at_none_app.
    - rewrite E. discriminate.
    - exfalso. unfold join in Hwhere.
      destruct Hwhere as [Hp | [y [_ Hy']]].
      + apply is_prefix_spec in Hp. destruct Hp as [r Hr].
        rewrite <- !app_assoc in Hr.
        rewrite <- (app_nil_r base_path) in Hr at 1.
        apply app_inv_head in Hr. discriminate Hr.
      + rewrite <- app_assoc in Hy'. apply app_inv_head in Hy'.
        simpl in Hy'. injection Hy' as _ Hq'. contradiction. }
  split; [split; [exact Hk | ] | ].
  - intros q. destruct q as [ | x q].
    + rewrite app_nil_r, Hk. discriminate.
    + rewrite Hbelow by discriminate. discriminate.
  - apply is_empty_dir_spec. split; [exact Hk | ].
    intros x. apply Hbelow. discriminate.
Qed.

End DirsUse.

(** X25. What [create_year_directories] makes, [delete_empty_dirs] takes
    away again: on a tree with unique names, after a call of
    [create_year_directories] that returned, [delete_empty_dirs] on
    [base_path] returns, and every year directory that the first call had
    to make is among the directories it removes and is gone afterwards;
    no file is lost. *)
Theorem create_year_directories_then_delete_empty_dirs
        (fs fs' : Fs.node) (start_year end_year : Z) (base_path : Fs.path) :
  Fs.wf fs ->
  Dirs.create_year_directories fs start_year end_year base_path = Ok fs' ->
  exists st',
    Fs.delete_empty_dirs (Fs.start fs') base_path = Ok st' /\
    (forall year, (start_year <= year <= end_year)%Z ->
       Fs.kind_at fs (Fs.join base_path (Py.str year)) = None ->
       In (Fs.join base_path (Py.str year)) (Fs.removed st') /\
       Fs.kind_at (Fs.tree st') (Fs.join base_path (Py.str year)) = None) /\
    (forall p, Fs.kind_at fs p = Some Fs.KFile ->
               Fs.kind_at (Fs.tree st') p = Some Fs.KFile).
Proof.
  intros Hwf Hrun. unfold Dirs.create_year_directories in Hrun.
  destruct (each_year_grown base_path _ fs fs' Hrun) as [E1 [_ [_ E4]]].
  destruct (delete_empty_dirs_pruned fs' base_path (E4 Hwf))
    as [st' [Hdel [Hp [Hl _]]]].
  exists st'. split; [exact Hdel | split].
  - intros year Hy Hmiss.
    destruct (new_year_directory_empty fs fs' _ base_path year Hrun)
      as [Hte He]; [apply in_range; lia | exact Hmiss | ].
    assert (Hb : Fs.below base_path (Fs.join base_path (Py.str year))).
    { exists [Py.str year]. split; [discriminate | reflexivity]. }
    assert (Hin : In (Fs.join base_path (Py.str year)) (Fs.removed st')).
    { apply (removed_iff_cleared fs' _ st' _ Hp Hl (proj1 Hte)).
      now apply cleared_below_root. }
    split; [exact Hin | ].
    apply (proj1 (proj2 Hl)) in Hin. exact (proj2 Hin).
  - intros p Hf. apply (proj1 (proj1 Hp)).
    rewrite E1; [exact Hf | rewrite Hf; discriminate].
Qed.

Lemma create_year_directories_then_delete_empty_dirs_witness :
  exists st',
    Fs.delete_empty_dirs
      (Fs.start
         (Fs.Dir [("data"%string,
                   Fs.Dir [("2019"%string,
                            Fs.Dir [("img.tif"%string, Fs.File)]);
                           ("2021"%string, Fs.Dir []);
                           ("2018"%string, Fs.Dir []);
                           ("2020"%string, Fs.Dir [])]);
                  ("notes.txt"%string, Fs.File)]))
      ["data"%string] = Ok st' /\
    (forall year, (2018 <= year <= 2021)%Z ->
       Fs.kind_at Dirs.data_dir (Fs.join ["data"%string] (Py.str year)) = None ->
       In (Fs.join ["data"%string] (Py.str year)) (Fs.removed st') /\
       Fs.kind_at (Fs.tree st') (Fs.join ["data"%string] (Py.str year)) = None) /\
    (forall p, Fs.kind_at Dirs.data_dir p = Some Fs.KFile ->
               Fs.kind_at (Fs.tree st') p = Some Fs.KFile).
Proof.
  apply (create_year_directories_then_delete_empty_dirs Dirs.data_dir _
           2018 2021 ["data"%string]).
  - repeat (constructor; simpl; try (intuition discriminate)).
  - reflexivity.
Defined.

Section DirsFind.

Import Fs Dirs.

Lemma literal_spec (pat : text) :
  forall s rest,
    literal pat s = Some rest <->
    exists c, s = (c ++ rest)%list /\ map fold_case c = pat.
Proof.
  induction pat as [ | p pat IH]; intros s rest.
  - destruct s; simpl; split.
    + intros [= <-]. now exists [].
    + intros [c [Hs Hc]]. apply map_eq_nil in Hc. subst c. now rewrite Hs.
    + intros [= <-]. now exists [].
    + intros [c [Hs Hc]]. apply map_eq_nil in Hc. subst c. now rewrite Hs.
  - destruct s as [ | a s]; simpl.
    + split; [discriminate | ].
      intros [[ | b c] [Hs Hc]]; discriminate.
    + destruct (N.eqb_spec (fold_case a) p) as [Hp | Hp].
      * rewrite IH. split.
        -- intros [c [-> Hc]]. exists (a :: c). simpl. now rewrite Hp, Hc.
        -- intros [[ | b c] [Hs Hc]]; [discriminate | ].
           simpl in Hs, Hc. injection Hs as <- ->. injection Hc as _ Hc.
           now exists c.
      * split; [discriminate | ].
        intros [[ | b c] [Hs Hc]]; [discriminate | ].
        simpl in Hs, Hc. injection Hs as <- ->. injection Hc as Hb _.
        contradiction.
Qed.

Lemma any_then_eq (pat s : text) :
  any_then pat s
  = match literal pat s with
    | Some _ => true
    | None =>
        match s with
        | [] => false
        | c :: s' => if N.eqb c newline then false else any_then pat s'
        end
    end.
Proof. destruct s; reflexivity. Qed.

Lemma any_then_spec (pat : text) :
  forall s,
    any_then pat s = true <->
    exists skipped c rest,
      s = (skipped ++ c ++ rest)%list /\ map fold_case c = pat /\
      ~ In newline skipped.
Proof.
  intros s. split.
  - induction s as [ | a s IH]; rewrite any_then_eq.
    + destruct (literal pat []) as [rest | ] eqn:El; [ | discriminate].
      intros _. apply literal_spec in El. destruct El as [c [Hs Hc]].
      exists [], c, rest. split; [exact Hs | split; [exact Hc | ]].
      intros [].
    + destruct (literal pat (a :: s)) as [rest | ] eqn:El.
      * intros _. apply literal_spec in El. destruct El as [c [Hs Hc]].
        exists [], c, rest. split; [exact Hs | split; [exact Hc | ]].
        intros [].
      * destruct (N.eqb a newline) eqn:Ha; [discriminate | ].
        apply N.eqb_neq in Ha.
        intros H. destruct (IH H) as [skipped [c [rest [-> [Hc Hn]]]]].
        exists (a :: skipped), c, rest.
        split; [reflexivity | split; [exact Hc | ]].
        intros [H1 | H1]; [now apply Ha | contradiction].
  - intros [skipped [c [rest [-> [Hc Hn]]]]].
    induction skipped as [ | a skipped IH]; rewrite any_then_eq.
    + simpl app.
      rewrite (proj2 (literal_spec pat (c ++ rest) rest)); [reflexivity | ].
      now exists c.
    + destruct (literal pat ((a :: skipped) ++ c ++ rest)); [reflexivity | ].
      simpl app.
      destruct (N.eqb a newline) eqn:Ha.
      * exfalso. apply Hn. left. now apply N.eqb_eq.
      * rewrite Ha. apply IH. intros H. apply Hn. now right.
Qed.

(** The matcher accepts what the pattern denotes. *)
Lemma use_regex_config_name (input_text : text) :
  use_regex input_text = true <-> config_name input_text.
Proof.
  unfold use_regex, config_name. split.
  - destruct (literal _ input_text) as [rest | ] eqn:El;
      [ | discriminate].
    intros H. apply literal_spec in El. destruct El as [c [Hs Hc]].
    apply any_then_spec in H. destruct H as [skipped [j [rest' [-> [Hj Hn]]]]].
    exists c, skipped, j, rest'. repeat split; assumption.
  - intros [c [skipped [j [rest [Hs [Hc [Hj Hn]]]]]]].
    rewrite (proj2 (literal_spec _ _ (skipped ++ j ++ rest)%list));
      [ | now exists c].
    apply any_then_spec. now exists skipped, j, rest.
Qed.

Lemma use_regex_not_config_name (input_text : text) :
  use_regex input_text = false <-> ~ config_name input_text.
Proof.
  rewrite <- use_regex_config_name.
  destruct (use_regex input_text); split; intros H.
  - discriminate H.
  - now contradiction H.
  - intros H'. discriminate H'.
  - reflexivity.
Qed.

Lemma find_first {A : Type} (f : A -> bool) (l : list A) (x : A) :
  find f l = Some x <->
  exists before after,
    l = (before ++ x :: after)%list /\ f x = true /\
    forall y, In y before -> f y = false.
Proof.
  induction l as [ | a l IH]; simpl.
  - split; [discriminate | ].
    intros [[ | b before] [after [H _]]]; discriminate.
  - destruct (f a) eqn:Ea.
    + split.
      * intros [= <-]. exists [], l. split; [reflexivity | split; [exact Ea | ]].
        intros y [].
      * intros [[ | b before] [after [H [Hx Hb]]]].
        -- simpl in H. now injection H as <- _.
        -- simpl in H. injection H as <- _.
           rewrite (Hb a (or_introl eq_refl)) in Ea. discriminate.
    + rewrite IH. split.
      * intros [before [after [-> [Hx Hb]]]]. exists (a :: before), after.
        split; [reflexivity | split; [exact Hx | ]].
        intros y [<- | Hy]; [exact Ea | now apply Hb].
      * intros [[ | b before] [after [H [Hx Hb]]]].
        -- simpl in H. injection H as <- _. rewrite Hx in Ea. discriminate.
        -- simpl in H. injection H as <- ->. exists before, after.
           split; [reflexivity | split; [exact Hx | ]].
           intros y Hy. apply Hb. now right.
Qed.

Lemma find_nothing {A : Type} (f : A -> bool) (l : list A) :
  find f l = None <-> forall y, In y l -> f y = false.
Proof.
  induction l as [ | a l IH]; simpl.
  - split; [intros _ y [] | reflexivity].
  - destruct (f a) eqn:Ea.
    + split; [discriminate | ].
      intros H. rewrite (H a (or_introl eq_refl)) in Ea. discriminate.
    + rewrite IH. split.
      * intros H y [<- | Hy]; [exact Ea | now apply H].
      * intros H y Hy. apply H. now right.
Qed.

End DirsFind.

(** X26. For a [name] that is one path component and a parent that is
    a directory, [create_subdirectory] returns the path of [name] in that
    parent, which exists afterwards: it is made as an empty directory when
    it was missing, and the tree is left as it is when it was there (be it
    a file).  No other path changes, a second call changes nothing, and
    without [parent_dir] the parent is the current directory. *)
Theorem create_subdirectory_makes_dir
        (cwd : Fs.path) (fs : Fs.node) (name : string) (parent : Fs.path) :
  Dirs.component name = true ->
  Fs.kind_at fs parent = Some Fs.KDir ->
  exists fs',
    Dirs.create_subdirectory cwd fs name (Some parent)
    = Ok (fs', Fs.join parent name) /\
    (Fs.kind_at fs (Fs.join parent name) = None ->
     Fs.kind_at fs' (Fs.join parent name) = Some Fs.KDir /\
     Fs.is_empty_dir fs' (Fs.join parent name) = true) /\
    (Fs.kind_at fs (Fs.join parent name) <> None -> fs' = fs) /\
    (forall q, q <> Fs.join parent name ->
               Fs.kind_at fs' q = Fs.kind_at fs q) /\
    Dirs.create_subdirectory cwd fs' name (Some parent)
    = Ok (fs', Fs.join parent name) /\
    Dirs.create_subdirectory parent fs name None
    = Dirs.create_subdirectory cwd fs name (Some parent).
Proof.
  intros _ Hp. unfold Dirs.create_subdirectory.
  destruct (Dirs.path_exists fs (Fs.join parent name)) eqn:Ex.
  - exists fs. simpl. rewrite Ex. simpl.
    apply path_exists_kind in Ex.
    split; [reflexivity | split; [ | split; [ | split; [ | split]]]];
      try reflexivity.
    intros H. contradiction.
  - apply path_exists_false in Ex.
    destruct (mkdir_free fs parent name Hp Ex) as [fs' Hmk].
    fold (Fs.join parent name) in Hmk.
    destruct (mkdir_ok fs fs' _ Hmk) as [_ [Hk [Hother _]]].
    exists fs'. simpl. rewrite Hmk. simpl.
    assert (Hex : Dirs.path_exists fs' (Fs.join parent name) = true).
    { apply path_exists_kind. rewrite Hk. discriminate. }
    rewrite Hex. simpl.
    split; [reflexivity | split; [ | split; [ | split; [ | split]]]];
      try reflexivity.
    + intros _. split; [exact Hk | ].
      apply is_empty_dir_spec. split; [exact Hk | ].
      intros x. rewrite Hother.
      * now apply kind_at_none_app.
      * intros H. apply (f_equal (@length string)) in H.
        rewrite length_app in H. simpl in H. lia.
    + intros H. contradiction.
    + exact Hother.
Qed.

Lemma create_subdirectory_makes_dir_witness :
  exists fs',
    Dirs.create_subdirectory [] Dirs.data_dir "2020" (Some ["data"%string])
    = Ok (fs', Fs.join ["data"%string] "2020") /\
    (Fs.kind_at Dirs.data_dir (Fs.join ["data"%string] "2020") = None ->
     Fs.kind_at fs' (Fs.join ["data"%string] "2020") = Some Fs.KDir /\
     Fs.is_empty_dir fs' (Fs.join ["data"%string] "2020") = true) /\
    (Fs.kind_at Dirs.data_dir (Fs.join ["data"%string] "2020") <> None ->
     fs' = Dirs.data_dir) /\
    (forall q, q <> Fs.join ["data"%string] "2020" ->
               Fs.kind_at fs' q = Fs.kind_at Dirs.data_dir q) /\
    Dirs.create_subdirectory [] fs' "2020" (Some ["data"%string])
    = Ok (fs', Fs.join ["data"%string] "2020") /\
    Dirs.create_subdirectory ["data"%string] Dirs.data_dir "2020" None
    = Dirs.create_subdirectory [] Dirs.data_dir "2020" (Some ["data"%string]).
Proof.
  apply (create_subdirectory_makes_dir [] Dirs.data_dir "2020"
           ["data"%string]).
  - reflexivity.
  - reflexivity.
Defined.

(** X27. [create_subdirectory] makes no parents: for a [name] that is
    one path component, when the parent is missing or is a file, it raises
    [OSError]. *)
Theorem create_subdirectory_needs_parent
        (cwd : Fs.path) (fs : Fs.node) (name : string) (parent : Fs.path) :
  Dirs.component name = true ->
  Fs.kind_at fs parent <> Some Fs.KDir ->
  Dirs.create_subdirectory cwd fs name (Some parent) = Raise OSError.
Proof.
  intros _ Hp. unfold Dirs.create_subdirectory, Dirs.path_exists, Dirs.mkdir.
  unfold Fs.join. rewrite split_snoc, lookup_app.
  unfold Fs.kind_at in Hp.
  destruct (Fs.lookup fs parent) as [[ | es] | ]; try reflexivity.
  now contradiction Hp.
Qed.

Lemma create_subdirectory_needs_parent_witness :
  Dirs.create_subdirectory [] Dirs.data_dir "2020"
    (Some ["data"; "archive"]%string)
  = Raise OSError.
Proof.
  apply (create_subdirectory_needs_parent [] Dirs.data_dir "2020"
           ["data"; "archive"]%string).
  - reflexivity.
  - discriminate.
Defined.

(** The names that [component] refuses. *)
Example component_examples :
  Dirs.component "2020" = true /\ Dirs.component "" = false /\
  Dirs.component "." = false /\ Dirs.component ".." = false /\
  Dirs.component "a/b" = false /\ Dirs.component "/tmp" = false.
Proof. repeat split. Qed.

(** X28. On a directory, [find_config_json] returns the first listed
    name whose text starts with "config" and has ".json" later on with no
    newline between, case ignored; it raises [OSError] exactly when no
    listed name is of that form.  Case is ignored as [re.IGNORECASE] does
    it: beside the two cases of each letter, U+0130 and U+0131 count as
    "i" and U+017F as "s". *)
Theorem find_config_json_first_match
        (fsdecode : string -> Dirs.text)
        (fs : Fs.node) (search_path : Fs.path) (items : list string) :
  Fs.listdir fs search_path = Ok items ->
  (forall item,
      Dirs.find_config_json fsdecode fs search_path = Ok item <->
      exists before after,
        items = (before ++ item :: after)%list /\
        Dirs.config_name (fsdecode item) /\
        forall x, In x before -> ~ Dirs.config_name (fsdecode x)) /\
  (Dirs.find_config_json fsdecode fs search_path = Raise OSError <->
   forall x, In x items -> ~ Dirs.config_name (fsdecode x)).
Proof.
  intros Hl. unfold Dirs.find_config_json. rewrite Hl. simpl.
  set (f := fun item => Dirs.use_regex (fsdecode item)).
  assert (Hf : forall x, f x = true <-> Dirs.config_name (fsdecode x))
    by (intros x; apply use_regex_config_name).
  assert (Hn : forall x, f x = false <-> ~ Dirs.config_name (fsdecode x))
    by (intros x; apply use_regex_not_config_name).
  split.
  - intros item.
    destruct (find f items) as [found | ] eqn:Ef.
    + split.
      * intros [= <-]. apply find_first in Ef.
        destruct Ef as [before [after [H1 [H2 H3]]]].
        exists before, after. split; [exact H1 | split].
        -- now apply Hf.
        -- intros x Hx. apply Hn. now apply H3.
      * intros [before [after [H1 [H2 H3]]]].
        apply Hf in H2.
        assert (H : find f items = Some item).
        { apply find_first. exists before, after.
          split; [exact H1 | split; [exact H2 | ]].
          intros y Hy. apply Hn. now apply H3. }
        congruence.
    + split; [discriminate | ].
      intros [before [after [H1 [H2 _]]]]. exfalso.
      apply Hf in H2.
      rewrite find_nothing in Ef. rewrite Ef in H2; [discriminate | ].
      rewrite H1. apply in_or_app. right. now left.
  - destruct (find f items) as [found | ] eqn:Ef.
    + split; [discriminate | ].
      intros H. apply find_first in Ef.
      destruct Ef as [before [after [H1 [H2 _]]]]. exfalso.
      apply (H found); [ | now apply Hf].
      rewrite H1. apply in_or_app. right. now left.
    + split; [ | reflexivity].
      intros _ x Hx. apply Hn.
      rewrite find_nothing in Ef. now apply Ef.
Qed.

Lemma find_config_json_first_match_witness :
  (forall item,
      Dirs.find_config_json Dirs.codes Dirs.session_dir ["session"%string]
      = Ok item <->
      exists before after,
        ["my_config.json"; "Config_gdf.geojson"; "CONFIG.json.bak";
         "config.json"]%string = (before ++ item :: after)%list /\
        Dirs.config_name (Dirs.codes item) /\
        forall x, In x before -> ~ Dirs.config_name (Dirs.codes x)) /\
  (Dirs.find_config_json Dirs.codes Dirs.session_dir ["session"%string]
   = Raise OSError <->
   forall x, In x ["my_config.json"; "Config_gdf.geojson"; "CONFIG.json.bak";
                   "config.json"]%string -> ~ Dirs.config_name (Dirs.codes x)).
Proof.
  apply (find_config_json_first_match Dirs.codes Dirs.session_dir
           ["session"%string]).
  reflexivity.
Defined.

(** The run on the session directory, and the letters beyond ASCII that
    [re.IGNORECASE] takes for "i" and "s". *)
Example find_config_json_examples :
  Dirs.find_config_json Dirs.codes Dirs.session_dir ["session"%string]
  = Ok "CONFIG.json.bak"%string /\
  Dirs.use_regex (Dirs.codes "conf" ++ [305%N] ++ Dirs.codes "g.json") = true /\
  Dirs.use_regex (Dirs.codes "conf" ++ [304%N] ++ Dirs.codes "g.json") = true /\
  Dirs.use_regex (Dirs.codes "config.j" ++ [383%N] ++ Dirs.codes "on") = true /\
  Dirs.use_regex (Dirs.codes "config" ++ [10%N] ++ Dirs.codes ".json") = false /\
  Dirs.use_regex (Dirs.codes "config.geojson") = false.
Proof. repeat split. Qed.

(** X29. The pattern of [find_config_json] is not anchored at the end:
    a text that [use_regex] accepts is still accepted with anything
    appended to it. *)
Theorem use_regex_accepts_any_ending (input_text ending : Dirs.text) :
  Dirs.use_regex input_text = true ->
  Dirs.use_regex (input_text ++ ending) = true.
Proof.
  rewrite !use_regex_config_name.
  intros [c [skipped [j [rest [Hs [Hc [Hj Hn]]]]]]].
  exists c, skipped, j, (rest ++ ending)%list.
  split; [ | split; [exact Hc | split; [exact Hj | exact Hn]]].
  rewrite Hs. now rewrite <- !app_assoc.
Qed.

Lemma use_regex_accepts_any_ending_witness :
  Dirs.use_regex (Dirs.codes "Config_2021.JSON" ++ Dirs.codes ".bak") = true.
Proof.
  apply (use_regex_accepts_any_ending (Dirs.codes "Config_2021.JSON")
           (Dirs.codes ".bak")).
  reflexivity.
Defined.
